(** * Bulk lead import pipeline (server/routes.ts): a shallow embedding

    The development follows the TypeScript source function by function:
    the string primitives the normalizers rely on, the field normalizers,
    [normalizeAndValidateLead], [applyBusinessLogic], the chunked
    orchestrator [processBulkLeadImport] and the HTTP route in front of it.

    Conventions.
    - A JavaScript string is a Rocq [string] holding its UTF-8 encoding.
      [toLowerCase] is written out for text of Basic Latin and the Latin-1
      Supplement (enough for every key of the source's tables); on text
      with code points beyond U+00FF it is the case mapping of the engine,
      a parameter of the model.
    - JavaScript numbers that the pipeline handles are integers; they are
      modelled in [Z].
    - Mutable objects ([log], [fieldIssues], the counters, the store) live in
      one explicit state record threaded by a state-and-exception monad.
    - The wall clock, the [Date] parser, [JSON.stringify] and the store are
      parameters of the model. *)

From Stdlib Require Import ZArith Ascii String DecimalString List Bool Lia.
From stdpp Require Import base option list gmap strings.

Local Open Scope Z_scope.

(* ===================================================================== *)
(** ** JavaScript string primitives *)
(* ===================================================================== *)

Module Js.

Definition chars (s : string) : list ascii := list_ascii_of_string s.
Definition str (l : list ascii) : string := string_of_list_ascii l.
Definition code (c : ascii) : N := N_of_ascii c.
Definition bytes (l : list N) : list ascii := map ascii_of_N l.

(** [\d] : an ASCII digit. *)
Definition isDigit (c : ascii) : bool :=
  ((48 <=? code c) && (code c <=? 57))%N.

(** One step of [String.prototype.toLowerCase] on the UTF-8 encoding:
    [A-Z] and, after the lead byte 0xC3, the trail bytes of
    U+00C0..U+00DE except U+00D7. *)
Definition lowerByte (afterC3 : bool) (c : ascii) : ascii :=
  let n := code c in
  if ((65 <=? n) && (n <=? 90))%N then ascii_of_N (n + 32)
  else if afterC3 && ((128 <=? n) && (n <=? 158) && negb (n =? 151))%N
       then ascii_of_N (n + 32)
       else c.

Fixpoint lowerFrom (afterC3 : bool) (l : list ascii) : list ascii :=
  match l with
  | [] => []
  | c :: r => lowerByte afterC3 c :: lowerFrom (code c =? 195)%N r
  end.

(** [String.prototype.toLowerCase] on text of Basic Latin and the Latin-1
    Supplement, whose UTF-8 encoding has no byte above 0xC3. *)
Definition lowerLatin1 (s : string) : string := str (lowerFrom false (chars s)).

Definition isLatin1 (s : string) : bool :=
  forallb (fun c => (code c <? 196)%N) (chars s).

(** The white space and line terminator code points of ECMAScript
    ([trim] and the regular-expression class [\s]), as UTF-8. *)
Definition whiteSpace : list (list ascii) :=
  map bytes
    [ [9]; [10]; [11]; [12]; [13]; [32];
      [194; 160];
      [225; 154; 128];
      [226; 128; 128]; [226; 128; 129]; [226; 128; 130]; [226; 128; 131];
      [226; 128; 132]; [226; 128; 133]; [226; 128; 134]; [226; 128; 135];
      [226; 128; 136]; [226; 128; 137]; [226; 128; 138];
      [226; 128; 168]; [226; 128; 169]; [226; 128; 175];
      [226; 129; 159];
      [227; 128; 128];
      [239; 187; 191] ]%N.

Fixpoint startsWith (p l : list ascii) : bool :=
  match p, l with
  | [], _ => true
  | a :: p', b :: l' => if Ascii.eqb a b then startsWith p' l' else false
  | _ :: _, [] => false
  end.

(** Drops one leading white space character, if there is one. *)
Fixpoint dropWhite (table : list (list ascii)) (l : list ascii) : option (list ascii) :=
  match table with
  | [] => None
  | w :: table' =>
      if startsWith w l then Some (drop (length w) l) else dropWhite table' l
  end.

Fixpoint trimWith (table : list (list ascii)) (fuel : nat) (l : list ascii) : list ascii :=
  match fuel with
  | O => l
  | S fuel' =>
      match dropWhite table l with
      | Some r => trimWith table fuel' r
      | None => l
      end
  end.

Definition trimStart (l : list ascii) : list ascii :=
  trimWith whiteSpace (length l) l.
Definition trimEnd (l : list ascii) : list ascii :=
  rev (trimWith (map (@rev ascii) whiteSpace) (length l) (rev l)).

Definition trim (s : string) : string := str (trimEnd (trimStart (chars s))).

(** [String.prototype.toLowerCase], given what the engine makes of text
    with code points beyond U+00FF. *)
Definition lowerWith (beyond : string -> string) (s : string) : string :=
  if isLatin1 s then lowerLatin1 s else beyond s.

(** The case mapping of the engine (its Unicode tables) on text beyond
    Latin-1. One fact about it is used: a lower-cased text has no character
    left that the mapping changes, so that what [trim] keeps of it is in
    lower case. *)
Class Unicode := mkUnicode {
  unicodeLowerCase : string -> string;
  lowerCase_trimmed : forall s,
    isLatin1 s = false ->
    lowerWith unicodeLowerCase (trim (unicodeLowerCase s)) = trim (unicodeLowerCase s)
}.

Definition toLowerCase `{Unicode} (s : string) : string :=
  lowerWith unicodeLowerCase s.

(** [String.prototype.includes]. *)
Fixpoint isInfix (p l : list ascii) : bool :=
  startsWith p l || match l with [] => false | _ :: r => isInfix p r end.

Definition includes (s key : string) : bool := isInfix (chars key) (chars s).

(** A regular expression that is a fixed sequence of character classes:
    [matchPrefix] matches it at the head of the input, [search] finds the
    leftmost match and [replaceFirst] rewrites it (no [g] flag). *)
Fixpoint matchPrefix (pat : list (ascii -> bool)) (l : list ascii)
  : option (list ascii * list ascii) :=
  match pat, l with
  | [], _ => Some ([], l)
  | p :: pat', c :: l' =>
      if p c then
        match matchPrefix pat' l' with
        | Some (m, rest) => Some (c :: m, rest)
        | None => None
        end
      else None
  | _ :: _, [] => None
  end.

Fixpoint search (pat : list (ascii -> bool)) (l : list ascii) : option (list ascii) :=
  match matchPrefix pat l with
  | Some (m, _) => Some m
  | None => match l with [] => None | _ :: r => search pat r end
  end.

Fixpoint replaceFirst (pat : list (ascii -> bool))
    (rewrite : list ascii -> list ascii) (l : list ascii) : list ascii :=
  match matchPrefix pat l with
  | Some (m, rest) => rewrite m ++ rest
  | None => match l with [] => [] | c :: r => c :: replaceFirst pat rewrite r end
  end.

(** Some character of [\s] occurs in the input. *)
Fixpoint hasWhite (l : list ascii) : bool :=
  match dropWhite whiteSpace l with
  | Some _ => true
  | None => match l with [] => false | _ :: r => hasWhite r end
  end.

(** [Number.prototype.toString] on an integer. *)
Definition numberToString (z : Z) : string := NilZero.string_of_int (Z.to_int z).

(** [s.slice(-n)] for a positive [n]: the last [n] characters. *)
Definition sliceLast (n : nat) (s : string) : string :=
  let l := chars s in str (drop (length l - n)%nat l).

(** [s.padStart(n, '0')]. *)
Definition padStart0 (n : nat) (s : string) : string :=
  let l := chars s in str (replicate (n - length l)%nat "0"%char ++ l).

(** [Array.prototype.join] on strings. *)
Fixpoint join (sep : string) (l : list string) : string :=
  match l with
  | [] => ""
  | [x] => x
  | x :: r => x +:+ sep +:+ join sep r
  end.

(** [Array.prototype.slice(start, end)] with its clamping of negative and
    out-of-range indices. *)
Definition clampIndex (len k : Z) : Z :=
  if k <? 0 then Z.max (len + k) 0 else Z.min k len.

Definition slice {A} (l : list A) (start stop : Z) : list A :=
  let len := Z.of_nat (length l) in
  let k := clampIndex len start in
  let final := clampIndex len stop in
  take (Z.to_nat (Z.max (final - k) 0)) (drop (Z.to_nat k) l).

(** [String.prototype.split] on a separator of one character: the pieces
    between the occurrences of the separator, the empty ones included. *)
Fixpoint splitOn (sep : ascii) (l : list ascii) : list (list ascii) :=
  match l with
  | [] => [[]]
  | c :: r =>
      if Ascii.eqb c sep then [] :: splitOn sep r
      else match splitOn sep r with
           | piece :: pieces => (c :: piece) :: pieces
           | [] => [[c]]
           end
  end.

Definition split (s : string) (sep : ascii) : list string :=
  map str (splitOn sep (chars s)).

(** [s.replace(/c/g, '')] for one character [c]. *)
Definition removeAll (c : ascii) (s : string) : string :=
  str (List.filter (fun x => negb (Ascii.eqb x c)) (chars s)).

(** The value of a character as a digit of the given radix. *)
Definition digitValue (radix : Z) (c : ascii) : option Z :=
  let n := Z.of_N (code c) in
  let value :=
    if (48 <=? n) && (n <=? 57) then Some (n - 48)
    else if (97 <=? n) && (n <=? 122) then Some (n - 87)
    else if (65 <=? n) && (n <=? 90) then Some (n - 55)
    else None in
  match value with
  | Some d => if d <? radix then Some d else None
  | None => None
  end.

(** The number written by the longest prefix of digits; [acc] is [None]
    as long as no digit was read. *)
Fixpoint digitsValue (radix : Z) (acc : option Z) (l : list ascii) : option Z :=
  match l with
  | [] => acc
  | c :: r =>
      match digitValue radix c with
      | Some d => digitsValue radix (Some (default 0 acc * radix + d)) r
      | None => acc
      end
  end.

(** [parseInt(s)] without a radix: leading white space is skipped, then a
    sign, then [0x] or [0X] selects radix 16, then the longest prefix of
    digits is read; [None] is [NaN]. The result is the integer that the
    digits write: below 2^53 that is the number JavaScript returns, above
    it JavaScript returns the nearest double. *)
Definition parseInt (s : string) : option Z :=
  let trimmed := trimStart (chars s) in
  let '(negative, unsigned) :=
    match trimmed with
    | c :: r =>
        if Ascii.eqb c "-" then (true, r)
        else if Ascii.eqb c "+" then (false, r)
        else (false, trimmed)
    | [] => (false, [])
    end in
  let '(radix, digits) :=
    match unsigned with
    | z :: x :: r =>
        if Ascii.eqb z "0" && (Ascii.eqb x "x" || Ascii.eqb x "X") then (16, r)
        else (10, unsigned)
    | _ => (10, unsigned)
    end in
  match digitsValue radix None digits with
  | Some n => Some (if negative then - n else n)
  | None => None
  end.

End Js.

(* ===================================================================== *)
(** ** Data model *)
(* ===================================================================== *)

(** The double quote character, for the messages that quote a raw value. *)
Definition dq : string := String (ascii_of_nat 34) EmptyString.

(** A value found in a raw record. A property that is absent (or
    [undefined]) is an absent key of the record. [JsOther] stands for any
    other JSON value (number, boolean, array, object) that has a primitive
    value; of these the pipeline only observes the truthiness and the string
    conversion. [JsOpaque] stands for an object or an array that has none:
    an object with an own property [toString] (which, coming from JSON, is
    not callable), or an array holding one; converting it to a string or to
    a number throws a [TypeError]. *)
Inductive JsValue :=
| JsNull
| JsString (s : string)
| JsOther (truthy : bool) (text : string)
| JsOpaque.

(** One element of [rawLeads]. [ObjectLead] carries the own enumerable
    properties of the element; [NullLead] is [null]. *)
Inductive RawLead :=
| NullLead
| ObjectLead (fields : gmap string JsValue).

Inductive Status := Imported | ImportedWithIssues | Failed.

(** The two members of [Object.prototype] whose names are all lower case:
    what [countryMap[key]] finds through the prototype chain of the object
    literal when [key] is not one of its own keys. *)
Inductive Inherited := ObjectConstructor | ObjectPrototype.

Inductive CountryValue :=
| CountryText (s : string)
| CountryInherited (p : Inherited).

Record NormalizedLead := mkNormalized {
  uid : string;
  name : string;
  currentStage : string;
  leadCreatedDate : Z;
  intake : option string;
  country : option CountryValue;
  phone : option string;
  email : option string;
  source : option string;
  passportStatus : option string;
  remarks : option string;
  counsellors : option string
}.

Record BusinessLogicResult := mkBusinessLogicResult {
  counselorId : option Z;
  blCurrentStage : string
}.

(** [log.normalizedData]: absent (rows written by the chunk-level handler),
    the empty object it is initialised with, or the spread of the normalized
    lead and the business-logic result. *)
Inductive NormalizedData :=
| NoData
| EmptyData
| MergedData (n : NormalizedLead) (b : BusinessLogicResult).

Record ValidationLog := mkLog {
  rowNumber : Z;
  status : Status;
  fixesApplied : list string;
  warnings : list string;
  errors : list string;
  originalData : RawLead;
  normalizedData : NormalizedData
}.

Record FieldIssue := mkFieldIssue {
  count : Z;
  samples : list string
}.

Record ChunkStats := mkChunkStats {
  totalChunks : Z;
  successfulChunks : Z;
  failedChunks : Z
}.

Record BatchSummary := mkBatchSummary {
  totalRows : Z;
  imported : Z;
  importedWithIssues : Z;
  failed : Z;
  processingTimeMs : Z;
  chunkStats : ChunkStats;
  fieldIssues : gmap string FieldIssue
}.

Record Reports := mkReports {
  reportValidationLog : string;
  reportNormalizedPayload : string
}.

Record ImportResult := mkImportResult {
  success : bool;
  batchSummary : BatchSummary;
  validationLog : list ValidationLog;
  downloadableReports : Reports
}.

Record User := mkUser {
  userId : Z;
  userName : string;
  userRole : string
}.

(** What the pipeline hands to the store. The fields that the pipeline
    always sets to [null] ([course], [prevConsultancy], [remarks]) and the
    constant [fromStage: null] are left out. *)
Record LeadInsert := mkLeadInsert {
  liUid : string;
  liName : string;
  liEmail : option string;
  liPhone : option string;
  liCountry : option CountryValue;
  liIntake : option string;
  liSource : option string;
  liCurrentStage : string;
  liCounselorId : option Z;
  liManagerId : option Z;
  liPassportStatus : option string;
  liCounsellors : option string
}.

Record RemarkInsert := mkRemarkInsert {
  riLeadId : Z;
  riUserId : Z;
  riContent : string;
  riIsVisible : bool
}.

Record StageHistoryInsert := mkStageHistoryInsert {
  shLeadId : Z;
  shToStage : string;
  shUserId : Z;
  shReason : string;
  shCreatedAt : Z
}.

(* ===================================================================== *)
(** ** Exceptions *)
(* ===================================================================== *)

(** A thrown value, as far as the handlers of the pipeline look at it:
    an object with a [name] and a [message] (an [Error]), another value that
    is neither [null] nor [undefined] (its [message] property is
    [undefined]), or [null] / [undefined] themselves. *)
Inductive Thrown :=
| ThrownError (ename message : string)
| ThrownOther (text : string)
| ThrownNull
| ThrownUndefined.

Inductive Completion (A : Type) :=
| Normal (a : A)
| Throw (e : Thrown).
Arguments Normal {A} a.
Arguments Throw {A} e.

Definition typeError (message : string) : Thrown := ThrownError "TypeError" message.

(** The template-literal conversion of a caught value. *)
Definition thrownToString (e : Thrown) : string :=
  match e with
  | ThrownError n m =>
      if decide (n = "") then m
      else if decide (m = "") then n else n +:+ ": " +:+ m
  | ThrownOther t => t
  | ThrownNull => "null"
  | ThrownUndefined => "undefined"
  end.

(** [error.message]: the property read fails on [null] and [undefined]. *)
Definition errorMessage (e : Thrown) : Completion (option string) :=
  match e with
  | ThrownError _ m => Normal (Some m)
  | ThrownOther _ => Normal None
  | ThrownNull => Throw (typeError "Cannot read properties of null (reading 'message')")
  | ThrownUndefined =>
      Throw (typeError "Cannot read properties of undefined (reading 'message')")
  end.

(** [x || fallback] on an optional string: the empty string is falsy. *)
Definition orString (x : option string) (fallback : string) : string :=
  match x with
  | Some s => if decide (s = "") then fallback else s
  | None => fallback
  end.

(** [a || b] on optional numbers: [null] and [0] are falsy. *)
Definition orNumber (a b : option Z) : option Z :=
  match a with
  | Some x => if x =? 0 then b else Some x
  | None => b
  end.

(* ===================================================================== *)
(** ** The environment: store, clock and built-ins *)
(* ===================================================================== *)

(** The persistence layer ([storage] in the source). Every operation may
    throw (reject); [getAllUsers] only reads. [createLead] resolves to a
    lead, of which the pipeline reads the [id], or to [undefined] ([None]);
    a store resolving to [null] is not told apart, only the text of the
    resulting [TypeError] would differ. *)
Class Storage (Store : Type) := mkStorage {
  getAllUsers : Store -> Completion (list User);
  createLead : LeadInsert -> Store -> Completion (option Z) * Store;
  createRemark : RemarkInsert -> Store -> Completion unit * Store;
  createStageHistory : StageHistoryInsert -> Store -> Completion unit * Store
}.

(** The host: the case mapping of the engine, the n-th reading of the
    clock during a run ([Date.now()], [new Date()]), the [Date] constructor
    on a value ([None] is an invalid date), the local calendar year of a time
    value and [JSON.stringify] on a line of the payload export. *)
Class Host := mkHost {
  unicode :: Js.Unicode;
  clock : nat -> Z;
  newDate : JsValue -> option Z;
  getFullYear : Z -> Z;
  stringifyLine : Z -> Status -> NormalizedData -> string
}.

(** The host at another time: the same engine, with other readings of the
    clock. *)
Definition withClock (readings : nat -> Z) (host : Host) : Host :=
  mkHost (@unicode host) readings (@newDate host) (@getFullYear host)
    (@stringifyLine host).

(* ===================================================================== *)
(** ** The pipeline *)
(* ===================================================================== *)

Section Pipeline.

Context {Store : Type} {storage : Storage Store} {host : Host}.

(** The mutable state of one run: the [log] object of the row being
    processed, the local variables of [processBulkLeadImport], the number
    of clock readings made so far and the store. *)
Record ImportState := mkState {
  stLog : ValidationLog;
  stValidationLog : list ValidationLog;
  stFieldIssues : gmap string FieldIssue;
  importedCount : Z;
  importedWithIssuesCount : Z;
  failedCount : Z;
  stSuccessfulChunks : Z;
  stFailedChunks : Z;
  stTicks : nat;
  stStore : Store
}.

Definition M (A : Type) : Type := ImportState -> Completion A * ImportState.

#[export] Instance M_ret : MRet M := fun A a st => (Normal a, st).
#[export] Instance M_bind : MBind M := fun A B f m st =>
  match m st with
  | (Normal a, st') => f a st'
  | (Throw e, st') => (Throw e, st')
  end.

#[export] Instance M_fmap : FMap M := fun A B f m st =>
  match m st with
  | (Normal a, st') => (Normal (f a), st')
  | (Throw e, st') => (Throw e, st')
  end.

Definition throw {A} (e : Thrown) : M A := fun st => (Throw e, st).

(** A step that returns or throws without touching the state. *)
Definition liftCompletion {A} (c : Completion A) : M A := fun st => (c, st).

(** [try { body } catch (e) { handler e }] *)
Definition tryCatch {A} (body : M A) (handler : Thrown -> M A) : M A := fun st =>
  match body st with
  | (Normal a, st') => (Normal a, st')
  | (Throw e, st') => handler e st'
  end.

Definition when (b : bool) (m : M unit) : M unit := if b then m else mret tt.

Definition modifyLog (f : ValidationLog -> ValidationLog) : M unit := fun st =>
  (Normal tt,
   mkState (f (stLog st)) (stValidationLog st) (stFieldIssues st)
     (importedCount st) (importedWithIssuesCount st) (failedCount st)
     (stSuccessfulChunks st) (stFailedChunks st) (stTicks st) (stStore st)).

Definition getLog : M ValidationLog := fun st => (Normal (stLog st), st).

Definition pushFix (msg : string) : M unit :=
  modifyLog (fun l => mkLog (rowNumber l) (status l) (fixesApplied l ++ [msg])
                        (warnings l) (errors l) (originalData l) (normalizedData l)).
Definition pushWarning (msg : string) : M unit :=
  modifyLog (fun l => mkLog (rowNumber l) (status l) (fixesApplied l)
                        (warnings l ++ [msg]) (errors l) (originalData l) (normalizedData l)).
Definition pushError (msg : string) : M unit :=
  modifyLog (fun l => mkLog (rowNumber l) (status l) (fixesApplied l)
                        (warnings l) (errors l ++ [msg]) (originalData l) (normalizedData l)).
Definition setStatus (s : Status) : M unit :=
  modifyLog (fun l => mkLog (rowNumber l) s (fixesApplied l)
                        (warnings l) (errors l) (originalData l) (normalizedData l)).
Definition setNormalizedData (d : NormalizedData) : M unit :=
  modifyLog (fun l => mkLog (rowNumber l) (status l) (fixesApplied l)
                        (warnings l) (errors l) (originalData l) d).

(** [Date.now()] / [new Date()]: the next reading of the clock. *)
Definition dateNow : M Z := fun st =>
  (Normal (clock (stTicks st)),
   mkState (stLog st) (stValidationLog st) (stFieldIssues st)
     (importedCount st) (importedWithIssuesCount st) (failedCount st)
     (stSuccessfulChunks st) (stFailedChunks st) (S (stTicks st)) (stStore st)).

Definition addIssue (fieldName issue : string) (fi : gmap string FieldIssue)
  : gmap string FieldIssue :=
  let cur := default (mkFieldIssue 0 []) (fi !! fieldName) in
  <[fieldName :=
      mkFieldIssue (count cur + 1)
        (if (length (samples cur) <? 5)%nat then samples cur ++ [issue] else samples cur)]> fi.

Definition addFieldIssue (fieldName issue : string) : M unit := fun st =>
  (Normal tt,
   mkState (stLog st) (stValidationLog st) (addIssue fieldName issue (stFieldIssues st))
     (importedCount st) (importedWithIssuesCount st) (failedCount st)
     (stSuccessfulChunks st) (stFailedChunks st) (stTicks st) (stStore st)).

(** *** Field normalizers *)

Definition seasonMap : list (string * string) :=
  [ ("fall", "Fall"); ("autumn", "Fall"); ("sep", "Fall"); ("september", "Fall");
    ("spring", "Spring"); ("jan", "Spring"); ("january", "Spring");
    ("summer", "Summer"); ("may", "Summer"); ("jun", "Summer");
    ("winter", "Winter"); ("dec", "Winter"); ("december", "Winter") ].

(** The [for ... of Object.entries(seasonMap)] loop: the first key, in
    the order of the table, that occurs in the lower-cased intake. *)
Definition findSeason (normalized : string) : option string :=
  snd <$> List.find (fun kv => Js.includes normalized (fst kv)) seasonMap.

Definition yearPattern : list (ascii -> bool) :=
  [Js.isDigit; Js.isDigit; Js.isDigit; Js.isDigit].

Definition normalizeIntake (intake : string) : M string :=
  let original := intake in
  let normalized := Js.toLowerCase intake in
  year ← match Js.search yearPattern (Js.chars normalized) with
         | Some m => mret (Js.str m)
         | None =>
             now ← dateNow;
             let year := Js.numberToString (getFullYear now + 1) in
             pushFix ("Added missing year " +:+ year +:+ " to intake");;
             mret year
         end;
  season ← match findSeason normalized with
           | Some v => mret v
           | None => pushFix "Added default season Fall to intake";; mret "Fall"
           end;
  let result := year +:+ "-" +:+ season in
  when (negb (String.eqb result original))
    (pushFix ("Normalized intake from " +:+ dq +:+ original +:+ dq +:+ " to "
                +:+ dq +:+ result +:+ dq);;
     addFieldIssue "intake" ("Normalized: " +:+ original +:+ " → " +:+ result));;
  mret result.

(** The own properties of the [countryMap] object literal. *)
Definition countryMap : gmap string string :=
  list_to_map
    [ ("united states", "US"); ("usa", "US"); ("america", "US");
      ("united states of america", "US");
      ("united kingdom", "GB"); ("uk", "GB"); ("england", "GB"); ("britain", "GB");
      ("germany", "DE"); ("deutschland", "DE");
      ("france", "FR"); ("francia", "FR");
      ("india", "IN"); ("bharat", "IN");
      ("china", "CN"); ("prc", "CN");
      ("canada", "CA");
      ("australia", "AU"); ("aus", "AU");
      ("japan", "JP"); ("nippon", "JP");
      ("south korea", "KR"); ("korea", "KR");
      ("brazil", "BR"); ("brasil", "BR");
      ("mexico", "MX"); ("méxico", "MX");
      ("russia", "RU"); ("russian federation", "RU") ].

(** [countryMap[key]]: an own property, or else what the prototype chain
    of the literal gives for the key. Of the members of
    [Object.prototype] only [constructor] and [__proto__] are spelled in
    lower case, the only spelling a lower-cased key can have. *)
Definition countryMapGet (key : string) : option CountryValue :=
  match countryMap !! key with
  | Some iso => Some (CountryText iso)
  | None =>
      if decide (key = "constructor") then Some (CountryInherited ObjectConstructor)
      else if decide (key = "__proto__") then Some (CountryInherited ObjectPrototype)
      else None
  end.

(** The template-literal conversion of a looked-up value. *)
Definition countryToString (v : CountryValue) : string :=
  match v with
  | CountryText s => s
  | CountryInherited ObjectConstructor => "function Object() { [native code] }"
  | CountryInherited ObjectPrototype => "[object Object]"
  end.

(** [mapped !== original] *)
Definition differsFrom (v : CountryValue) (original : string) : bool :=
  match v with
  | CountryText s => negb (String.eqb s original)
  | CountryInherited _ => true
  end.

Definition normalizeCountry (country : string) : M CountryValue :=
  let original := country in
  let normalized := Js.trim (Js.toLowerCase country) in
  match countryMapGet normalized with
  | Some mapped =>
      when (differsFrom mapped original)
        (pushFix ("Normalized country from " +:+ dq +:+ original +:+ dq +:+ " to "
                    +:+ dq +:+ countryToString mapped +:+ dq);;
         addFieldIssue "country"
           ("Normalized: " +:+ original +:+ " → " +:+ countryToString mapped));;
      mret mapped
  | None =>
      pushWarning ("Country " +:+ dq +:+ original +:+ dq
                     +:+ " could not be normalized to ISO code");;
      addFieldIssue "country" ("Unknown country: " +:+ original);;
      mret (CountryText original)
  end.

(** The class [[\d+]]: what [replace(/[^\d+]/g, '')] keeps. *)
Definition isPhoneChar (c : ascii) : bool := Js.isDigit c || Ascii.eqb c "+".

Definition normalizePhone (phone : string) : M string :=
  let original := phone in
  let normalized := Js.str (List.filter isPhoneChar (Js.chars phone)) in
  let digitCount := length (List.filter Js.isDigit (Js.chars normalized)) in
  when (digitCount <? 10)%nat
    (pushWarning ("Phone number " +:+ dq +:+ original +:+ dq
                    +:+ " appears to be too short");;
     addFieldIssue "phone" ("Too short: " +:+ original));;
  when (negb (String.eqb normalized original))
    (pushFix ("Cleaned phone number from " +:+ dq +:+ original +:+ dq +:+ " to "
                +:+ dq +:+ normalized +:+ dq));;
  mret normalized.

(** [/^[^\s@]+@[^\s@]+\.[^\s@]+$/]: one at-sign with a non-empty part
    before it, no white space anywhere, and after the at-sign a dot that
    is neither the first nor the last character. *)
Fixpoint splitAt (c : ascii) (l : list ascii) : option (list ascii * list ascii) :=
  match l with
  | [] => None
  | x :: r =>
      if Ascii.eqb x c then Some ([], r)
      else match splitAt c r with
           | Some (a, b) => Some (x :: a, b)
           | None => None
           end
  end.

Definition hasInnerDot (l : list ascii) : bool :=
  match l with
  | [] => false
  | _ :: r => existsb (fun c => Ascii.eqb c ".") (removelast r)
  end.

Definition emailRegexTest (s : string) : bool :=
  match splitAt "@" (Js.chars s) with
  | Some (localPart, domain) =>
      negb (Js.hasWhite (Js.chars s))
      && (0 <? length localPart)%nat
      && negb (existsb (fun c => Ascii.eqb c "@") domain)
      && hasInnerDot domain
  | None => false
  end.

Definition normalizeEmail (email : string) : M (option string) :=
  let original := email in
  let normalized := Js.trim (Js.toLowerCase email) in
  if negb (emailRegexTest normalized) then
    pushWarning ("Email " +:+ dq +:+ original +:+ dq +:+ " appears to be invalid format");;
    addFieldIssue "email" ("Invalid format: " +:+ original);;
    mret None
  else
    when (negb (String.eqb normalized original))
      (pushFix ("Normalized email from " +:+ dq +:+ original +:+ dq +:+ " to "
                  +:+ dq +:+ normalized +:+ dq));;
    mret (Some normalized).

(** *** Record validator: [normalizeAndValidateLead] *)

(** Truthiness of a property value ([undefined] is the absent key). *)
Definition truthy (v : option JsValue) : bool :=
  match v with
  | None | Some JsNull => false
  | Some (JsString s) => negb (String.eqb s "")
  | Some (JsOther t _) => t
  | Some JsOpaque => true
  end.

(** The conversion of a value to a string, as a template literal makes
    it. *)
Definition valueToString (v : JsValue) : Completion string :=
  match v with
  | JsNull => Normal "null"
  | JsString s => Normal s
  | JsOther _ t => Normal t
  | JsOpaque => Throw (typeError "Cannot convert object to primitive value")
  end.

(** The guard [v && v.trim()] followed by [v.trim()]: the trimmed text
    when the property is a string that is not blank, [None] when the guard
    is falsy, a [TypeError] when the value is truthy and has no [trim]. *)
Definition trimmedField (path : string) (v : option JsValue) : M (option string) :=
  match v with
  | None | Some JsNull => mret None
  | Some (JsString s) =>
      if String.eqb s "" then mret None
      else if String.eqb (Js.trim s) "" then mret None
      else mret (Some (Js.trim s))
  | Some (JsOther t _) =>
      if t then throw (typeError (path +:+ ".trim is not a function"))
      else mret None
  | Some JsOpaque => throw (typeError (path +:+ ".trim is not a function"))
  end.

Definition isChar (c : ascii) : ascii -> bool := fun x => Ascii.eqb x c.

(** [/(\d{2})\/(\d{2})\/(\d{4})/] and [/(\d{2})-(\d{2})-(\d{4})/] *)
Definition dayMonthYear (sep : ascii) : list (ascii -> bool) :=
  [Js.isDigit; Js.isDigit; isChar sep; Js.isDigit; Js.isDigit; isChar sep;
   Js.isDigit; Js.isDigit; Js.isDigit; Js.isDigit].
(** ['$3-$2-$1'] *)
Definition toYearMonthDay (m : list ascii) : list ascii :=
  drop 6 m ++ Js.chars "-" ++ take 2 (drop 3 m) ++ Js.chars "-" ++ take 2 m.

(** [/(\d{4})(\d{2})(\d{2})/] and ['$1-$2-$3'] *)
Definition compactDate : list (ascii -> bool) :=
  [Js.isDigit; Js.isDigit; Js.isDigit; Js.isDigit;
   Js.isDigit; Js.isDigit; Js.isDigit; Js.isDigit].
Definition dashDate (m : list ascii) : list ascii :=
  take 4 m ++ Js.chars "-" ++ take 2 (drop 4 m) ++ Js.chars "-" ++ drop 6 m.

Definition commonFormats (s : string) : list string :=
  [ Js.str (Js.replaceFirst (dayMonthYear "/") toYearMonthDay (Js.chars s));
    Js.str (Js.replaceFirst (dayMonthYear "-") toYearMonthDay (Js.chars s));
    Js.str (Js.replaceFirst compactDate dashDate (Js.chars s)) ].

(** The [for (const format of commonFormats)] loop: the first format
    that parses. *)
Fixpoint firstValid (formats : list string) : option Z :=
  match formats with
  | [] => None
  | f :: rest =>
      match newDate (JsString f) with
      | Some t => Some t
      | None => firstValid rest
      end
  end.

(** The body of the [try] around the date parsing. [new Date(v)] converts
    an object to a primitive value first, and throws when it has none. *)
Definition parseLeadDate (v : JsValue) : M Z :=
  match v with
  | JsOpaque => throw (typeError "Cannot convert object to primitive value")
  | _ =>
      match newDate v with
      | Some t => mret t
      | None =>
          match v with
          | JsString s =>
              match firstValid (commonFormats s) with
              | Some t => mret t
              | None => throw (ThrownError "Error" "Unparseable date format")
              end
          | _ => throw (typeError "rawLead.leadCreatedDate.replace is not a function")
          end
      end
  end.

Definition normalizeAndValidateLead (rawLead : RawLead) : M NormalizedLead :=
  match rawLead with
  | NullLead => throw (typeError "Cannot read properties of null (reading 'uid')")
  | ObjectLead f =>
      (* UID handling *)
      uidField ← trimmedField "rawLead.uid" (f !! "uid");
      uid ← match uidField with
            | Some u => mret u
            | None =>
                timestamp ← dateNow;
                pushFix "Generated missing UID";;
                addFieldIssue "uid" "Missing UID - generated automatically";;
                mret ("UID-" +:+ Js.padStart0 6 (Js.sliceLast 6 (Js.numberToString timestamp)))
            end;
      (* Name handling (required) *)
      studentName ← trimmedField "rawLead.studentName" (f !! "studentName");
      name ← match studentName with
             | Some n => mret n
             | None =>
                 nameField ← trimmedField "rawLead.name" (f !! "name");
                 match nameField with
                 | Some n => mret n
                 | None =>
                     pushError "Missing required student name";;
                     pushFix "Set default name for missing student name";;
                     mret "Unknown Student"
                 end
             end;
      (* Current Stage handling (required) *)
      stageField ← trimmedField "rawLead.currentStage" (f !! "currentStage");
      currentStage ← match stageField with
                     | Some s => mret s
                     | None =>
                         pushError "Missing required current stage";;
                         pushFix "Set default stage for missing current stage";;
                         mret "Yet to Assign"
                     end;
      (* Lead Created Date with resilient parsing *)
      leadCreatedDate ←
        (if truthy (f !! "leadCreatedDate") then
           let v := default JsNull (f !! "leadCreatedDate") in
           tryCatch (parseLeadDate v)
             (fun _ =>
                now ← dateNow;
                pushFix "Invalid date format - defaulted to current date";;
                text ← liftCompletion (valueToString v);
                pushWarning ("Original date " +:+ dq +:+ text +:+ dq
                               +:+ " could not be parsed");;
                text ← liftCompletion (valueToString v);
                addFieldIssue "leadCreatedDate" ("Invalid format: " +:+ text);;
                mret now)
         else
           now ← dateNow;
           pushFix "Missing date - defaulted to current date";;
           mret now);
      (* Intake normalization to YYYY-Season format *)
      intakeField ← trimmedField "rawLead.intake" (f !! "intake");
      intake ← match intakeField with
               | Some i => Some <$> normalizeIntake i
               | None => pushWarning "Missing intake information";; mret None
               end;
      (* Country normalization to ISO codes *)
      countryField ← trimmedField "rawLead.country" (f !! "country");
      country ← match countryField with
                | Some c => Some <$> normalizeCountry c
                | None => pushWarning "Missing country information";; mret None
                end;
      (* Phone normalization *)
      mobileField ← trimmedField "rawLead.mobileNumber" (f !! "mobileNumber");
      phone ← match mobileField with
              | Some p => Some <$> normalizePhone p
              | None =>
                  phoneField ← trimmedField "rawLead.phone" (f !! "phone");
                  match phoneField with
                  | Some p => Some <$> normalizePhone p
                  | None => pushWarning "Missing phone number";; mret None
                  end
              end;
      (* Email normalization *)
      emailField ← trimmedField "rawLead.email" (f !! "email");
      email ← match emailField with
              | Some e => normalizeEmail e
              | None => mret None
              end;
      (* Other fields (now optional) *)
      source ← trimmedField "rawLead.source" (f !! "source");
      passportStatus ← trimmedField "rawLead.passportStatus" (f !! "passportStatus");
      remarks ← trimmedField "rawLead.remarks" (f !! "remarks");
      counsellors ← trimmedField "rawLead.counsellors" (f !! "counsellors");
      mret (mkNormalized uid name currentStage leadCreatedDate intake country phone
              email source passportStatus remarks counsellors)
  end.

(** *** Business rule engine *)

(** Truthiness of an id that may be [null]: [0] is falsy too. *)
Definition truthyId (id : option Z) : bool :=
  match id with
  | Some c => negb (c =? 0)
  | None => false
  end.

Definition determineOptimalStage (counselorId : option Z) (requestedStage : option string)
  : string :=
  let requested :=
    match requestedStage with
    | Some r => negb (String.eqb r "") && negb (String.eqb (Js.trim r) "")
    | None => false
    end in
  (* If a specific stage was requested in CSV, respect it *)
  if requested then Js.trim (default "" requestedStage)
  (* if no counselor assigned, mark as "Yet to Contact" instead of "Yet to Assign" *)
  else if negb (truthyId counselorId) then "Yet to Contact"
  (* If counselor is assigned, mark as "Yet to Contact" *)
  else "Yet to Contact".

Definition matchesCounselor (counselorName : string) (c : User) : bool :=
  Js.includes (Js.toLowerCase (userName c)) counselorName
  || Js.includes counselorName (Js.toLowerCase (userName c)).

Definition applyBusinessLogic (normalized : NormalizedLead) (counselors : list User)
    (defaultCounselor : option User) (managerId : option Z) : BusinessLogicResult :=
  let assignedCounselorId :=
    match counsellors normalized with
    | Some c =>
        if negb (String.eqb c "") && negb (String.eqb (Js.trim c) "") then
          let counselorName := Js.toLowerCase (Js.trim c) in
          match List.find (matchesCounselor counselorName) counselors with
          | Some matchedCounselor => Some (userId matchedCounselor)
          | None =>
              match defaultCounselor with
              | Some d => Some (userId d)
              | None => None
              end
          end
        else None
    | None => None
    end in
  let optimalStage :=
    determineOptimalStage assignedCounselorId (Some (currentStage normalized)) in
  mkBusinessLogicResult assignedCounselorId optimalStage.

(** *** Orchestrator *)

Definition liftStore {A} (op : Store -> Completion A * Store) : M A := fun st =>
  let (c, store') := op (stStore st) in
  (c,
   mkState (stLog st) (stValidationLog st) (stFieldIssues st)
     (importedCount st) (importedWithIssuesCount st) (failedCount st)
     (stSuccessfulChunks st) (stFailedChunks st) (stTicks st) store').

Definition setLog (l : ValidationLog) : M unit := modifyLog (fun _ => l).

(** [validationLog.push(entry)] *)
Definition pushEntry (entry : ValidationLog) : M unit := fun st =>
  (Normal tt,
   mkState (stLog st) (stValidationLog st ++ [entry]) (stFieldIssues st)
     (importedCount st) (importedWithIssuesCount st) (failedCount st)
     (stSuccessfulChunks st) (stFailedChunks st) (stTicks st) (stStore st)).

Definition incrImported : M unit := fun st =>
  (Normal tt,
   mkState (stLog st) (stValidationLog st) (stFieldIssues st)
     (importedCount st + 1) (importedWithIssuesCount st) (failedCount st)
     (stSuccessfulChunks st) (stFailedChunks st) (stTicks st) (stStore st)).
Definition incrImportedWithIssues : M unit := fun st =>
  (Normal tt,
   mkState (stLog st) (stValidationLog st) (stFieldIssues st)
     (importedCount st) (importedWithIssuesCount st + 1) (failedCount st)
     (stSuccessfulChunks st) (stFailedChunks st) (stTicks st) (stStore st)).
Definition incrFailed : M unit := fun st =>
  (Normal tt,
   mkState (stLog st) (stValidationLog st) (stFieldIssues st)
     (importedCount st) (importedWithIssuesCount st) (failedCount st + 1)
     (stSuccessfulChunks st) (stFailedChunks st) (stTicks st) (stStore st)).
Definition incrSuccessfulChunks : M unit := fun st =>
  (Normal tt,
   mkState (stLog st) (stValidationLog st) (stFieldIssues st)
     (importedCount st) (importedWithIssuesCount st) (failedCount st)
     (stSuccessfulChunks st + 1) (stFailedChunks st) (stTicks st) (stStore st)).
Definition incrFailedChunks : M unit := fun st =>
  (Normal tt,
   mkState (stLog st) (stValidationLog st) (stFieldIssues st)
     (importedCount st) (importedWithIssuesCount st) (failedCount st)
     (stSuccessfulChunks st) (stFailedChunks st + 1) (stTicks st) (stStore st)).

(** The snapshot of the roster taken once per run. *)
Record Roster := mkRoster {
  managerId : option Z;
  counselors : list User;
  defaultCounselor : option User
}.

Definition isManager (u : User) : bool :=
  Js.includes (Js.toLowerCase (userName u)) "anupriya" || String.eqb (userRole u) "admin".
Definition isCounselor (u : User) : bool := String.eqb (userRole u) "counselor".
Definition isLikitha (c : User) : bool := Js.includes (Js.toLowerCase (userName c)) "likitha".

(** [await storage.getAllUsers()] *)
Definition readUsers : M (list User) := fun st => (getAllUsers (stStore st), st).

Definition fetchRoster : M Roster :=
  tryCatch
    (users ← readUsers;
     let manager := List.find isManager users in
     let managerId := orNumber (option_map userId manager) None in
     let counselors := List.filter isCounselor users in
     let defaultCounselor := List.find isLikitha counselors in
     mret (mkRoster managerId counselors defaultCounselor))
    (fun _ => mret (mkRoster None [] None)).

(** [businessLogicResult.counselorId || managerId || 1] *)
Definition actingUser (b : BusinessLogicResult) (managerId : option Z) : Z :=
  default 1 (orNumber (orNumber (counselorId b) managerId) (Some 1)).

(** [newLead.id] *)
Definition leadId (newLead : option Z) : M Z :=
  match newLead with
  | Some id => mret id
  | None => throw (typeError "Cannot read properties of undefined (reading 'id')")
  end.

(** The [if (!dryRun) { ... }] block. *)
Definition persistLead (roster : Roster) (normalized : NormalizedLead)
    (b : BusinessLogicResult) : M unit :=
  newLead ← liftStore
    (createLead
       (mkLeadInsert (uid normalized) (name normalized) (email normalized)
          (phone normalized) (country normalized) (intake normalized)
          (source normalized) (blCurrentStage b) (counselorId b) (managerId roster)
          (passportStatus normalized) (counsellors normalized)));
  (* Create remarks if present *)
  match remarks normalized with
  | Some r =>
      when (negb (String.eqb r "") && negb (String.eqb (Js.trim r) ""))
        (id ← leadId newLead;
         liftStore
           (createRemark
              (mkRemarkInsert id (actingUser b (managerId roster))
                 ("Bulk Import: " +:+ Js.trim r) true)))
  | None => mret tt
  end;;
  (* Create stage history *)
  when (negb (String.eqb (blCurrentStage b) "")
          && negb (String.eqb (blCurrentStage b) "Yet to Assign"))
    (id ← leadId newLead;
     liftStore
       (createStageHistory
          (mkStageHistoryInsert id (blCurrentStage b) (actingUser b (managerId roster))
             ("Bulk import - " +:+
                (if truthyId (counselorId b)
                 then "Assigned to counselor" else "Unassigned"))
             (leadCreatedDate normalized)))).

(** The outcome classification that closes the [try] block of a row. *)
Definition classifyRow : M unit :=
  log ← getLog;
  if (0 <? length (warnings log))%nat || (0 <? length (fixesApplied log))%nat
  then setStatus ImportedWithIssues;; incrImportedWithIssues
  else incrImported.

(** The body of the row-level [try]. *)
Definition rowBody (dryRun : bool) (roster : Roster) (rawLead : RawLead) : M unit :=
  normalized ← normalizeAndValidateLead rawLead;
  let businessLogicResult :=
    applyBusinessLogic normalized (counselors roster) (defaultCounselor roster)
      (managerId roster) in
  setNormalizedData (MergedData normalized businessLogicResult);;
  when (negb dryRun) (persistLead roster normalized businessLogicResult);;
  classifyRow.

(** The row-level [catch (error)]. *)
Definition rowCatch (error : Thrown) : M unit :=
  setStatus Failed;;
  message ← liftCompletion (errorMessage error);
  pushError (orString message "Unknown error during processing");;
  incrFailed.

(** [{ ...rawLead }] *)
Definition spread (rawLead : RawLead) : RawLead :=
  match rawLead with
  | NullLead => ObjectLead ∅
  | ObjectLead f => ObjectLead f
  end.

(** The fresh [log] object a row starts with. *)
Definition startRow (chunkStartIndex i : Z) (rawLead : RawLead) : M unit :=
  let rowNumber := chunkStartIndex + i + 1 in
  setLog (mkLog rowNumber Imported [] [] [] (spread rawLead) EmptyData).

(** One iteration of the inner [for] loop. *)
Definition processRow (dryRun : bool) (roster : Roster) (chunkStartIndex i : Z)
    (rawLead : RawLead) : M unit :=
  startRow chunkStartIndex i rawLead;;
  tryCatch (rowBody dryRun roster rawLead) rowCatch;;
  log ← getLog;
  pushEntry log.

Fixpoint forRows (dryRun : bool) (roster : Roster) (chunkStartIndex i : Z)
    (rows : list RawLead) : M unit :=
  match rows with
  | [] => mret tt
  | rawLead :: rest =>
      processRow dryRun roster chunkStartIndex i rawLead;;
      forRows dryRun roster chunkStartIndex (i + 1) rest
  end.

(** The loop of the chunk-level [catch]: every row of the chunk is
    logged as failed and counted. *)
Fixpoint failRows (chunkError : Thrown) (chunkStartIndex i : Z) (rows : list RawLead)
  : M unit :=
  match rows with
  | [] => mret tt
  | rawLead :: rest =>
      let rowNumber := chunkStartIndex + i + 1 in
      pushEntry
        (mkLog rowNumber Failed [] []
           ["Chunk processing failed: " +:+ thrownToString chunkError] rawLead NoData);;
      incrFailed;;
      failRows chunkError chunkStartIndex (i + 1) rest
  end.

Definition chunkBody (dryRun : bool) (roster : Roster) (chunkStartIndex : Z)
    (chunk : list RawLead) : M unit :=
  forRows dryRun roster chunkStartIndex 0 chunk;;
  incrSuccessfulChunks.

Definition chunkCatch (chunkStartIndex : Z) (chunk : list RawLead) (chunkError : Thrown)
  : M unit :=
  incrFailedChunks;;
  failRows chunkError chunkStartIndex 0 chunk.

Definition processChunk (dryRun : bool) (roster : Roster) (chunkSize chunkIndex : Z)
    (chunk : list RawLead) : M unit :=
  let chunkStartIndex := chunkIndex * chunkSize in
  tryCatch (chunkBody dryRun roster chunkStartIndex chunk)
    (chunkCatch chunkStartIndex chunk).

Fixpoint forChunks (dryRun : bool) (roster : Roster) (chunkSize chunkIndex : Z)
    (chunks : list (list RawLead)) : M unit :=
  match chunks with
  | [] => mret tt
  | chunk :: rest =>
      processChunk dryRun roster chunkSize chunkIndex chunk;;
      forChunks dryRun roster chunkSize (chunkIndex + 1) rest
  end.

(** The chunk-splitting loop
    [for (let i = 0; i < rawLeads.length; i += chunkSize) chunks.push(...)],
    run for at most [fuel] iterations: [None] when the loop condition
    still holds after [fuel] iterations. *)
Fixpoint splitLoop (fuel : nat) (rawLeads : list RawLead) (chunkSize i : Z)
    (chunks : list (list RawLead)) : option (list (list RawLead)) :=
  match fuel with
  | O => None
  | S fuel' =>
      if i <? Z.of_nat (length rawLeads) then
        splitLoop fuel' rawLeads chunkSize (i + chunkSize)
          (chunks ++ [Js.slice rawLeads i (i + chunkSize)])
      else Some chunks
  end.

(** *** Report generator *)

Definition statusText (s : Status) : string :=
  match s with
  | Imported => "Imported"
  | ImportedWithIssues => "ImportedWithIssues"
  | Failed => "Failed"
  end.

Definition newline : string := String (ascii_of_nat 10) EmptyString.

Definition csvRow (cells : list string) : string :=
  Js.join "," (map (fun cell => dq +:+ cell +:+ dq) cells).

Definition generateValidationLogCSV (validationLog : list ValidationLog) : string :=
  let headers := ["Row Number"; "Status"; "Fixes Applied"; "Warnings"; "Errors"] in
  let rows :=
    map (fun log =>
           [ Js.numberToString (rowNumber log);
             statusText (status log);
             Js.join "; " (fixesApplied log);
             Js.join "; " (warnings log);
             Js.join "; " (errors log) ]) validationLog in
  Js.join newline (map csvRow (headers :: rows)).

Definition hasNormalizedData (log : ValidationLog) : bool :=
  match normalizedData log with
  | NoData => false
  | _ => true
  end.

Definition generateNormalizedPayloadJSONL (validationLog : list ValidationLog) : string :=
  Js.join newline
    (map (fun log => stringifyLine (rowNumber log) (status log) (normalizedData log))
       (List.filter hasNormalizedData validationLog)).

(** *** [processBulkLeadImport] *)

Definition idleLog : ValidationLog := mkLog 0 Imported [] [] [] NullLead NoData.

Definition initialState (store : Store) : ImportState :=
  mkState idleLog [] ∅ 0 0 0 0 0 O store.

(** The [batchSummary] and the returned object. *)
Definition buildResult (rawLeads : list RawLead) (chunks : list (list RawLead))
    (startTime endTime : Z) : M ImportResult := fun st =>
  let batchSummary :=
    mkBatchSummary (Z.of_nat (length rawLeads)) (importedCount st)
      (importedWithIssuesCount st) (failedCount st) (endTime - startTime)
      (mkChunkStats (Z.of_nat (length chunks)) (stSuccessfulChunks st)
         (stFailedChunks st))
      (stFieldIssues st) in
  (Normal
     (mkImportResult true batchSummary (stValidationLog st)
        (mkReports (generateValidationLogCSV (stValidationLog st))
           (generateNormalizedPayloadJSONL (stValidationLog st)))),
   st).

(** Everything but the chunk-splitting loop, whose result is [chunks]. *)
Definition importChunks (rawLeads : list RawLead) (dryRun : bool) (chunkSize : Z)
    (chunks : list (list RawLead)) : M ImportResult :=
  startTime ← dateNow;
  roster ← fetchRoster;
  forChunks dryRun roster chunkSize 0 chunks;;
  endTime ← dateNow;
  buildResult rawLeads chunks startTime endTime.

(** The whole function. [None]: the chunk-splitting loop is still
    running after [fuel] iterations. Otherwise the completion of the call
    (a result, or a value thrown to the caller) and the store it leaves. *)
Definition processBulkLeadImport (fuel : nat) (rawLeads : list RawLead) (dryRun : bool)
    (chunkSize : Z) (store : Store) : option (Completion ImportResult * Store) :=
  match splitLoop fuel rawLeads chunkSize 0 [] with
  | None => None
  | Some chunks =>
      let (c, st) := importChunks rawLeads dryRun chunkSize chunks (initialState store) in
      Some (c, stStore st)
  end.

(** *** The route [POST /api/imports/leads/bulk] *)

(** [req.body.leads]: an array, or anything else (absent included). *)
Inductive LeadsField :=
| NotAnArray
| LeadsArray (leads : list RawLead).

Record BulkRequest := mkBulkRequest {
  reqLeads : LeadsField;
  reqDryRun : option bool;
  reqChunkSize : option Z
}.

Inductive Response :=
| Json (result : ImportResult)
| BadRequest (error : string)
| ServerError (error : string).

Definition bulkImportRoute (fuel : nat) (body : BulkRequest) (store : Store)
  : option (Response * Store) :=
  let dryRun := default false (reqDryRun body) in
  let chunkSize := default 1000 (reqChunkSize body) in
  match reqLeads body with
  | NotAnArray => Some (BadRequest "Invalid leads data", store)
  | LeadsArray leads =>
      match processBulkLeadImport fuel leads dryRun chunkSize store with
      | None => None
      | Some (Normal result, store') => Some (Json result, store')
      | Some (Throw _, store') => Some (ServerError "Internal server error", store')
      end
  end.

(** *** The route [POST /api/imports/leads/upload] *)

Definition lineFeed : ascii := ascii_of_nat 10.
Definition quote : ascii := ascii_of_nat 34.

(** [csvContent.split('\n').filter(line => line.trim())] *)
Definition csvLines (csvContent : string) : list string :=
  List.filter (fun line => negb (String.eqb (Js.trim line) ""))
    (Js.split csvContent lineFeed).

(** [line.split(',')] with every piece trimmed and then stripped of its
    double quotes ([replace] with the [g] flag): the expression that gives
    both [headers] and [values]. *)
Definition csvValues (line : string) : list string :=
  map (fun v => Js.removeAll quote (Js.trim v)) (Js.split line ",").

(** The [key] under which the column of a header is stored. *)
Definition headerKey (header : string) : string :=
  if String.eqb header "Student Name" then "studentName"
  else if String.eqb header "Lead Created Date" then "leadCreatedDate"
  else if String.eqb header "MobileNumber" then "mobileNumber"
  else if String.eqb header "Current Stage" then "currentStage"
  else if String.eqb header "Passport Status" then "passportStatus"
  else Js.toLowerCase header.

(** [lead[key] = value] on an object literal, for a string [value]. The
    key [__proto__] names the accessor of [Object.prototype], whose setter
    ignores a value that is neither an object nor [null]: no property is
    created. *)
Definition setField (key value : string) (lead : gmap string JsValue)
  : gmap string JsValue :=
  if String.eqb key "__proto__" then lead else <[key := JsString value]> lead.

(** [headers.forEach((header, i) => { lead[key] = values[i] || '' })] *)
Fixpoint csvRecord (headers : list string) (i : nat) (values : list string)
    (lead : gmap string JsValue) : gmap string JsValue :=
  match headers with
  | [] => lead
  | header :: rest =>
      csvRecord rest (S i) values
        (setField (headerKey header) (default "" (values !! i)) lead)
  end.

(** [dataLines.map((line, index) => { ... return lead })] *)
Definition csvLeads (headers dataLines : list string) : list RawLead :=
  map (fun line => ObjectLead (csvRecord headers 0 (csvValues line) ∅)) dataLines.

(** [parseInt(chunkSize) || 1000]: [NaN] and [0] are falsy. *)
Definition processChunkSize (chunkSize : string) : Z :=
  match Js.parseInt chunkSize with
  | Some n => if n =? 0 then 1000 else n
  | None => 1000
  end.

(** The uploaded file, as far as the handler looks at it: what
    [fs.readFileSync(req.file.path, 'utf-8')] gives and how the first
    [fs.unlinkSync(req.file.path)] of the handler ends (a second one, in the
    outer [catch], has its own [try] and changes nothing of the answer). *)
Record UploadedFile := mkUploadedFile {
  readFileSync : Completion string;
  unlinkSync : Completion unit
}.

(** The request after [upload.single('csvFile')]: [req.file] and the text
    fields [dryRun] and [chunkSize] of [req.body]. *)
Record UploadRequest := mkUploadRequest {
  reqFile : option UploadedFile;
  bodyDryRun : option string;
  bodyChunkSize : option string
}.

Definition uploadRoute (fuel : nat) (req : UploadRequest) (store : Store)
  : option (Response * Store) :=
  match reqFile req with
  | None => Some (BadRequest "No CSV file uploaded", store)
  | Some file =>
      let isDryRun := String.eqb (default "false" (bodyDryRun req)) "true" in
      let chunkSize := processChunkSize (default "1000" (bodyChunkSize req)) in
      match readFileSync file with
      | Throw _ => Some (ServerError "Internal server error", store)
      | Normal csvContent =>
          match csvLines csvContent with
          | [] =>
              match unlinkSync file with
              | Normal _ => Some (BadRequest "Empty CSV file", store)
              | Throw _ => Some (ServerError "Internal server error", store)
              end
          | first :: dataLines =>
              let headers := csvValues first in
              let leads := csvLeads headers dataLines in
              match processBulkLeadImport fuel leads isDryRun chunkSize store with
              | None => None
              | Some (Normal result, store') =>
                  match unlinkSync file with
                  | Normal _ => Some (Json result, store')
                  | Throw _ => Some (ServerError "Internal server error", store')
                  end
              | Some (Throw _, store') =>
                  Some (ServerError "Internal server error", store')
              end
          end
      end
  end.

End Pipeline.

Arguments ImportState Store : clear implicits.
Arguments M Store A : clear implicits.

(* ===================================================================== *)
(** ** Vocabulary of the properties *)
(* ===================================================================== *)

(** The ceiling of [n / c] for a positive [c]. *)
Definition ceilDiv (n c : Z) : Z := (n + c - 1) / c.

(** The canonical intake form: four digits, a dash, a season. *)
Definition seasons : list string := ["Spring"; "Summer"; "Fall"; "Winter"].

Definition isCanonicalIntake (s : string) : bool :=
  match Js.chars s with
  | y1 :: y2 :: y3 :: y4 :: dash :: season =>
      Js.isDigit y1 && Js.isDigit y2 && Js.isDigit y3 && Js.isDigit y4
      && Ascii.eqb dash "-" && existsb (String.eqb (Js.str season)) seasons
  | _ => false
  end.

(** Digits only, after at most one plus sign in first position. *)
Definition digitsWithLeadingPlus (s : string) : bool :=
  match Js.chars s with
  | c :: r => (Js.isDigit c || Ascii.eqb c "+") && forallb Js.isDigit r
  | [] => true
  end.

(** Digits and plus signs only, the plus signs anywhere. *)
Definition digitsAndPluses (s : string) : bool := forallb isPhoneChar (Js.chars s).

Definition digitCount (s : string) : nat := length (List.filter Js.isDigit (Js.chars s)).

Definition isThrow {A} (c : Completion A) : bool :=
  match c with
  | Normal _ => false
  | Throw _ => true
  end.

(** A thrown value whose [message] property can be read. *)
Definition readable (e : Thrown) : bool := negb (isThrow (errorMessage e)).

(** What the row-level handler appends to [log.errors]. *)
Definition caughtText (e : Thrown) : string :=
  match errorMessage e with
  | Normal m => orString m "Unknown error during processing"
  | Throw _ => ""
  end.

(** The status the classification gives to a row that completed. *)
Definition classified (log : ValidationLog) : Status :=
  if (0 <? length (warnings log))%nat || (0 <? length (fixesApplied log))%nat
  then ImportedWithIssues else Imported.

Section Traces.

Context {Store : Type} {storage : Storage Store} {host : Host}.

(** The completion of the row-level [try] block of a row, from the state
    in which the row is reached. *)
Definition tryOutcome (dryRun : bool) (roster : Roster) (chunkStartIndex i : Z)
    (rawLead : RawLead) (st : ImportState Store) : Completion unit :=
  fst (rowBody dryRun roster rawLead (snd (startRow chunkStartIndex i rawLead st))).

(** The completions of the [try] blocks of the rows of a chunk, in the
    order in which the loop reaches them; the list stops when a row
    leaves the loop abruptly. *)
Fixpoint chunkTrace (dryRun : bool) (roster : Roster) (chunkStartIndex i : Z)
    (rows : list RawLead) (st : ImportState Store) : list (Completion unit) :=
  match rows with
  | [] => []
  | rawLead :: rest =>
      tryOutcome dryRun roster chunkStartIndex i rawLead st ::
      match processRow dryRun roster chunkStartIndex i rawLead st with
      | (Normal _, st') => chunkTrace dryRun roster chunkStartIndex (i + 1) rest st'
      | (Throw _, _) => []
      end
  end.

End Traces.

(** The counts and chunk statistics of a summary, without the elapsed
    time. *)
Definition counts (b : BatchSummary) : Z * Z * Z * Z * ChunkStats :=
  (totalRows b, imported b, importedWithIssues b, failed b, chunkStats b).

(* ===================================================================== *)
(** ** Vocabulary of the proofs *)
(* ===================================================================== *)

Section Vocabulary.

Context {Store : Type} {storage : Storage Store} {host : Host}.

(** A computation that never throws. *)
Definition total {A} (m : M Store A) : Prop :=
  forall st, exists a st', m st = (Normal a, st').

(** What the processing of a row leaves alone before its outcome is
    classified: the batch counters, the log entries already written and,
    in the row's own entry, the row number, the status and the original
    data; the [errors] list only grows. *)
Definition rowFrame (st st' : ImportState Store) : Prop :=
  stValidationLog st' = stValidationLog st
  /\ importedCount st' = importedCount st
  /\ importedWithIssuesCount st' = importedWithIssuesCount st
  /\ failedCount st' = failedCount st
  /\ stSuccessfulChunks st' = stSuccessfulChunks st
  /\ stFailedChunks st' = stFailedChunks st
  /\ rowNumber (stLog st') = rowNumber (stLog st)
  /\ status (stLog st') = status (stLog st)
  /\ originalData (stLog st') = originalData (stLog st)
  /\ errors (stLog st) `prefix_of` errors (stLog st').

Definition frames {A} (m : M Store A) : Prop := forall st, rowFrame st (snd (m st)).

Definition withStore (s : Store) (st : ImportState Store) : ImportState Store :=
  mkState (stLog st) (stValidationLog st) (stFieldIssues st)
    (importedCount st) (importedWithIssuesCount st) (failedCount st)
    (stSuccessfulChunks st) (stFailedChunks st) (stTicks st) s.

(** A computation that neither reads nor writes the store. *)
Definition oblivious {A} (m : M Store A) : Prop :=
  forall st s, m (withStore s st) = (fst (m st), withStore s (snd (m st))).

(** [real] does what [dry] does and, besides, writes the store. *)
Definition simulates {A} (dry real : M Store A) : Prop :=
  forall st s, exists s',
    real (withStore s st) = (fst (dry st), withStore s' (snd (dry st))).

(** The change of the counters between two states: [ok] more rows counted
    as imported (with or without issues), [ko] more counted as failed, the
    chunk counters as they were. *)
Definition counted (st st' : ImportState Store) (ok ko : Z) : Prop :=
  importedCount st' + importedWithIssuesCount st'
  = importedCount st + importedWithIssuesCount st + ok
  /\ failedCount st' = failedCount st + ko
  /\ stSuccessfulChunks st' = stSuccessfulChunks st
  /\ stFailedChunks st' = stFailedChunks st.

(** The entry that the row-level code writes for a row whose [try] block
    completed as [c]. *)
Definition entryFor (rowNum : Z) (c : Completion unit) (entry : ValidationLog) : Prop :=
  rowNumber entry = rowNum
  /\ match c with
     | Normal _ => status entry = classified entry
     | Throw e =>
         status entry = Failed
         /\ exists before, errors entry = before ++ [caughtText e]
     end.

(** A completion that the row-level handler deals with. *)
Definition handled (c : Completion unit) : bool :=
  match c with
  | Normal _ => true
  | Throw e => readable e
  end.

Definition okCount (trace : list (Completion unit)) : Z :=
  Z.of_nat (length (List.filter (fun c => negb (isThrow c)) trace)).
Definition koCount (trace : list (Completion unit)) : Z :=
  Z.of_nat (length (List.filter isThrow trace)).

(** The entries written for a run of consecutive rows. *)
Fixpoint entriesFor (rowNum : Z) (trace : list (Completion unit))
    (entries : list ValidationLog) : Prop :=
  match trace, entries with
  | [], [] => True
  | c :: trace', entry :: entries' =>
      entryFor rowNum c entry /\ entriesFor (rowNum + 1) trace' entries'
  | _, _ => False
  end.

(** Whatever a computation throws has a readable [message]. *)
Definition throwsReadable {A} (m : M Store A) : Prop :=
  forall st e st', m st = (Throw e, st') -> readable e = true.

(** A store whose rejections have a readable [message]. *)
Definition politeStore : Prop :=
  (forall lead s e s', createLead lead s = (Throw e, s') -> readable e = true)
  /\ (forall r s e s', createRemark r s = (Throw e, s') -> readable e = true)
  /\ (forall h s e s', createStageHistory h s = (Throw e, s') -> readable e = true).

(** A store whose create operations succeed. *)
Definition reliableStore : Prop :=
  (forall lead s, exists id s', createLead lead s = (Normal (Some id), s'))
  /\ (forall r s, exists s', createRemark r s = (Normal tt, s'))
  /\ (forall h s, exists s', createStageHistory h s = (Normal tt, s')).

(** What a computation returns when it returns. *)
Definition returns {A} (m : M Store A) (Q : A -> Prop) : Prop :=
  forall st a st', m st = (Normal a, st') -> Q a.

(** The stage a raw record asks for: the trimmed [currentStage] when it
    is a string that is not blank. *)
Definition explicitStage (v : option JsValue) : option string :=
  match v with
  | Some (JsString s) =>
      if String.eqb s "" then None
      else if String.eqb (Js.trim s) "" then None
      else Some (Js.trim s)
  | _ => None
  end.

End Vocabulary.

(* ===================================================================== *)
(** ** Vocabulary of the further properties *)
(* ===================================================================== *)

Section Invariants.

Context {Store : Type} {storage : Storage Store} {host : Host}.

(** The log of the row has a warning or a fix: the test of the
    classification. *)
Definition flagged (log : ValidationLog) : bool :=
  (0 <? length (warnings log))%nat || (0 <? length (fixesApplied log))%nat.

(** A property of the state that a computation keeps, however it ends. *)
Definition keeps (I : ImportState Store -> Prop) {A} (m : M Store A) : Prop :=
  forall st, I st -> I (snd (m st)).

Definition isFlagged (st : ImportState Store) : Prop := flagged (stLog st) = true.

(** A computation that, when it returns, leaves a warning or a fix in the
    log of the row. *)
Definition flags {A} (m : M Store A) : Prop :=
  forall st a st', m st = (Normal a, st') -> isFlagged st'.

(** No row was counted as imported without issues, and no entry of the
    validation log has that status. *)
Definition noCleanImport (st : ImportState Store) : Prop :=
  importedCount st = 0
  /\ Forall (fun entry => status entry <> Imported) (stValidationLog st).

Definition statusEqb (a b : Status) : bool :=
  match a, b with
  | Imported, Imported | ImportedWithIssues, ImportedWithIssues | Failed, Failed => true
  | _, _ => false
  end.

(** The number of entries of a log that have a given status. *)
Definition countStatus (s : Status) (log : list ValidationLog) : Z :=
  Z.of_nat (length (List.filter (fun entry => statusEqb (status entry) s) log)).

(** The three counters are the numbers of entries of the validation log
    with the three statuses. *)
Definition tallied (st : ImportState Store) : Prop :=
  importedCount st = countStatus Imported (stValidationLog st)
  /\ importedWithIssuesCount st = countStatus ImportedWithIssues (stValidationLog st)
  /\ failedCount st = countStatus Failed (stValidationLog st).

(** The field names under which the pipeline files its issues. *)
Definition issueFields : list string :=
  ["uid"; "leadCreatedDate"; "intake"; "country"; "phone"; "email"].

(** An entry of [fieldIssues] that counts at least one issue and holds
    the first five of them at most. *)
Definition soundIssue (issue : FieldIssue) : Prop :=
  1 <= count issue /\ Z.of_nat (length (samples issue)) = Z.min (count issue) 5.

Definition soundIssues (issues : gmap string FieldIssue) : Prop :=
  forall fieldName issue,
    issues !! fieldName = Some issue -> In fieldName issueFields /\ soundIssue issue.

Definition issuesSound (st : ImportState Store) : Prop :=
  soundIssues (stFieldIssues st).

(** Every chunk but the last has [size] rows. *)
Definition fullChunks {A} (size : Z) (chunks : list (list A)) : Prop :=
  forall k chunk,
    chunks !! k = Some chunk -> (S k < length chunks)%nat ->
    Z.of_nat (length chunk) = size.

(** A value that the guard [v && v.trim()] can be applied to: a string,
    [null] or a falsy value, anything but a truthy value without a [trim]
    method. *)
Definition textualValue (v : JsValue) : bool :=
  match v with
  | JsOther true _ | JsOpaque => false
  | _ => true
  end.

(** A record all of whose properties are such values. *)
Definition textual (fields : gmap string JsValue) : bool :=
  forallb (fun property => textualValue (snd property)) (map_to_list fields).

(** The state with other chunk counters. *)
Definition withChunks (successful failedOnes : Z) (st : ImportState Store)
  : ImportState Store :=
  mkState (stLog st) (stValidationLog st) (stFieldIssues st)
    (importedCount st) (importedWithIssuesCount st) (failedCount st)
    successful failedOnes (stTicks st) (stStore st).

(** A computation that neither reads nor writes the chunk counters. *)
Definition chunkBlind {A} (m : M Store A) : Prop :=
  forall st a b, m (withChunks a b st) = (fst (m st), withChunks a b (snd (m st))).

(** The properties whose [trim] the validator calls whenever the property
    is truthy, in the order in which it reads them. *)
Definition guardedFields : list string :=
  ["uid"; "studentName"; "currentStage"; "intake"; "country"; "mobileNumber"; "email";
   "source"; "passportStatus"; "remarks"; "counsellors"].

(** The properties the validator may call [trim] on: [name] and [phone]
    are read when [studentName] and [mobileNumber] give nothing. *)
Definition trimmedFields : list string := guardedFields ++ ["name"; "phone"].

(** The message of the [TypeError] of [rawLead.<field>.trim()] on a value
    without [trim]. *)
Definition trimMessage (field : string) : string :=
  "rawLead." +:+ field +:+ ".trim is not a function".

(** A computation that throws from every state. *)
Definition fails {A} (m : M Store A) : Prop :=
  forall st, exists e st', m st = (Throw e, st').

(** A property value on which the guard [v && v.trim()] throws: a truthy
    value that is not a string. *)
Definition nonText (v : option JsValue) : bool :=
  match v with
  | Some (JsOther true _) | Some JsOpaque => true
  | _ => false
  end.

(** The message of the [TypeError] of a conversion that finds no
    primitive value. *)
Definition conversionMessage : string := "Cannot convert object to primitive value".

(** The rows on which the validator throws: [null], a row with a truthy
    property that is not a string where the validator calls [trim] ([name]
    and [phone] are read when [studentName] and [mobileNumber] give no
    text), and a row whose [leadCreatedDate] has no primitive value. *)
Definition rowThrows (rawLead : RawLead) : bool :=
  match rawLead with
  | NullLead => true
  | ObjectLead f =>
      nonText (f !! "uid")
      || nonText (f !! "studentName")
      || match explicitStage (f !! "studentName") with
         | None => nonText (f !! "name")
         | Some _ => false
         end
      || nonText (f !! "currentStage")
      || match f !! "leadCreatedDate" with
         | Some JsOpaque => true
         | _ => false
         end
      || nonText (f !! "intake")
      || nonText (f !! "country")
      || nonText (f !! "mobileNumber")
      || match explicitStage (f !! "mobileNumber") with
         | None => nonText (f !! "phone")
         | Some _ => false
         end
      || nonText (f !! "email")
      || nonText (f !! "source")
      || nonText (f !! "passportStatus")
      || nonText (f !! "remarks")
      || nonText (f !! "counsellors")
  end.

(** The status of the entry of a row when nothing but the validator
    throws. *)
Definition rowStatus (rawLead : RawLead) : Status :=
  if rowThrows rawLead then Failed else ImportedWithIssues.

(** The number of statuses of a list that are a given one. *)
Definition countOf (s : Status) (statuses : list Status) : Z :=
  Z.of_nat (length (List.filter (fun x => statusEqb x s) statuses)).

(** What [parseLeadDate] returns when it returns. *)
Definition parsedDate (v : JsValue) : option Z :=
  match v with
  | JsOpaque => None
  | _ =>
      match newDate v with
      | Some t => Some t
      | None =>
          match v with
          | JsString s => firstValid (commonFormats s)
          | _ => None
          end
      end
  end.

Definition given {A} (o : option A) : bool :=
  match o with
  | Some _ => true
  | None => false
  end.

(** A row for which the validator does not read the clock: it has a [uid]
    that is text, a [leadCreatedDate] that the date parsing reads, and an
    intake that is missing or holds a run of four digits ([null] is such a
    row as well: the validator throws at once). *)
Definition readsNoClock (rawLead : RawLead) : bool :=
  match rawLead with
  | NullLead => true
  | ObjectLead f =>
      given (explicitStage (f !! "uid"))
      && truthy (f !! "leadCreatedDate")
      && given (parsedDate (default JsNull (f !! "leadCreatedDate")))
      && match explicitStage (f !! "intake") with
         | Some i => given (Js.search yearPattern (Js.chars (Js.toLowerCase i)))
         | None => true
         end
  end.

(** The messages of what the validator throws on a record. *)
Definition validatorError (f : gmap string JsValue) (message : string) : Prop :=
  (exists field, In field trimmedFields /\ message = trimMessage field)
  \/ (f !! "leadCreatedDate" = Some JsOpaque /\ message = conversionMessage).

(** A computation that throws nothing but [TypeError]s with such a
    message. *)
Definition throwsOnly {A} (P : string -> Prop) (m : M Store A) : Prop :=
  forall st e st', m st = (Throw e, st') ->
    exists message, P message /\ e = typeError message.

(** The shapes of date that the second pass of the date parsing rewrites:
    [DD/MM/YYYY] and [DD-MM-YYYY] (with [sep] the separator), [YYYYMMDD],
    and the [YYYY-MM-DD] they are rewritten into. *)
Definition dayFirstDate (sep d1 d2 m1 m2 y1 y2 y3 y4 : ascii) : string :=
  Js.str [d1; d2; sep; m1; m2; sep; y1; y2; y3; y4].
Definition compactDateText (d1 d2 m1 m2 y1 y2 y3 y4 : ascii) : string :=
  Js.str [y1; y2; y3; y4; m1; m2; d1; d2].
Definition isoDateText (d1 d2 m1 m2 y1 y2 y3 y4 : ascii) : string :=
  Js.str ([y1; y2; y3; y4] ++ Js.chars "-" ++ [m1; m2] ++ Js.chars "-" ++ [d1; d2]).

(** The line feeds in a text, in the messages of a log entry and in those
    of a validation log. *)
Definition lineFeedsIn (s : string) : nat :=
  length (List.filter (fun c => Ascii.eqb c lineFeed) (Js.chars s)).
Definition entryLineFeeds (entry : ValidationLog) : nat :=
  list_sum (map lineFeedsIn (fixesApplied entry ++ warnings entry ++ errors entry)).
Definition logLineFeeds (validationLog : list ValidationLog) : nat :=
  list_sum (map entryLineFeeds validationLog).

(** The cells of the line of a log entry in the validation report. *)
Definition reportCells (log : ValidationLog) : list string :=
  [ Js.numberToString (rowNumber log);
    statusText (status log);
    Js.join "; " (fixesApplied log);
    Js.join "; " (warnings log);
    Js.join "; " (errors log) ].

(** An optional text that, when present, is trimmed and not empty. *)
Definition trimmedText (o : option string) : Prop :=
  forall s, o = Some s -> s <> "" /\ Js.trim s = s.

(** What the validator guarantees of the record it returns. *)
Definition wellFormed (n : NormalizedLead) : Prop :=
  uid n <> ""
  /\ trimmedText (Some (name n))
  /\ trimmedText (Some (currentStage n))
  /\ (forall p, phone n = Some p -> digitsAndPluses p = true)
  /\ (forall e, email n = Some e -> emailRegexTest e = true /\ Js.toLowerCase e = e)
  /\ trimmedText (email n)
  /\ trimmedText (source n)
  /\ trimmedText (passportStatus n)
  /\ trimmedText (remarks n)
  /\ trimmedText (counsellors n).

Definition textualLead (rawLead : RawLead) : bool :=
  match rawLead with
  | NullLead => false
  | ObjectLead fields => textual fields
  end.

End Invariants.

(* ===================================================================== *)
(** ** Concrete hosts, stores and batches *)
(* ===================================================================== *)

Module Examples.

(** The engine of the examples, whose texts are all of Basic Latin: what
    it makes of a text beyond Latin-1 is never looked at, and is the empty
    text. *)
Definition engine : Js.Unicode := Js.mkUnicode (fun _ => "") (fun _ _ => eq_refl).

(** A host with that engine, whose clock advances by one millisecond per
    reading and whose [Date] parser knows ISO dates of one day only. *)
Definition host : Host :=
  mkHost engine (fun n => 1700000000000 + Z.of_nat n)
    (fun v => match v with
              | JsString "2024-01-15" => Some 1705276800000
              | _ => None
              end)
    (fun _ => 2023)
    (fun _ _ _ => "{}").

Definition users : list User :=
  [mkUser 1 "Likitha" "counselor"; mkUser 2 "Anupriya" "admin"].

(** A store that keeps the inserted leads and numbers them from 1. *)
Definition memoryStore : Storage (list LeadInsert) :=
  mkStorage (list LeadInsert)
    (fun _ => Normal users)
    (fun lead s => (Normal (Some (Z.of_nat (length s) + 1)), s ++ [lead]))
    (fun _ s => (Normal tt, s))
    (fun _ s => (Normal tt, s)).

(** A store whose second insert is rejected with [undefined]
    ([Promise.reject()]). *)
Definition rejectingStore : Storage (list LeadInsert) :=
  mkStorage (list LeadInsert)
    (fun _ => Normal users)
    (fun lead s =>
       if (length s =? 1)%nat then (Throw ThrownUndefined, s)
       else (Normal (Some (Z.of_nat (length s) + 1)), s ++ [lead]))
    (fun _ s => (Normal tt, s))
    (fun _ s => (Normal tt, s)).

(** A store that rejects the lead whose uid is [U2] with an [Error]. *)
Definition pickyStore : Storage (list LeadInsert) :=
  mkStorage (list LeadInsert)
    (fun _ => Normal users)
    (fun lead s =>
       if String.eqb (liUid lead) "U2"
       then (Throw (ThrownError "Error" "duplicate key value"), s)
       else (Normal (Some (Z.of_nat (length s) + 1)), s ++ [lead]))
    (fun _ s => (Normal tt, s))
    (fun _ s => (Normal tt, s)).

(** A store that rejects the lead whose uid is [U2] with [new Error()],
    an error without message. *)
Definition silentStore : Storage (list LeadInsert) :=
  mkStorage (list LeadInsert)
    (fun _ => Normal users)
    (fun lead s =>
       if String.eqb (liUid lead) "U2"
       then (Throw (ThrownError "Error" ""), s)
       else (Normal (Some (Z.of_nat (length s) + 1)), s ++ [lead]))
    (fun _ s => (Normal tt, s))
    (fun _ s => (Normal tt, s)).

(** A store that is down: every operation throws. *)
Definition failingStore : Storage unit :=
  mkStorage unit
    (fun _ => Throw (ThrownError "Error" "connection refused"))
    (fun _ s => (Throw (ThrownError "Error" "connection refused"), s))
    (fun _ s => (Throw (ThrownError "Error" "connection refused"), s))
    (fun _ s => (Throw (ThrownError "Error" "connection refused"), s)).

Definition roster : Roster :=
  mkRoster (Some 2) [mkUser 1 "Likitha" "counselor"]
    (Some (mkUser 1 "Likitha" "counselor")).

(** A store without state, for the properties of the normalizers. *)
Definition noStore : Storage unit :=
  mkStorage unit
    (fun _ => Normal [])
    (fun _ s => (Normal None, s))
    (fun _ s => (Normal tt, s))
    (fun _ s => (Normal tt, s)).

Definition lead (uid : string) : RawLead :=
  ObjectLead
    {[ "uid" := JsString uid; "studentName" := JsString "Ann";
       "currentStage" := JsString "Applied";
       "leadCreatedDate" := JsString "2024-01-15";
       "intake" := JsString "2025-Fall"; "country" := JsString "usa";
       "phone" := JsString "+15551234567"; "email" := JsString "ann@example.com" ]}.

Definition emptyLead : RawLead := ObjectLead ∅.

(** A row without [uid], and the readings of a clock one minute later. *)
Definition anonymousLead : RawLead :=
  ObjectLead
    {[ "studentName" := JsString "Ann"; "currentStage" := JsString "Applied";
       "leadCreatedDate" := JsString "2024-01-15";
       "intake" := JsString "2025-Fall"; "country" := JsString "usa" ]}.

Definition aMinuteLater (n : nat) : Z := 1700000060000 + Z.of_nat n.

Definition batch : list RawLead := [lead "U1"; lead "U2"; lead "U3"].

(** An uploaded file: a header line, two records, the second with a
    quoted cell that holds a comma, and a blank line in between. *)
Definition csvHeader : string := "UID,Student Name,Country".
Definition csvRows : list string :=
  ["U1, Ann ,usa"; "U2," +:+ dq +:+ "Bob, Jr" +:+ dq +:+ ",India"].
Definition csvText : string :=
  csvHeader +:+ newline +:+ "U1, Ann ,usa" +:+ newline +:+ "  " +:+ newline
    +:+ "U2," +:+ dq +:+ "Bob, Jr" +:+ dq +:+ ",India" +:+ newline.
Definition upload : UploadedFile := mkUploadedFile (Normal csvText) (Normal tt).

End Examples.

(* ===================================================================== *)
(** * Proofs *)
(* ===================================================================== *)

Create HintDb frames.
Create HintDb oblivious.
Create HintDb readable.
Create HintDb total.

(* ===================================================================== *)
(** ** The monad *)
(* ===================================================================== *)

Section MonadFacts.

Context {Store : Type}.
#[local] Abbreviation M := (M Store).

Lemma bind_normal {A B} (m : M A) (f : A -> M B) st a st1 :
  m st = (Normal a, st1) -> (m ≫= f) st = f a st1.
Proof. intros E. unfold mbind, M_bind. now rewrite E. Qed.

Lemma bind_throw {A B} (m : M A) (f : A -> M B) st e st1 :
  m st = (Throw e, st1) -> (m ≫= f) st = (Throw e, st1).
Proof. intros E. unfold mbind, M_bind. now rewrite E. Qed.

Lemma bind_inv {A B} (m : M A) (f : A -> M B) st c st2 :
  (m ≫= f) st = (c, st2) ->
  (exists a st1, m st = (Normal a, st1) /\ f a st1 = (c, st2))
  \/ (exists e, m st = (Throw e, st2) /\ c = Throw e).
Proof.
  unfold mbind, M_bind. destruct (m st) as [[a|e] st1]; intros E.
  - left. eauto.
  - right. inversion E; subst. eauto.
Qed.


Lemma total_ret {A} (a : A) : total (mret a : M A).
Proof. intros st. now exists a, st. Qed.

Lemma total_bind {A B} (m : M A) (f : A -> M B) :
  total m -> (forall a, total (f a)) -> total (m ≫= f).
Proof.
  intros Hm Hf st. destruct (Hm st) as (a & st1 & E).
  rewrite (bind_normal _ _ _ _ _ E). apply Hf.
Qed.

Lemma total_tryCatch {A} (body : M A) (handler : Thrown -> M A) :
  (forall e, total (handler e)) -> total (tryCatch body handler).
Proof.
  intros Hh st. unfold tryCatch. destruct (body st) as [[a|e] st1]; eauto.
  apply Hh.
Qed.

Lemma total_when b (m : M unit) : total m -> total (when b m).
Proof. destruct b; simpl; auto using total_ret. Qed.

End MonadFacts.

(* ===================================================================== *)
(** ** The chunk-splitting loop *)
(* ===================================================================== *)

Section Splitting.

Lemma ceilDiv_bounds n c :
  1 <= c -> (ceilDiv n c - 1) * c < n <= ceilDiv n c * c.
Proof.
  intros Hc. unfold ceilDiv.
  pose proof (Z.div_mod (n + c - 1) c ltac:(lia)) as E.
  pose proof (Z.mod_pos_bound (n + c - 1) c ltac:(lia)) as B.
  nia.
Qed.

Lemma ceilDiv_zero c : 1 <= c -> ceilDiv 0 c = 0.
Proof. intros Hc. unfold ceilDiv. apply Z.div_small. lia. Qed.

Lemma ceilDiv_step n c :
  1 <= c -> 0 < n -> ceilDiv n c = 1 + ceilDiv (Z.max 0 (n - c)) c.
Proof.
  intros Hc Hn. unfold ceilDiv.
  destruct (Z_lt_le_dec n c) as [Hlt|Hge].
  - rewrite Z.max_l by lia.
    replace ((0 + c - 1) / c) with 0 by (symmetry; apply Z.div_small; lia).
    replace (n + c - 1) with (1 * c + (n - 1)) by lia.
    rewrite Z.div_add_l by lia. rewrite Z.div_small by lia. lia.
  - rewrite Z.max_r by lia.
    replace (n + c - 1) with (1 * c + (n - c + c - 1)) by lia.
    rewrite Z.div_add_l by lia. lia.
Qed.

(** Inside the array the slice is a plain take-after-drop. *)
Lemma slice_inside {A} (l : list A) i c :
  0 <= i < Z.of_nat (length l) -> 1 <= c ->
  Js.slice l i (i + c) = take (Z.to_nat c) (drop (Z.to_nat i) l).
Proof.
  intros Hi Hc. unfold Js.slice, Js.clampIndex.
  destruct (i <? 0) eqn:E1; [lia|].
  destruct (i + c <? 0) eqn:E2; [lia|].
  rewrite (Z.min_l i) by lia.
  destruct (Z_le_gt_dec (i + c) (Z.of_nat (length l))) as [Hle|Hgt].
  - rewrite Z.min_l by lia. f_equal. lia.
  - rewrite Z.min_r by lia.
    rewrite !take_ge; [reflexivity| |]; rewrite length_drop; lia.
Qed.

(** With a positive chunk size the loop ends within [length + 1]
    iterations, the chunks are non-empty, they tile the rows that are
    left and there are [ceil (remaining / chunkSize)] of them. *)
Lemma splitLoop_spec (rawLeads : list RawLead) (chunkSize : Z) :
  1 <= chunkSize ->
  forall (fuel : nat) (i : Z) (chunks : list (list RawLead)),
    0 <= i ->
    Z.max 0 (Z.of_nat (length rawLeads) - i) < Z.of_nat fuel ->
    exists new,
      splitLoop fuel rawLeads chunkSize i chunks = Some (chunks ++ new)
      /\ Z.of_nat (length new)
         = ceilDiv (Z.max 0 (Z.of_nat (length rawLeads) - i)) chunkSize
      /\ concat new = drop (Z.to_nat i) rawLeads
      /\ Forall (fun chunk => chunk <> []
                   /\ Z.of_nat (length chunk) <= chunkSize) new
      /\ (forall k chunk, new !! k = Some chunk ->
            chunk = Js.slice rawLeads (i + Z.of_nat k * chunkSize)
                      (i + Z.of_nat k * chunkSize + chunkSize)).
Proof.
  intros Hc fuel. induction fuel as [|fuel IH]; intros i chunks Hi Hfuel; [lia|].
  simpl. destruct (i <? Z.of_nat (length rawLeads)) eqn:E.
  - apply Z.ltb_lt in E.
    destruct (IH (i + chunkSize)
                (chunks ++ [Js.slice rawLeads i (i + chunkSize)])
                ltac:(lia) ltac:(lia))
      as (new & Hrun & Hlen & Hcat & Hall & Hnth).
    exists (Js.slice rawLeads i (i + chunkSize) :: new).
    rewrite Hrun, <- app_assoc. split; [reflexivity|]. repeat split.
    + rewrite (Z.max_r 0 (Z.of_nat (length rawLeads) - i)) by lia.
      rewrite (ceilDiv_step (Z.of_nat (length rawLeads) - i)) by lia.
      simpl length. rewrite Nat2Z.inj_succ, Hlen.
      replace (Z.of_nat (length rawLeads) - (i + chunkSize))
        with (Z.of_nat (length rawLeads) - i - chunkSize) by lia.
      lia.
    + simpl. rewrite Hcat, slice_inside by lia.
      rewrite <- (take_drop (Z.to_nat chunkSize) (drop (Z.to_nat i) rawLeads)) at 2.
      f_equal. rewrite drop_drop. f_equal. lia.
    + constructor; [|exact Hall]. rewrite slice_inside by lia. split.
      * intros Hnil. apply (f_equal length) in Hnil.
        rewrite length_take, length_drop in Hnil. simpl in Hnil. lia.
      * rewrite length_take. lia.
    + intros [|k] chunk Hk; simpl in Hk.
      * inversion Hk. f_equal; lia.
      * rewrite (Hnth _ _ Hk). f_equal; lia.
  - apply Z.ltb_ge in E. exists []. rewrite app_nil_r. split; [reflexivity|].
    repeat split.
    + rewrite Z.max_l by lia. now rewrite ceilDiv_zero.
    + simpl. rewrite drop_ge; [reflexivity|lia].
    + constructor.
    + intros k chunk Hk. now rewrite lookup_nil in Hk.
Qed.

(** With a chunk size that is not positive and a batch that is not empty
    the loop condition holds at every iteration: no amount of fuel is
    enough. *)
Lemma splitLoop_diverges (rawLeads : list RawLead) (chunkSize : Z) :
  chunkSize <= 0 -> rawLeads <> [] ->
  forall (fuel : nat) (i : Z) (chunks : list (list RawLead)),
    i <= 0 -> splitLoop fuel rawLeads chunkSize i chunks = None.
Proof.
  intros Hc Hne fuel. induction fuel as [|fuel IH]; intros i chunks Hi; [reflexivity|].
  simpl. destruct rawLeads as [|r rest]; [congruence|].
  destruct (i <? Z.of_nat (length (r :: rest))) eqn:E.
  - apply IH. lia.
  - apply Z.ltb_ge in E. simpl length in E. lia.
Qed.

End Splitting.

(* ===================================================================== *)
(** ** Frame of a row *)
(* ===================================================================== *)

Section FrameFacts.
Context {Store : Type} {storage : Storage Store} {host : Host}.
#[local] Abbreviation M := (M Store).

#[export] Instance rowFrame_refl : Reflexive (@rowFrame Store).
Proof. intros st. unfold rowFrame. repeat split; reflexivity. Qed.

#[export] Instance rowFrame_trans : Transitive (@rowFrame Store).
Proof.
  intros a b c (A1&A2&A3&A4&A5&A6&A7&A8&A9&A10) (B1&B2&B3&B4&B5&B6&B7&B8&B9&B10).
  unfold rowFrame. repeat split; try congruence. now transitivity (errors (stLog b)).
Qed.

Lemma frames_ret {A} (a : A) : frames (mret a : M A).
Proof. intros st. reflexivity. Qed.

Lemma frames_throw {A} e : frames (throw e : M A).
Proof. intros st. reflexivity. Qed.

Lemma frames_bind {A B} (m : M A) (f : A -> M B) :
  frames m -> (forall a, frames (f a)) -> frames (m ≫= f).
Proof.
  intros Hm Hf st. unfold mbind, M_bind. specialize (Hm st).
  destruct (m st) as [[a|e] st1]; simpl in *; [|exact Hm].
  etransitivity; [exact Hm|apply Hf].
Qed.

Lemma frames_fmap {A B} (g : A -> B) (m : M A) : frames m -> frames (g <$> m).
Proof.
  intros Hm st. unfold fmap, M_fmap. specialize (Hm st).
  destruct (m st) as [[a|e] st1]; exact Hm.
Qed.

Lemma frames_tryCatch {A} (body : M A) handler :
  frames body -> (forall e, frames (handler e)) -> frames (tryCatch body handler).
Proof.
  intros Hb Hh st. unfold tryCatch. specialize (Hb st).
  destruct (body st) as [[a|e] st1]; simpl in *; [exact Hb|].
  etransitivity; [exact Hb|apply Hh].
Qed.

Lemma frames_when b (m : M unit) : frames m -> frames (when b m).
Proof. destruct b; simpl; auto using frames_ret. Qed.

Lemma frames_pushFix msg : frames (pushFix msg : M unit).
Proof. intros st. unfold rowFrame. simpl. repeat split; reflexivity. Qed.
Lemma frames_pushWarning msg : frames (pushWarning msg : M unit).
Proof. intros st. unfold rowFrame. simpl. repeat split; reflexivity. Qed.
Lemma frames_pushError msg : frames (pushError msg : M unit).
Proof.
  intros st. unfold rowFrame. simpl. repeat split; try reflexivity.
  now apply prefix_app_r.
Qed.
Lemma frames_setNormalizedData d : frames (setNormalizedData d : M unit).
Proof. intros st. unfold rowFrame. simpl. repeat split; reflexivity. Qed.
Lemma frames_dateNow : frames (dateNow : M Z).
Proof. intros st. unfold rowFrame. simpl. repeat split; reflexivity. Qed.
Lemma frames_addFieldIssue f i : frames (addFieldIssue f i : M unit).
Proof. intros st. unfold rowFrame. simpl. repeat split; reflexivity. Qed.
Lemma frames_liftCompletion {A} (c : Completion A) : frames (liftCompletion c : M A).
Proof. intros st. reflexivity. Qed.
Lemma frames_liftStore {A} (op : Store -> Completion A * Store) : frames (liftStore op).
Proof.
  intros st. unfold liftStore. destruct (op (stStore st)).
  unfold rowFrame. simpl. repeat split; reflexivity.
Qed.

End FrameFacts.

#[export] Hint Resolve frames_ret frames_throw frames_fmap frames_when
  frames_pushFix frames_pushWarning frames_pushError frames_setNormalizedData
  frames_dateNow frames_addFieldIssue frames_liftStore frames_liftCompletion : frames.

Ltac frames_step :=
  lazymatch goal with
  | |- frames (mbind _ _) => apply frames_bind; [|intros ?]
  | |- frames (tryCatch _ _) => apply frames_tryCatch; [|intros ?]
  | |- frames (when _ _) => apply frames_when
  | |- frames (fmap _ _) => apply frames_fmap
  | |- frames (match ?x with _ => _ end) => destruct x
  | |- frames _ => solve [auto with frames]
  end.
Ltac solve_frames := cbv zeta; repeat frames_step.

Section FrameFacts2.
Context {Store : Type} {storage : Storage Store} {host : Host}.
#[local] Abbreviation M := (M Store).

Lemma frames_trimmedField path v : frames (trimmedField path v : M _).
Proof. unfold trimmedField. solve_frames. Qed.
Hint Resolve frames_trimmedField : frames.

Lemma frames_normalizeIntake i : frames (normalizeIntake i : M _).
Proof. unfold normalizeIntake. solve_frames. Qed.
Lemma frames_normalizeCountry c : frames (normalizeCountry c : M _).
Proof. unfold normalizeCountry. solve_frames. Qed.
Lemma frames_normalizePhone p : frames (normalizePhone p : M _).
Proof. unfold normalizePhone. solve_frames. Qed.
Lemma frames_normalizeEmail e : frames (normalizeEmail e : M _).
Proof. unfold normalizeEmail. solve_frames. Qed.
Lemma frames_parseLeadDate v : frames (parseLeadDate v : M _).
Proof. unfold parseLeadDate. solve_frames. Qed.
Hint Resolve frames_normalizeIntake frames_normalizeCountry frames_normalizePhone
  frames_normalizeEmail frames_parseLeadDate : frames.

Lemma frames_normalizeAndValidateLead rawLead :
  frames (normalizeAndValidateLead rawLead : M _).
Proof. unfold normalizeAndValidateLead. solve_frames. Qed.

Lemma frames_leadId newLead : frames (leadId newLead : M _).
Proof. unfold leadId. solve_frames. Qed.
Hint Resolve frames_leadId : frames.

Lemma frames_persistLead roster n b : frames (persistLead roster n b : M _).
Proof. unfold persistLead. solve_frames. Qed.

End FrameFacts2.

(* ===================================================================== *)
(** ** Computations that ignore the store *)
(* ===================================================================== *)

Section ObliviousFacts.
Context {Store : Type} {storage : Storage Store} {host : Host}.
#[local] Abbreviation M := (M Store).

Lemma withStore_id (st : ImportState Store) : withStore (stStore st) st = st.
Proof. now destruct st. Qed.

Lemma withStore_twice s s' (st : ImportState Store) :
  withStore s' (withStore s st) = withStore s' st.
Proof. reflexivity. Qed.

Lemma oblivious_keeps_store {A} (m : M A) st :
  oblivious m -> stStore (snd (m st)) = stStore st.
Proof.
  intros Hm. specialize (Hm st (stStore st)). rewrite withStore_id in Hm.
  rewrite Hm. reflexivity.
Qed.

Lemma oblivious_simulates {A} (m : M A) : oblivious m -> simulates m m.
Proof. intros Hm st s. exists s. apply Hm. Qed.

Lemma oblivious_ret {A} (a : A) : oblivious (mret a : M A).
Proof. intros st s. reflexivity. Qed.

Lemma oblivious_throw {A} e : oblivious (throw e : M A).
Proof. intros st s. reflexivity. Qed.

Lemma oblivious_bind {A B} (m : M A) (f : A -> M B) :
  oblivious m -> (forall a, oblivious (f a)) -> oblivious (m ≫= f).
Proof.
  intros Hm Hf st s. unfold mbind, M_bind. rewrite Hm.
  destruct (m st) as [[a|e] st1]; simpl; [apply Hf|reflexivity].
Qed.

Lemma oblivious_fmap {A B} (g : A -> B) (m : M A) : oblivious m -> oblivious (g <$> m).
Proof.
  intros Hm st s. unfold fmap, M_fmap. rewrite Hm.
  destruct (m st) as [[a|e] st1]; reflexivity.
Qed.

Lemma oblivious_tryCatch {A} (body : M A) handler :
  oblivious body -> (forall e, oblivious (handler e)) -> oblivious (tryCatch body handler).
Proof.
  intros Hb Hh st s. unfold tryCatch. rewrite Hb.
  destruct (body st) as [[a|e] st1]; simpl; [reflexivity|apply Hh].
Qed.

Lemma oblivious_when b (m : M unit) : oblivious m -> oblivious (when b m).
Proof. destruct b; simpl; auto using oblivious_ret. Qed.

Lemma oblivious_modifyLog f : oblivious (modifyLog f : M unit).
Proof. intros st s. reflexivity. Qed.
Lemma oblivious_pushFix msg : oblivious (pushFix msg : M unit).
Proof. apply oblivious_modifyLog. Qed.
Lemma oblivious_pushWarning msg : oblivious (pushWarning msg : M unit).
Proof. apply oblivious_modifyLog. Qed.
Lemma oblivious_pushError msg : oblivious (pushError msg : M unit).
Proof. apply oblivious_modifyLog. Qed.
Lemma oblivious_setStatus s : oblivious (setStatus s : M unit).
Proof. apply oblivious_modifyLog. Qed.
Lemma oblivious_setNormalizedData d : oblivious (setNormalizedData d : M unit).
Proof. apply oblivious_modifyLog. Qed.
Lemma oblivious_setLog l : oblivious (setLog l : M unit).
Proof. apply oblivious_modifyLog. Qed.
Lemma oblivious_getLog : oblivious (getLog : M _).
Proof. intros st s. reflexivity. Qed.
Lemma oblivious_dateNow : oblivious (dateNow : M Z).
Proof. intros st s. reflexivity. Qed.
Lemma oblivious_addFieldIssue f i : oblivious (addFieldIssue f i : M unit).
Proof. intros st s. reflexivity. Qed.
Lemma oblivious_pushEntry e : oblivious (pushEntry e : M unit).
Proof. intros st s. reflexivity. Qed.
Lemma oblivious_incrImported : oblivious (incrImported : M unit).
Proof. intros st s. reflexivity. Qed.
Lemma oblivious_incrImportedWithIssues : oblivious (incrImportedWithIssues : M unit).
Proof. intros st s. reflexivity. Qed.
Lemma oblivious_incrFailed : oblivious (incrFailed : M unit).
Proof. intros st s. reflexivity. Qed.
Lemma oblivious_incrSuccessfulChunks : oblivious (incrSuccessfulChunks : M unit).
Proof. intros st s. reflexivity. Qed.
Lemma oblivious_incrFailedChunks : oblivious (incrFailedChunks : M unit).
Proof. intros st s. reflexivity. Qed.
Lemma oblivious_liftCompletion {A} (c : Completion A) : oblivious (liftCompletion c : M A).
Proof. intros st s. reflexivity. Qed.

End ObliviousFacts.

#[export] Hint Resolve oblivious_ret oblivious_throw oblivious_pushFix oblivious_pushWarning
  oblivious_pushError oblivious_setStatus oblivious_setNormalizedData oblivious_setLog
  oblivious_getLog oblivious_dateNow oblivious_addFieldIssue oblivious_pushEntry
  oblivious_incrImported oblivious_incrImportedWithIssues oblivious_incrFailed
  oblivious_incrSuccessfulChunks oblivious_incrFailedChunks oblivious_liftCompletion
  : oblivious.

Ltac oblivious_step :=
  lazymatch goal with
  | |- oblivious (mbind _ _) => apply oblivious_bind; [|intros ?]
  | |- oblivious (tryCatch _ _) => apply oblivious_tryCatch; [|intros ?]
  | |- oblivious (when _ _) => apply oblivious_when
  | |- oblivious (fmap _ _) => apply oblivious_fmap
  | |- oblivious (match ?x with _ => _ end) => destruct x
  | |- oblivious _ => solve [auto with oblivious]
  end.
Ltac solve_oblivious := cbv zeta; repeat oblivious_step.

Section ObliviousFacts2.
Context {Store : Type} {storage : Storage Store} {host : Host}.
#[local] Abbreviation M := (M Store).

Lemma oblivious_trimmedField path v : oblivious (trimmedField path v : M _).
Proof. unfold trimmedField. solve_oblivious. Qed.
Lemma oblivious_normalizeIntake i : oblivious (normalizeIntake i : M _).
Proof. unfold normalizeIntake. solve_oblivious. Qed.
Lemma oblivious_normalizeCountry c : oblivious (normalizeCountry c : M _).
Proof. unfold normalizeCountry. solve_oblivious. Qed.
Lemma oblivious_normalizePhone p : oblivious (normalizePhone p : M _).
Proof. unfold normalizePhone. solve_oblivious. Qed.
Lemma oblivious_normalizeEmail e : oblivious (normalizeEmail e : M _).
Proof. unfold normalizeEmail. solve_oblivious. Qed.
Lemma oblivious_parseLeadDate v : oblivious (parseLeadDate v : M _).
Proof. unfold parseLeadDate. solve_oblivious. Qed.
Hint Resolve oblivious_trimmedField oblivious_normalizeIntake oblivious_normalizeCountry
  oblivious_normalizePhone oblivious_normalizeEmail oblivious_parseLeadDate : oblivious.

Lemma oblivious_normalizeAndValidateLead rawLead :
  oblivious (normalizeAndValidateLead rawLead : M _).
Proof. unfold normalizeAndValidateLead. solve_oblivious. Qed.

Lemma oblivious_classifyRow : oblivious (classifyRow : M _).
Proof. unfold classifyRow. solve_oblivious. Qed.

Lemma oblivious_rowCatch e : oblivious (rowCatch e : M _).
Proof. unfold rowCatch. solve_oblivious. Qed.

Lemma oblivious_startRow start i r : oblivious (startRow start i r : M _).
Proof. unfold startRow. solve_oblivious. Qed.

Hint Resolve oblivious_normalizeAndValidateLead oblivious_classifyRow
  oblivious_rowCatch oblivious_startRow : oblivious.

(** A dry run never touches the store. *)
Lemma oblivious_rowBody_dry roster r : oblivious (rowBody true roster r : M _).
Proof. unfold rowBody. cbn [negb when]. solve_oblivious. Qed.
Hint Resolve oblivious_rowBody_dry : oblivious.

Lemma oblivious_processRow_dry roster start i r :
  oblivious (processRow true roster start i r : M _).
Proof. unfold processRow. solve_oblivious. Qed.
Hint Resolve oblivious_processRow_dry : oblivious.

Lemma oblivious_forRows_dry roster start rows :
  forall i, oblivious (forRows true roster start i rows : M _).
Proof. induction rows; intros i; simpl; solve_oblivious; auto. Qed.

Lemma oblivious_failRows e start rows :
  forall i, oblivious (failRows e start i rows : M _).
Proof. induction rows; intros i; simpl; solve_oblivious; auto. Qed.
Hint Resolve oblivious_forRows_dry oblivious_failRows : oblivious.

Lemma oblivious_processChunk_dry roster size idx chunk :
  oblivious (processChunk true roster size idx chunk : M _).
Proof. unfold processChunk, chunkBody, chunkCatch. solve_oblivious. Qed.
Hint Resolve oblivious_processChunk_dry : oblivious.

Lemma oblivious_forChunks_dry roster size chunks :
  forall idx, oblivious (forChunks true roster size idx chunks : M _).
Proof. induction chunks; intros idx; simpl; solve_oblivious; auto. Qed.

End ObliviousFacts2.

(* ===================================================================== *)
(** ** Rows *)
(* ===================================================================== *)

Section RowFacts.
Context {Store : Type} {storage : Storage Store} {host : Host}.
#[local] Abbreviation M := (M Store).

Lemma classified_not_failed log : classified log <> Failed.
Proof. unfold classified. now destruct (_ || _). Qed.

Lemma rowBody_inv dryRun roster r (st0 : ImportState Store) c st1 :
  rowBody dryRun roster r st0 = (c, st1) ->
  (exists e, c = Throw e /\ rowFrame st0 st1)
  \/ (c = Normal tt /\ exists stp, rowFrame st0 stp /\ classifyRow stp = (Normal tt, st1)).
Proof.
  unfold rowBody. intros E.
  pose proof (frames_normalizeAndValidateLead r st0) as F1.
  apply bind_inv in E as [(n & sa & E1 & E)|(e & E1 & ->)]; rewrite E1 in F1; simpl in F1;
    [|left; eauto].
  pose proof (frames_setNormalizedData
                (MergedData n (applyBusinessLogic n (counselors roster)
                                 (defaultCounselor roster) (managerId roster))) sa) as F2.
  cbv zeta in E.
  apply bind_inv in E as [([] & sb & E2 & E)|(e & E2 & ->)]; rewrite E2 in F2; simpl in F2;
    [|left; eexists; split; [reflexivity|now transitivity sa]].
  assert (frames (when (negb dryRun)
                    (persistLead roster n
                       (applyBusinessLogic n (counselors roster)
                          (defaultCounselor roster) (managerId roster))) : M unit)) as F3
    by (apply frames_when, frames_persistLead).
  specialize (F3 sb).
  apply bind_inv in E as [([] & sc & E3 & E)|(e & E3 & ->)]; rewrite E3 in F3; simpl in F3.
  - right. assert (rowFrame st0 sc) as F by (transitivity sa; [|transitivity sb]; assumption).
    destruct c as [[]|e].
    + split; [reflexivity|]. eauto.
    + exfalso. revert E. unfold classifyRow, mbind, M_bind. simpl.
      destruct (_ || _); simpl; discriminate.
  - left. eexists. split; [reflexivity|]. transitivity sa; [|transitivity sb]; assumption.
Qed.

Lemma classifyRow_spec (stp : ImportState Store) st1 :
  classifyRow stp = (Normal tt, st1) ->
  status (stLog stp) = Imported ->
  status (stLog st1) = classified (stLog st1)
  /\ rowNumber (stLog st1) = rowNumber (stLog stp)
  /\ errors (stLog st1) = errors (stLog stp)
  /\ originalData (stLog st1) = originalData (stLog stp)
  /\ stValidationLog st1 = stValidationLog stp
  /\ counted stp st1 1 0.
Proof.
  unfold classifyRow, mbind, M_bind, classified, counted. simpl. intros E S.
  destruct ((0 <? length (warnings (stLog stp)))%nat
            || (0 <? length (fixesApplied (stLog stp)))%nat) eqn:C;
    simpl in E; inversion E; subst; clear E; simpl; rewrite C;
    repeat split; try assumption; try reflexivity; lia.
Qed.

(** The row whose [try] block completes is logged with the status of the
    classification and counted once as imported. *)
Lemma processRow_normal dryRun roster start i r (st : ImportState Store) :
  tryOutcome dryRun roster start i r st = Normal tt ->
  exists st' entry,
    processRow dryRun roster start i r st = (Normal tt, st')
    /\ stValidationLog st' = stValidationLog st ++ [entry]
    /\ entryFor (start + i + 1) (Normal tt) entry
    /\ originalData entry = spread r
    /\ counted st st' 1 0.
Proof.
  unfold tryOutcome, processRow. intros T.
  destruct (startRow start i r st) as [c0 st0] eqn:E0.
  assert (c0 = Normal tt /\ stLog st0 = mkLog (start + i + 1) Imported [] [] [] (spread r) EmptyData
          /\ stValidationLog st0 = stValidationLog st /\ counted st st0 0 0) as (-> & L0 & V0 & C0).
  { unfold startRow, setLog, modifyLog in E0. inversion E0; subst. simpl.
    unfold counted. simpl. repeat split; lia. }
  simpl in T. destruct (rowBody dryRun roster r st0) as [c st1] eqn:E1. simpl in T. subst c.
  apply rowBody_inv in E1 as E1'. destruct E1' as [(e & He & _)|(_ & stp & F & Ecl)];
    [discriminate|].
  destruct F as (F1&F2&F3&F4&F5&F6&F7&F8&F9&F10).
  apply classifyRow_spec in Ecl as (S1 & S2 & S3 & S4 & S5 & S6);
    [|rewrite F8, L0; reflexivity].
  eexists _, (stLog st1). split.
  { rewrite (bind_normal _ _ _ _ _ E0).
    erewrite bind_normal; [|unfold tryCatch; rewrite E1; reflexivity].
    reflexivity. }
  simpl. unfold entryFor, counted in *. rewrite L0 in *. simpl in *.
  repeat split; try congruence; try lia.
Qed.

Lemma rowCatch_readable e (st1 : ImportState Store) :
  readable e = true ->
  exists st2,
    rowCatch e st1 = (Normal tt, st2)
    /\ status (stLog st2) = Failed
    /\ errors (stLog st2) = errors (stLog st1) ++ [caughtText e]
    /\ rowNumber (stLog st2) = rowNumber (stLog st1)
    /\ originalData (stLog st2) = originalData (stLog st1)
    /\ stValidationLog st2 = stValidationLog st1
    /\ failedCount st2 = failedCount st1 + 1
    /\ importedCount st2 = importedCount st1
    /\ importedWithIssuesCount st2 = importedWithIssuesCount st1
    /\ stSuccessfulChunks st2 = stSuccessfulChunks st1
    /\ stFailedChunks st2 = stFailedChunks st1.
Proof.
  unfold readable, caughtText, rowCatch, mbind, M_bind, liftCompletion. simpl.
  destruct (errorMessage e) as [m|e'] eqn:Em; simpl; [|discriminate]. intros _.
  eexists. split; [reflexivity|]. simpl. repeat split.
Qed.

Lemma rowCatch_unreadable e (st1 : ImportState Store) :
  readable e = false ->
  exists e' st2,
    rowCatch e st1 = (Throw e', st2)
    /\ errorMessage e = Throw e'
    /\ stValidationLog st2 = stValidationLog st1
    /\ counted st1 st2 0 0.
Proof.
  unfold readable, rowCatch, mbind, M_bind, liftCompletion, counted. simpl.
  destruct (errorMessage e) as [m|e'] eqn:Em; simpl; [discriminate|]. intros _.
  eexists _, _. split; [reflexivity|]. simpl. repeat split; lia.
Qed.

(** The row whose [try] block throws a value with a readable [message]
    is logged as failed, with the text of the handler, and counted once
    as failed. *)
Lemma processRow_caught dryRun roster start i r (st : ImportState Store) e :
  tryOutcome dryRun roster start i r st = Throw e ->
  readable e = true ->
  exists st' entry,
    processRow dryRun roster start i r st = (Normal tt, st')
    /\ stValidationLog st' = stValidationLog st ++ [entry]
    /\ entryFor (start + i + 1) (Throw e) entry
    /\ originalData entry = spread r
    /\ counted st st' 0 1.
Proof.
  unfold tryOutcome, processRow. intros T R.
  destruct (startRow start i r st) as [c0 st0] eqn:E0.
  assert (c0 = Normal tt /\ stLog st0 = mkLog (start + i + 1) Imported [] [] [] (spread r) EmptyData
          /\ stValidationLog st0 = stValidationLog st /\ counted st st0 0 0) as (-> & L0 & V0 & C0).
  { unfold startRow, setLog, modifyLog in E0. inversion E0; subst. simpl.
    unfold counted. simpl. repeat split; lia. }
  simpl in T. destruct (rowBody dryRun roster r st0) as [c st1] eqn:E1. simpl in T. subst c.
  apply rowBody_inv in E1 as E1'. destruct E1' as [(e0 & He & F)|(? & _)];
    [|discriminate].
  destruct F as (F1&F2&F3&F4&F5&F6&F7&F8&F9&F10).
  destruct (rowCatch_readable e st1 R)
    as (st2 & Ec & S1 & S2 & S3 & S4 & S5 & S6 & S7 & S8 & S9 & S10).
  eexists _, (stLog st2). split.
  { rewrite (bind_normal _ _ _ _ _ E0).
    erewrite bind_normal; [|unfold tryCatch; rewrite E1; exact Ec].
    reflexivity. }
  simpl. unfold entryFor, counted in *. rewrite L0 in *. simpl in *.
  repeat split; try congruence; try lia. eauto.
Qed.

(** The row whose [try] block throws [null] or [undefined] leaves the
    loop: the handler itself throws, nothing is logged or counted. *)
Lemma processRow_escapes dryRun roster start i r (st : ImportState Store) e :
  tryOutcome dryRun roster start i r st = Throw e ->
  readable e = false ->
  exists e' st',
    processRow dryRun roster start i r st = (Throw e', st')
    /\ errorMessage e = Throw e'
    /\ stValidationLog st' = stValidationLog st
    /\ counted st st' 0 0.
Proof.
  unfold tryOutcome, processRow. intros T R.
  destruct (startRow start i r st) as [c0 st0] eqn:E0.
  assert (c0 = Normal tt /\ stValidationLog st0 = stValidationLog st /\ counted st st0 0 0)
    as (-> & V0 & C0).
  { unfold startRow, setLog, modifyLog in E0. inversion E0; subst. simpl.
    unfold counted. simpl. repeat split; lia. }
  simpl in T. destruct (rowBody dryRun roster r st0) as [c st1] eqn:E1. simpl in T. subst c.
  apply rowBody_inv in E1 as E1'. destruct E1' as [(e0 & He & F)|(? & _)];
    [|discriminate].
  destruct F as (F1&F2&F3&F4&F5&F6&F7&F8&F9&F10).
  destruct (rowCatch_unreadable e st1 R) as (e' & st2 & Ec & Em & S1 & S2).
  exists e', st2. split.
  { rewrite (bind_normal _ _ _ _ _ E0).
    erewrite bind_throw; [reflexivity|unfold tryCatch; rewrite E1; exact Ec]. }
  unfold counted in *. repeat split; try congruence; lia.
Qed.

End RowFacts.

(* ===================================================================== *)
(** ** Thrown values *)
(* ===================================================================== *)

Section ThrowFacts.
Context {Store : Type} {storage : Storage Store} {host : Host}.
#[local] Abbreviation M := (M Store).

Lemma throwsReadable_total {A} (m : M A) : total m -> throwsReadable m.
Proof. intros Hm st e st' E. destruct (Hm st) as (a & s & E'). congruence. Qed.

Lemma throwsReadable_ret {A} (a : A) : throwsReadable (mret a : M A).
Proof. intros st e st' E. discriminate. Qed.

Lemma throwsReadable_throw {A} n m : throwsReadable (throw (ThrownError n m) : M A).
Proof. intros st e st' E. inversion E. reflexivity. Qed.

Lemma throwsReadable_typeError {A} m : throwsReadable (throw (typeError m) : M A).
Proof. apply throwsReadable_throw. Qed.

Lemma throwsReadable_bind {A B} (m : M A) (f : A -> M B) :
  throwsReadable m -> (forall a, throwsReadable (f a)) -> throwsReadable (m ≫= f).
Proof.
  intros Hm Hf st e st' E.
  apply bind_inv in E as [(a & s1 & E1 & E2)|(e' & E1 & E2)].
  - eapply Hf; eauto.
  - inversion E2; subst. eapply Hm; eauto.
Qed.

Lemma throwsReadable_fmap {A B} (g : A -> B) (m : M A) :
  throwsReadable m -> throwsReadable (g <$> m).
Proof.
  intros Hm st e st' E. unfold fmap, M_fmap in E.
  destruct (m st) as [[a|e'] s1] eqn:E1; inversion E; subst. eapply Hm; eauto.
Qed.

Lemma throwsReadable_tryCatch {A} (body : M A) handler :
  (forall e, throwsReadable (handler e)) -> throwsReadable (tryCatch body handler).
Proof.
  intros Hh st e st' E. unfold tryCatch in E.
  destruct (body st) as [[a|e'] s1]; [discriminate|]. eapply Hh; eauto.
Qed.

Lemma throwsReadable_when b (m : M unit) : throwsReadable m -> throwsReadable (when b m).
Proof. destruct b; simpl; auto using throwsReadable_ret. Qed.

Lemma total_modifyLog f : total (modifyLog f : M unit).
Proof. intros st. eexists _, _. reflexivity. Qed.
Lemma total_pushFix msg : total (pushFix msg : M unit).
Proof. apply total_modifyLog. Qed.
Lemma total_pushWarning msg : total (pushWarning msg : M unit).
Proof. apply total_modifyLog. Qed.
Lemma total_pushError msg : total (pushError msg : M unit).
Proof. apply total_modifyLog. Qed.
Lemma total_setStatus s : total (setStatus s : M unit).
Proof. apply total_modifyLog. Qed.
Lemma total_setNormalizedData d : total (setNormalizedData d : M unit).
Proof. apply total_modifyLog. Qed.
Lemma total_setLog l : total (setLog l : M unit).
Proof. apply total_modifyLog. Qed.
Lemma total_getLog : total (getLog : M _).
Proof. intros st. eexists _, _. reflexivity. Qed.
Lemma total_dateNow : total (dateNow : M Z).
Proof. intros st. eexists _, _. reflexivity. Qed.
Lemma total_addFieldIssue f i : total (addFieldIssue f i : M unit).
Proof. intros st. eexists _, _. reflexivity. Qed.
Lemma total_pushEntry e : total (pushEntry e : M unit).
Proof. intros st. eexists _, _. reflexivity. Qed.
Lemma total_incrImported : total (incrImported : M unit).
Proof. intros st. eexists _, _. reflexivity. Qed.
Lemma total_incrImportedWithIssues : total (incrImportedWithIssues : M unit).
Proof. intros st. eexists _, _. reflexivity. Qed.
Lemma total_incrFailed : total (incrFailed : M unit).
Proof. intros st. eexists _, _. reflexivity. Qed.
Lemma total_incrSuccessfulChunks : total (incrSuccessfulChunks : M unit).
Proof. intros st. eexists _, _. reflexivity. Qed.
Lemma total_incrFailedChunks : total (incrFailedChunks : M unit).
Proof. intros st. eexists _, _. reflexivity. Qed.

Lemma throwsReadable_valueToString v :
  throwsReadable (liftCompletion (valueToString v) : M _).
Proof. intros st e st' E. destruct v; inversion E; reflexivity. Qed.

End ThrowFacts.

#[export] Hint Resolve total_ret total_when total_pushFix total_pushWarning total_pushError
  total_setStatus total_setNormalizedData total_setLog total_getLog total_dateNow
  total_addFieldIssue total_pushEntry total_incrImported total_incrImportedWithIssues
  total_incrFailed total_incrSuccessfulChunks total_incrFailedChunks : total.

Ltac total_step :=
  lazymatch goal with
  | |- total (mbind _ _) => apply total_bind; [|intros ?]
  | |- total (tryCatch _ _) => apply total_tryCatch; intros ?
  | |- total (when _ _) => apply total_when
  | |- total (match ?x with _ => _ end) => destruct x
  | |- total _ => solve [auto with total]
  end.
Ltac solve_total := cbv zeta; repeat total_step.

#[export] Hint Resolve throwsReadable_ret throwsReadable_throw throwsReadable_typeError
  throwsReadable_fmap throwsReadable_when throwsReadable_valueToString : readable.
#[export] Hint Extern 5 (throwsReadable _) =>
  (apply throwsReadable_total; solve [auto with total]) : readable.

Ltac readable_step :=
  lazymatch goal with
  | |- throwsReadable (mbind _ _) => apply throwsReadable_bind; [|intros ?]
  | |- throwsReadable (tryCatch _ _) => apply throwsReadable_tryCatch; intros ?
  | |- throwsReadable (when _ _) => apply throwsReadable_when
  | |- throwsReadable (fmap _ _) => apply throwsReadable_fmap
  | |- throwsReadable (match ?x with _ => _ end) => destruct x
  | |- throwsReadable _ => solve [auto with readable]
  end.
Ltac solve_readable := cbv zeta; repeat readable_step.

Section ThrowFacts2.
Context {Store : Type} {storage : Storage Store} {host : Host}.
#[local] Abbreviation M := (M Store).

Lemma throwsReadable_trimmedField path v : throwsReadable (trimmedField path v : M _).
Proof. unfold trimmedField. solve_readable. Qed.
Lemma throwsReadable_normalizeIntake i : throwsReadable (normalizeIntake i : M _).
Proof. unfold normalizeIntake. solve_readable. Qed.
Lemma throwsReadable_normalizeCountry c : throwsReadable (normalizeCountry c : M _).
Proof. unfold normalizeCountry. solve_readable. Qed.
Lemma throwsReadable_normalizePhone p : throwsReadable (normalizePhone p : M _).
Proof. unfold normalizePhone. solve_readable. Qed.
Lemma throwsReadable_normalizeEmail e : throwsReadable (normalizeEmail e : M _).
Proof. unfold normalizeEmail. solve_readable. Qed.
Hint Resolve throwsReadable_trimmedField throwsReadable_normalizeIntake
  throwsReadable_normalizeCountry throwsReadable_normalizePhone
  throwsReadable_normalizeEmail : readable.

(** The validator only throws [TypeError]s. *)
Lemma throwsReadable_normalizeAndValidateLead rawLead :
  throwsReadable (normalizeAndValidateLead rawLead : M _).
Proof. unfold normalizeAndValidateLead. solve_readable. Qed.

Lemma total_classifyRow : total (classifyRow : M _).
Proof. unfold classifyRow. solve_total. Qed.
Hint Resolve total_classifyRow : total.

Lemma throwsReadable_rowBody_dry roster r :
  throwsReadable (rowBody true roster r : M _).
Proof.
  unfold rowBody. cbn [negb when].
  pose proof throwsReadable_normalizeAndValidateLead. solve_readable.
Qed.


Lemma throwsReadable_liftStore {A} (op : Store -> Completion A * Store) :
  (forall s e s', op s = (Throw e, s') -> readable e = true) ->
  throwsReadable (liftStore op).
Proof.
  intros Hop st e st' E. unfold liftStore in E.
  destruct (op (stStore st)) as [c s'] eqn:Eo. inversion E; subst. eapply Hop; eauto.
Qed.

Lemma throwsReadable_leadId newLead : throwsReadable (leadId newLead : M _).
Proof. unfold leadId. solve_readable. Qed.
Hint Resolve throwsReadable_leadId : readable.

Lemma throwsReadable_persistLead roster n b :
  politeStore -> throwsReadable (persistLead roster n b : M _).
Proof.
  intros (P1 & P2 & P3). unfold persistLead.
  assert (forall l, throwsReadable (liftStore (createLead l))) as L1
    by (intros; apply throwsReadable_liftStore; eauto).
  assert (forall l, throwsReadable (liftStore (createRemark l))) as L2
    by (intros; apply throwsReadable_liftStore; eauto).
  assert (forall l, throwsReadable (liftStore (createStageHistory l))) as L3
    by (intros; apply throwsReadable_liftStore; eauto).
  solve_readable.
Qed.

Lemma throwsReadable_rowBody dryRun roster r :
  dryRun = true \/ politeStore ->
  throwsReadable (rowBody dryRun roster r : M _).
Proof.
  intros [->|P]; [apply throwsReadable_rowBody_dry|].
  unfold rowBody.
  pose proof throwsReadable_normalizeAndValidateLead.
  pose proof (fun n b => throwsReadable_persistLead roster n b P).
  solve_readable.
Qed.

End ThrowFacts2.

(* ===================================================================== *)
(** ** Chunks *)
(* ===================================================================== *)

Section ChunkFacts.
Context {Store : Type} {storage : Storage Store} {host : Host}.
#[local] Abbreviation M := (M Store).

Lemma counted_refl (st : ImportState Store) : counted st st 0 0.
Proof. unfold counted. lia. Qed.

Lemma counted_trans (a b c : ImportState Store) x y x' y' :
  counted a b x y -> counted b c x' y' -> counted a c (x + x') (y + y').
Proof. unfold counted. lia. Qed.

Lemma okCount_cons c trace :
  okCount (c :: trace) = (if isThrow c then 0 else 1) + okCount trace.
Proof. unfold okCount. simpl. destruct (isThrow c); simpl; lia. Qed.

Lemma koCount_cons c trace :
  koCount (c :: trace) = (if isThrow c then 1 else 0) + koCount trace.
Proof. unfold koCount. simpl. destruct (isThrow c); simpl; lia. Qed.

Lemma okCount_koCount trace : okCount trace + koCount trace = Z.of_nat (length trace).
Proof.
  induction trace as [|c t IH]; [reflexivity|].
  rewrite okCount_cons, koCount_cons. simpl length. destruct (isThrow c); lia.
Qed.

Lemma entriesFor_length rowNum trace entries :
  entriesFor rowNum trace entries -> length entries = length trace.
Proof.
  revert rowNum entries. induction trace as [|c t IH]; intros n [|e es] H;
    simpl in *; try tauto. destruct H as [_ H]. f_equal. eauto.
Qed.

Lemma entriesFor_lookup rowNum trace entries j c :
  entriesFor rowNum trace entries -> trace !! j = Some c ->
  exists entry, entries !! j = Some entry /\ entryFor (rowNum + Z.of_nat j) c entry.
Proof.
  revert rowNum entries j. induction trace as [|c0 t IH]; intros n [|e es] j H L;
    simpl in *; try tauto; try (now rewrite lookup_nil in L).
  destruct H as [H0 H]. destruct j as [|j]; simpl in *.
  - inversion L; subst. exists e. split; [reflexivity|]. now rewrite Z.add_0_r.
  - destruct (IH _ _ _ H L) as (entry & L' & Hf). exists entry. split; [exact L'|].
    replace (n + Z.of_nat (S j)) with (n + 1 + Z.of_nat j) by lia. exact Hf.
Qed.

(** The inner loop when every thrown value is one the row-level handler
    deals with: it completes, writes one entry per row, in order, and
    counts each row once. *)
Lemma forRows_handled dryRun roster start rows :
  forall i (st : ImportState Store),
    forallb handled (chunkTrace dryRun roster start i rows st) = true ->
    exists st' entries,
      forRows dryRun roster start i rows st = (Normal tt, st')
      /\ stValidationLog st' = stValidationLog st ++ entries
      /\ length (chunkTrace dryRun roster start i rows st) = length rows
      /\ entriesFor (start + i + 1) (chunkTrace dryRun roster start i rows st) entries
      /\ counted st st' (okCount (chunkTrace dryRun roster start i rows st))
           (koCount (chunkTrace dryRun roster start i rows st)).
Proof.
  induction rows as [|r rest IH]; intros i st Hh.
  - exists st, []. simpl. rewrite app_nil_r.
    split; [reflexivity|]. split; [reflexivity|]. split; [reflexivity|].
    split; [exact I|]. apply counted_refl.
  - simpl in Hh |- *. apply andb_true_iff in Hh as [H1 H2].
    destruct (tryOutcome dryRun roster start i r st) as [[]|e] eqn:T.
    + destruct (processRow_normal _ _ _ _ _ _ T) as (st1 & entry & E1 & V1 & F1 & _ & C1).
      rewrite E1 in H2 |- *. destruct (IH (i + 1) st1 H2) as (st' & entries & E & V & L & F & C).
      exists st', (entry :: entries). rewrite (bind_normal _ _ _ _ _ E1).
      split; [exact E|]. split; [rewrite V, V1, <- app_assoc; reflexivity|].
      split; [simpl; congruence|]. split.
      * simpl. split; [exact F1|].
        replace (start + i + 1 + 1) with (start + (i + 1) + 1) by lia. exact F.
      * rewrite okCount_cons, koCount_cons. simpl. eapply counted_trans; eauto.
    + simpl in H1.
      destruct (processRow_caught _ _ _ _ _ _ _ T H1) as (st1 & entry & E1 & V1 & F1 & _ & C1).
      rewrite E1 in H2 |- *. destruct (IH (i + 1) st1 H2) as (st' & entries & E & V & L & F & C).
      exists st', (entry :: entries). rewrite (bind_normal _ _ _ _ _ E1).
      split; [exact E|]. split; [rewrite V, V1, <- app_assoc; reflexivity|].
      split; [simpl; congruence|]. split.
      * simpl. split; [exact F1|].
        replace (start + i + 1 + 1) with (start + (i + 1) + 1) by lia. exact F.
      * rewrite okCount_cons, koCount_cons. simpl. eapply counted_trans; eauto.
Qed.

(** When whatever the [try] block of a row throws is readable, every
    trace is handled. *)
Lemma chunkTrace_handled dryRun roster start rows :
  (forall r, throwsReadable (rowBody dryRun roster r : M _)) ->
  forall i (st : ImportState Store),
    forallb handled (chunkTrace dryRun roster start i rows st) = true.
Proof.
  intros Hr. induction rows as [|r rest IH]; intros i st; [reflexivity|].
  simpl. apply andb_true_iff. split.
  - unfold tryOutcome.
    destruct (rowBody dryRun roster r (snd (startRow start i r st))) as [[[]|e] s1] eqn:E;
      simpl; [reflexivity|]. eapply Hr; eauto.
  - destruct (processRow dryRun roster start i r st) as [[[]|e] s1]; [apply IH|reflexivity].
Qed.

(** The loop of the chunk-level handler. *)
Lemma failRows_spec e start rows :
  forall i (st : ImportState Store),
    exists st' entries,
      failRows e start i rows st = (Normal tt, st')
      /\ stValidationLog st' = stValidationLog st ++ entries
      /\ length entries = length rows
      /\ Forall (fun entry => status entry = Failed) entries
      /\ importedCount st' = importedCount st
      /\ importedWithIssuesCount st' = importedWithIssuesCount st
      /\ failedCount st' = failedCount st + Z.of_nat (length rows)
      /\ stSuccessfulChunks st' = stSuccessfulChunks st
      /\ stFailedChunks st' = stFailedChunks st
      /\ stStore st' = stStore st.
Proof.
  induction rows as [|r rest IH]; intros i st.
  - exists st, []. simpl. rewrite app_nil_r. repeat split; try reflexivity; try lia.
    constructor.
  - simpl. unfold mbind, M_bind. simpl.
    match goal with |- context [failRows e start (i + 1) rest ?s] =>
      destruct (IH (i + 1) s) as (st' & entries & E & V & L & F & C1 & C2 & C3 & C4 & C5 & C6)
    end.
    eexists st', (_ :: entries). rewrite E. split; [reflexivity|].
    simpl in *. rewrite V, <- app_assoc. split; [reflexivity|].
    repeat split; try congruence; try lia.
    constructor; [reflexivity|exact F].
Qed.

Lemma total_failRows e start rows i : total (failRows e start i rows : M _).
Proof.
  intros st. destruct (failRows_spec e start rows i st) as (st' & entries & E & _).
  eauto.
Qed.

(** The chunk-level [try]/[catch] never throws. *)
Lemma total_processChunk dryRun roster size idx chunk :
  total (processChunk dryRun roster size idx chunk : M _).
Proof.
  unfold processChunk. apply total_tryCatch. intros e. unfold chunkCatch.
  apply total_bind; [apply total_incrFailedChunks|]. intros _. apply total_failRows.
Qed.

Lemma total_forChunks dryRun roster size chunks :
  forall idx, total (forChunks dryRun roster size idx chunks : M _).
Proof.
  induction chunks as [|c rest IH]; intros idx; simpl; [apply total_ret|].
  apply total_bind; [apply total_processChunk|]. intros _. apply IH.
Qed.

(** The roster lookup never throws: a failing store leaves the defaults. *)
Lemma total_fetchRoster : total (fetchRoster : M _).
Proof. unfold fetchRoster. apply total_tryCatch. intros e. apply total_ret. Qed.

(** A chunk whose rows are all handled counts as successful. *)
Lemma processChunk_handled dryRun roster size idx chunk (st : ImportState Store) :
  forallb handled (chunkTrace dryRun roster (idx * size) 0 chunk st) = true ->
  exists st' entries,
    processChunk dryRun roster size idx chunk st = (Normal tt, st')
    /\ stValidationLog st' = stValidationLog st ++ entries
    /\ length (chunkTrace dryRun roster (idx * size) 0 chunk st) = length chunk
    /\ entriesFor (idx * size + 1) (chunkTrace dryRun roster (idx * size) 0 chunk st) entries
    /\ importedCount st' + importedWithIssuesCount st'
       = importedCount st + importedWithIssuesCount st
         + okCount (chunkTrace dryRun roster (idx * size) 0 chunk st)
    /\ failedCount st'
       = failedCount st + koCount (chunkTrace dryRun roster (idx * size) 0 chunk st)
    /\ stSuccessfulChunks st' = stSuccessfulChunks st + 1
    /\ stFailedChunks st' = stFailedChunks st.
Proof.
  intros Hh.
  destruct (forRows_handled dryRun roster (idx * size) chunk 0 st Hh)
    as (st1 & entries & E & V & L & F & C1 & C2 & C3 & C4).
  eexists _, entries. split.
  { unfold processChunk, tryCatch, chunkBody. rewrite (bind_normal _ _ _ _ _ E).
    reflexivity. }
  simpl. rewrite Z.add_0_r in F. repeat split; try assumption; lia.
Qed.

End ChunkFacts.

(* ===================================================================== *)
(** ** The batch *)
(* ===================================================================== *)

Section BatchFacts.
Context {Store : Type} {storage : Storage Store} {host : Host}.
#[local] Abbreviation M := (M Store).

(** The roster lookup leaves the state as it is. *)
Lemma fetchRoster_state (st : ImportState Store) :
  exists roster, fetchRoster st = (Normal roster, st).
Proof.
  unfold fetchRoster, tryCatch, mbind, M_bind, readUsers.
  destruct (getAllUsers (stStore st)); eexists; reflexivity.
Qed.

(** The function outside of the chunk-splitting loop: two readings of
    the clock around the roster lookup and the loop over the chunks, none
    of which throws, and the result built from the final state. *)
Lemma importChunks_spec rawLeads dryRun size chunks (st0 : ImportState Store) :
  exists roster st3,
    fetchRoster (snd (dateNow st0)) = (Normal roster, snd (dateNow st0))
    /\ forChunks dryRun roster size 0 chunks (snd (dateNow st0)) = (Normal tt, st3)
    /\ importChunks rawLeads dryRun size chunks st0
       = buildResult rawLeads chunks (clock (stTicks st0)) (clock (stTicks st3))
           (snd (dateNow st3)).
Proof.
  destruct (fetchRoster_state (snd (dateNow st0))) as (roster & Er).
  destruct (total_forChunks dryRun roster size chunks 0 (snd (dateNow st0)))
    as ([] & st3 & Ec).
  exists roster, st3. split; [exact Er|]. split; [exact Ec|].
  unfold importChunks.
  rewrite (bind_normal _ _ st0 (clock (stTicks st0)) (snd (dateNow st0)) eq_refl).
  rewrite (bind_normal _ _ _ _ _ Er).
  rewrite (bind_normal _ _ _ _ _ Ec).
  rewrite (bind_normal _ _ st3 (clock (stTicks st3)) (snd (dateNow st3)) eq_refl).
  reflexivity.
Qed.

(** The loop over the chunks when the row-level handler deals with
    everything the rows throw: each row is counted once, each chunk is
    successful. *)
Lemma forChunks_handled dryRun roster size chunks :
  (forall r, throwsReadable (rowBody dryRun roster r : M _)) ->
  forall idx (st : ImportState Store),
    exists st',
      forChunks dryRun roster size idx chunks st = (Normal tt, st')
      /\ importedCount st' + importedWithIssuesCount st' + failedCount st'
         = importedCount st + importedWithIssuesCount st + failedCount st
           + Z.of_nat (length (concat chunks))
      /\ Z.of_nat (length (stValidationLog st'))
         = Z.of_nat (length (stValidationLog st)) + Z.of_nat (length (concat chunks))
      /\ stSuccessfulChunks st' = stSuccessfulChunks st + Z.of_nat (length chunks)
      /\ stFailedChunks st' = stFailedChunks st.
Proof.
  intros Hr. induction chunks as [|chunk rest IH]; intros idx st.
  - exists st. simpl. repeat split; lia.
  - pose proof (chunkTrace_handled dryRun roster (idx * size) chunk Hr 0 st) as Hh.
    destruct (processChunk_handled _ _ _ _ _ _ Hh)
      as (st1 & entries & E1 & V1 & L1 & F1 & C1 & C2 & C3 & C4).
    destruct (IH (idx + 1) st1) as (st' & E & D1 & D2 & D3 & D4).
    exists st'. simpl forChunks. rewrite (bind_normal _ _ _ _ _ E1).
    split; [exact E|].
    pose proof (okCount_koCount (chunkTrace dryRun roster (idx * size) 0 chunk st)) as S.
    apply entriesFor_length in F1.
    simpl concat. rewrite length_app. rewrite V1, length_app in D2.
    simpl length. repeat split; lia.
Qed.

End BatchFacts.

(* ===================================================================== *)
(** ** Properties of the orchestrator *)
(* ===================================================================== *)

Section OrchestratorFacts.
Context {Store : Type} {storage : Storage Store} {host : Host}.
#[local] Abbreviation M := (M Store).

Lemma splitLoop_more_fuel rawLeads size :
  forall fuel i chunks result,
    splitLoop fuel rawLeads size i chunks = Some result ->
    splitLoop (S fuel) rawLeads size i chunks = Some result.
Proof.
  induction fuel as [|fuel IH]; intros i chunks result E; [discriminate|].
  simpl in E. cbn [splitLoop]. destruct (i <? Z.of_nat (length rawLeads)); [|exact E].
  apply IH. exact E.
Qed.

Lemma splitLoop_enough_fuel rawLeads size fuel fuel' i chunks result :
  (fuel <= fuel')%nat ->
  splitLoop fuel rawLeads size i chunks = Some result ->
  splitLoop fuel' rawLeads size i chunks = Some result.
Proof.
  induction 1 as [|fuel' _ IH]; [trivial|]. intros E. apply splitLoop_more_fuel. auto.
Qed.

(** The chunks of a batch for a positive chunk size. *)
Lemma splitLoop_chunks rawLeads size :
  1 <= size ->
  exists chunks,
    (forall fuel, (length rawLeads < fuel)%nat ->
                  splitLoop fuel rawLeads size 0 [] = Some chunks)
    /\ Z.of_nat (length chunks) = ceilDiv (Z.of_nat (length rawLeads)) size
    /\ concat chunks = rawLeads
    /\ Forall (fun chunk => chunk <> [] /\ Z.of_nat (length chunk) <= size) chunks.
Proof.
  intros Hs.
  destruct (splitLoop_spec rawLeads size Hs (S (length rawLeads)) 0 [] ltac:(lia) ltac:(lia))
    as (chunks & E & L & C & F & _).
  exists chunks. repeat split; try assumption.
  - intros fuel Hf. eapply splitLoop_enough_fuel; [|exact E]. lia.
  - rewrite L. f_equal. lia.
Qed.

(** The counters add up, and every chunk is successful, whenever the
    row-level handler deals with everything that is thrown: in every dry
    run, and in every run against a store whose rejections have a readable
    [message]. *)
Lemma batch_invariant_when_handled rawLeads dryRun size (store : Store) fuel :
  dryRun = true \/ politeStore ->
  1 <= size -> (length rawLeads < fuel)%nat ->
  exists result store',
    processBulkLeadImport fuel rawLeads dryRun size store = Some (Normal result, store')
    /\ imported (batchSummary result) + importedWithIssues (batchSummary result)
       + failed (batchSummary result) = totalRows (batchSummary result)
    /\ totalRows (batchSummary result) = Z.of_nat (length rawLeads)
    /\ Z.of_nat (length (validationLog result)) = Z.of_nat (length rawLeads)
    /\ totalChunks (chunkStats (batchSummary result))
       = ceilDiv (totalRows (batchSummary result)) size
    /\ successfulChunks (chunkStats (batchSummary result))
       = totalChunks (chunkStats (batchSummary result))
    /\ failedChunks (chunkStats (batchSummary result)) = 0.
Proof.
  intros Hp Hs Hf.
  destruct (splitLoop_chunks rawLeads size Hs) as (chunks & E & L & C & _).
  unfold processBulkLeadImport. rewrite (E fuel Hf).
  destruct (importChunks_spec rawLeads dryRun size chunks (initialState store))
    as (roster & st3 & _ & Ec & Ei).
  destruct (forChunks_handled dryRun roster size chunks
              (fun r => throwsReadable_rowBody dryRun roster r Hp) 0
              (snd (dateNow (initialState store))))
    as (st3' & Ec' & D1 & D2 & D3 & D4).
  rewrite Ec in Ec'. inversion Ec'; subst st3'. clear Ec'.
  rewrite Ei. unfold buildResult. simpl in *. rewrite C in *.
  eexists _, _. split; [reflexivity|]. simpl. repeat split; lia.
Qed.

(** C3. For a chunk size of at least 1 and any array of rows, store and
    mode, [processBulkLeadImport] returns (given the fuel for its
    splitting loop), it returns normally rather than throwing, whatever
    the store does (roster lookup included), and the result has
    [success = true]. *)
Theorem processBulkLeadImport_never_throws rawLeads dryRun chunkSize (store : Store) fuel :
  1 <= chunkSize -> (length rawLeads < fuel)%nat ->
  exists result store',
    processBulkLeadImport fuel rawLeads dryRun chunkSize store
    = Some (Normal result, store')
    /\ success result = true.
Proof.
  intros Hs Hf.
  destruct (splitLoop_chunks rawLeads chunkSize Hs) as (chunks & E & _).
  unfold processBulkLeadImport. rewrite (E fuel Hf).
  destruct (importChunks_spec rawLeads dryRun chunkSize chunks (initialState store))
    as (roster & st3 & _ & _ & Ei).
  rewrite Ei. unfold buildResult. eexists _, _. split; reflexivity.
Qed.

(** C10. With a chunk size of at least 1 the function is total: one
    outcome for every amount of fuel above the number of rows. With a chunk
    size of 0 or less and a batch that is not empty the splitting loop never
    ends, and the route hands the chunk size of the request over unchecked,
    so the request is never answered. *)
Theorem processBulkLeadImport_termination rawLeads dryRun (store : Store) :
  (forall chunkSize, 1 <= chunkSize ->
     exists outcome, forall fuel, (length rawLeads < fuel)%nat ->
       processBulkLeadImport fuel rawLeads dryRun chunkSize store = Some outcome)
  /\ (forall chunkSize, chunkSize <= 0 -> rawLeads <> [] ->
        forall fuel,
          processBulkLeadImport fuel rawLeads dryRun chunkSize store = None
          /\ bulkImportRoute fuel
               (mkBulkRequest (LeadsArray rawLeads) (Some dryRun) (Some chunkSize)) store
             = None).
Proof.
  split.
  - intros size Hs. destruct (splitLoop_chunks rawLeads size Hs) as (chunks & E & _).
    exists (fst (importChunks rawLeads dryRun size chunks (initialState store)),
            stStore (snd (importChunks rawLeads dryRun size chunks (initialState store)))).
    intros fuel Hf. unfold processBulkLeadImport. rewrite (E fuel Hf).
    now destruct (importChunks rawLeads dryRun size chunks (initialState store)).
  - intros size Hs Hne fuel.
    assert (processBulkLeadImport fuel rawLeads dryRun size store = None) as E.
    { unfold processBulkLeadImport.
      now rewrite (splitLoop_diverges rawLeads size Hs Hne fuel 0 []). }
    split; [exact E|]. unfold bulkImportRoute. simpl. now rewrite E.
Qed.

Lemma replicate_trace_counts k m e :
  okCount (replicate k (Normal tt) ++ Throw e :: replicate m (Normal tt))
  = Z.of_nat (k + m)
  /\ koCount (replicate k (Normal tt) ++ Throw e :: replicate m (Normal tt)) = 1.
Proof.
  induction k as [|k [IH1 IH2]].
  - simpl. rewrite okCount_cons, koCount_cons. simpl.
    assert (okCount (replicate m (Normal tt)) = Z.of_nat m
            /\ koCount (replicate m (Normal tt)) = 0) as [-> ->]; [|lia].
    induction m as [|m [IH1 IH2]]; [split; reflexivity|].
    simpl replicate. rewrite okCount_cons, koCount_cons. simpl. lia.
  - simpl replicate. simpl app. rewrite okCount_cons, koCount_cons. simpl. lia.
Qed.

(** C4 (amended). When the [try] block of exactly one row of a chunk throws
    a value whose [message] the handler can read (anything but [null] and
    [undefined]) and those of the other rows complete, the chunk is
    processed to its end: one entry per row, in order; the entry of that row
    is [Failed] and its [errors] end with the handler's text, which is the
    message of the exception when that is not empty and the text
    [Unknown error during processing] otherwise; every other entry has the
    status of the classification; one row is counted as failed, the others
    as imported; [successfulChunks] is incremented and [failedChunks] is
    not. *)
Theorem single_failing_row_is_isolated dryRun roster chunkSize chunkIndex chunk
    (st : ImportState Store) (k : nat) (e : Thrown) :
  (k < length chunk)%nat ->
  chunkTrace dryRun roster (chunkIndex * chunkSize) 0 chunk st
  = replicate k (Normal tt) ++ Throw e :: replicate (length chunk - S k) (Normal tt) ->
  readable e = true ->
  exists st' entries,
    processChunk dryRun roster chunkSize chunkIndex chunk st = (Normal tt, st')
    /\ stValidationLog st' = stValidationLog st ++ entries
    /\ length entries = length chunk
    /\ (forall j entry, entries !! j = Some entry ->
          rowNumber entry = chunkIndex * chunkSize + Z.of_nat j + 1
          /\ if decide (j = k)
             then status entry = Failed
                  /\ exists before, errors entry = before ++ [caughtText e]
             else status entry = classified entry /\ status entry <> Failed)
    /\ (forall n m, e = ThrownError n m -> m <> "" -> caughtText e = m)
    /\ (caughtText e = "Unknown error during processing"
        \/ exists n m, e = ThrownError n m /\ m <> "" /\ caughtText e = m)
    /\ failedCount st' = failedCount st + 1
    /\ importedCount st' + importedWithIssuesCount st'
       = importedCount st + importedWithIssuesCount st + Z.of_nat (length chunk) - 1
    /\ stSuccessfulChunks st' = stSuccessfulChunks st + 1
    /\ stFailedChunks st' = stFailedChunks st.
Proof.
  intros Hk Ht Hr.
  assert (forallb handled (chunkTrace dryRun roster (chunkIndex * chunkSize) 0 chunk st)
          = true) as Hh.
  { assert (forall n, forallb handled (replicate n (Normal tt)) = true) as Hrep
      by (induction n; simpl; auto).
    rewrite Ht, forallb_app. simpl. now rewrite Hr, !Hrep. }
  destruct (processChunk_handled _ _ _ _ _ _ Hh)
    as (st' & entries & E & V & L & F & C1 & C2 & C3 & C4).
  exists st', entries. split; [exact E|]. split; [exact V|].
  pose proof (entriesFor_length _ _ _ F) as Le.
  split; [congruence|]. split; [|split; [|split]].
  - intros j entry Hj.
    assert (j < length chunk)%nat as Hjl
      by (apply lookup_lt_Some in Hj; congruence).
    destruct (chunkTrace dryRun roster (chunkIndex * chunkSize) 0 chunk st !! j)
      as [c|] eqn:Tj; [|apply lookup_ge_None in Tj; lia].
    destruct (entriesFor_lookup _ _ _ _ _ F Tj) as (entry' & Hj' & Hrow & Hst).
    rewrite Hj in Hj'. inversion Hj'; subst entry'. clear Hj'.
    split; [rewrite Hrow; lia|].
    rewrite Ht in Tj. destruct (decide (j = k)) as [->|Hne].
    + rewrite lookup_app_r in Tj by (rewrite length_replicate; lia).
      rewrite length_replicate, Nat.sub_diag in Tj. simpl in Tj.
      inversion Tj; subst c. exact Hst.
    + assert (c = Normal tt) as ->.
      { destruct (Nat.lt_ge_cases j k) as [Hlt|Hge].
        - rewrite lookup_app_l in Tj by (rewrite length_replicate; lia).
          apply lookup_replicate in Tj. tauto.
        - rewrite lookup_app_r in Tj by (rewrite length_replicate; lia).
          rewrite length_replicate in Tj.
          destruct (j - k)%nat as [|d] eqn:Ed; [lia|]. simpl in Tj.
          apply lookup_replicate in Tj. tauto. }
      split; [exact Hst|]. rewrite Hst. apply classified_not_failed.
  - intros n m -> Hm. unfold caughtText, orString. simpl.
    destruct (decide (m = "")); [contradiction|reflexivity].
  - destruct e as [n m|t| |];
      [|left; reflexivity|discriminate Hr|discriminate Hr].
    unfold caughtText, orString. simpl.
    destruct (decide (m = "")) as [Hm|Hm]; [left; reflexivity|].
    right. exists n, m. auto.
  - rewrite Ht in C1, C2.
    destruct (replicate_trace_counts k (length chunk - S k) e) as [O K].
    rewrite O in C1. rewrite K in C2. repeat split; try assumption; lia.
Qed.

Lemma processRow_unfold dryRun roster start i r (st : ImportState Store) :
  processRow dryRun roster start i r st
  = match tryCatch (rowBody dryRun roster r) rowCatch (snd (startRow start i r st)) with
    | (Normal _, st2) => (Normal tt, snd (pushEntry (stLog st2) st2))
    | (Throw e, st2) => (Throw e, st2)
    end.
Proof.
  unfold processRow, mbind, M_bind. simpl.
  destruct (tryCatch _ _ _) as [[[]|e] st2]; reflexivity.
Qed.

(** X22. A row either is logged by the row-level code, and then its
    entry is [Failed] exactly when the [try] block of the row threw,
    [ImportedWithIssues] exactly when it did not and [warnings] or
    [fixesApplied] is not empty, and [Imported] otherwise; or its handler
    itself throws (the [try] block threw a value without readable
    [message]) and the row-level code logs nothing. The entries of the
    chunk-level handler are all [Failed]. And a row without any field, in a
    dry run, is logged with two errors and the status [ImportedWithIssues]:
    errors alone do not make a row [Failed]. *)
Theorem row_status_classification :
  (forall dryRun roster start i rawLead (st : ImportState Store),
     match processRow dryRun roster start i rawLead st with
     | (Normal _, st') =>
         exists entry,
           stValidationLog st' = stValidationLog st ++ [entry]
           /\ (status entry = Failed
               <-> isThrow (tryOutcome dryRun roster start i rawLead st) = true)
           /\ (status entry = ImportedWithIssues
               <-> isThrow (tryOutcome dryRun roster start i rawLead st) = false
                   /\ (warnings entry <> [] \/ fixesApplied entry <> []))
           /\ (status entry = Imported
               <-> isThrow (tryOutcome dryRun roster start i rawLead st) = false
                   /\ warnings entry = [] /\ fixesApplied entry = [])
     | (Throw _, st') =>
         stValidationLog st' = stValidationLog st
         /\ exists e, tryOutcome dryRun roster start i rawLead st = Throw e
                      /\ readable e = false
     end)
  /\ (forall chunkError start i rows (st : ImportState Store),
        exists st' entries,
          failRows chunkError start i rows st = (Normal tt, st')
          /\ stValidationLog st' = stValidationLog st ++ entries
          /\ length entries = length rows
          /\ Forall (fun entry => status entry = Failed) entries)
  /\ (forall roster start i (st : ImportState Store),
        exists st' entry,
          processRow true roster start i (ObjectLead ∅) st = (Normal tt, st')
          /\ stValidationLog st' = stValidationLog st ++ [entry]
          /\ errors entry
             = ["Missing required student name"; "Missing required current stage"]
          /\ status entry = ImportedWithIssues).
Proof.
  split; [|split].
  - intros dryRun roster start i r st.
    destruct (tryOutcome dryRun roster start i r st) as [[]|e] eqn:T.
    + destruct (processRow_normal _ _ _ _ _ _ T) as (st1 & entry & E1 & V & (_ & S) & _).
      rewrite E1. exists entry. split; [exact V|].
      simpl. rewrite S. unfold classified.
      destruct (warnings entry) as [|w ws], (fixesApplied entry) as [|f fs]; simpl;
        repeat split; intros; try discriminate; try tauto;
        try (right; discriminate); try (left; discriminate);
        intuition discriminate.
    + destruct (readable e) eqn:R.
      * destruct (processRow_caught _ _ _ _ _ _ _ T R)
          as (st1 & entry & E1 & V & (_ & S & _) & _).
        rewrite E1. exists entry. split; [exact V|].
        simpl. rewrite S. repeat split; intros; try discriminate; try tauto;
          intuition discriminate.
      * destruct (processRow_escapes _ _ _ _ _ _ _ T R) as (e' & st1 & E1 & _ & V & _).
        rewrite E1. split; [exact V|]. eauto.
  - intros e start i rows st.
    destruct (failRows_spec e start rows i st) as (st1 & entries & E1 & V & L & F & _).
    eauto 10.
  - intros roster start i st. rewrite processRow_unfold.
    destruct (tryCatch (rowBody true roster (ObjectLead ∅)) rowCatch
                (snd (startRow start i (ObjectLead ∅) st))) as [c st2] eqn:E.
    assert (c = Normal tt) as ->.
    { change c with (fst (c, st2)). rewrite <- E. vm_compute. reflexivity. }
    assert (errors (stLog st2)
            = ["Missing required student name"; "Missing required current stage"]
            /\ status (stLog st2) = ImportedWithIssues
            /\ stValidationLog st2 = stValidationLog st) as (E1 & E2 & E3).
    { change st2 with (snd (Normal tt : Completion unit, st2)). rewrite <- E.
      vm_compute. repeat split. }
    eexists _, _. split; [reflexivity|]. simpl. rewrite E3. repeat split; assumption.
Qed.

End OrchestratorFacts.

(* ===================================================================== *)
(** ** Dry runs *)
(* ===================================================================== *)

Section DryRun.
Context {Store : Type} {storage : Storage Store} {host : Host}.
#[local] Abbreviation M := (M Store).


Lemma simulates_bind {A B} (m m' : M A) (f f' : A -> M B) :
  simulates m m' -> (forall a, simulates (f a) (f' a)) ->
  simulates (m ≫= f) (m' ≫= f').
Proof.
  intros Hm Hf st s. destruct (Hm st s) as (s1 & E1).
  unfold mbind, M_bind. rewrite E1. destruct (m st) as [[a|e] st1]; simpl.
  - apply Hf.
  - now exists s1.
Qed.

Lemma simulates_tryCatch {A} (body body' : M A) handler :
  simulates body body' -> (forall e, oblivious (handler e)) ->
  simulates (tryCatch body handler) (tryCatch body' handler).
Proof.
  intros Hb Hh st s. destruct (Hb st s) as (s1 & E1).
  unfold tryCatch. rewrite E1. destruct (body st) as [[a|e] st1]; simpl.
  - now exists s1.
  - exists s1. apply Hh.
Qed.

Lemma liftStore_withStore {A} (op : Store -> Completion A * Store) s s' a
    (st : ImportState Store) :
  op s = (Normal a, s') -> liftStore op (withStore s st) = (Normal a, withStore s' st).
Proof. intros E. unfold liftStore. simpl. now rewrite E. Qed.

(** Against a reliable store the persistence block completes and
    changes nothing but the store. *)
Lemma persistLead_reliable roster n b :
  reliableStore -> simulates (mret tt) (persistLead roster n b : M unit).
Proof.
  intros (R1 & R2 & R3) st s. unfold persistLead.
  match goal with |- context [liftStore (createLead ?l)] =>
    destruct (R1 l s) as (id & s1 & E1);
    rewrite (bind_normal _ _ _ _ _ (liftStore_withStore _ _ _ _ st E1))
  end.
  assert (exists s2,
            (match remarks n with
             | Some r =>
                 when (negb (String.eqb r "") && negb (String.eqb (Js.trim r) ""))
                   (id0 ← leadId (Some id);
                    liftStore
                      (createRemark
                         (mkRemarkInsert id0 (actingUser b (managerId roster))
                            ("Bulk Import: " +:+ Js.trim r) true)))
             | None => mret tt
             end : M unit) (withStore s1 st) = (Normal tt, withStore s2 st)) as (s2 & E2).
  { destruct (remarks n) as [r|]; [|now exists s1].
    destruct (negb (String.eqb r "") && negb (String.eqb (Js.trim r) "")); [|now exists s1].
    simpl when.
    destruct (R2 (mkRemarkInsert id (actingUser b (managerId roster))
                    ("Bulk Import: " +:+ Js.trim r) true) s1) as (s2 & E2).
    exists s2. rewrite (bind_normal _ _ _ id (withStore s1 st) eq_refl).
    now apply liftStore_withStore. }
  rewrite (bind_normal _ _ _ _ _ E2).
  destruct (negb (String.eqb (blCurrentStage b) "")
            && negb (String.eqb (blCurrentStage b) "Yet to Assign")); [|now exists s2].
  simpl when.
  destruct (R3 (mkStageHistoryInsert id (blCurrentStage b)
                  (actingUser b (managerId roster))
                  ("Bulk import - " +:+
                     (if truthyId (counselorId b)
                      then "Assigned to counselor" else "Unassigned"))
                  (leadCreatedDate n)) s2) as (s3 & E3).
  exists s3. rewrite (bind_normal _ _ _ id (withStore s2 st) eq_refl).
  now apply liftStore_withStore.
Qed.

Lemma simulates_rowBody roster r :
  reliableStore -> simulates (rowBody true roster r : M _) (rowBody false roster r).
Proof.
  intros R. unfold rowBody. cbn [negb when].
  apply simulates_bind;
    [apply oblivious_simulates, oblivious_normalizeAndValidateLead|intros n].
  cbv zeta.
  apply simulates_bind; [apply oblivious_simulates, oblivious_setNormalizedData|intros _].
  apply simulates_bind; [now apply persistLead_reliable|intros _].
  apply oblivious_simulates, oblivious_classifyRow.
Qed.

Lemma simulates_processRow roster start i r :
  reliableStore ->
  simulates (processRow true roster start i r : M _) (processRow false roster start i r).
Proof.
  intros R. unfold processRow.
  apply simulates_bind; [apply oblivious_simulates, oblivious_startRow|intros _].
  apply simulates_bind;
    [apply simulates_tryCatch; [now apply simulates_rowBody|apply oblivious_rowCatch]
    |intros _].
  apply oblivious_simulates. solve_oblivious.
Qed.

Lemma simulates_forRows roster start rows :
  reliableStore ->
  forall i, simulates (forRows true roster start i rows : M _)
              (forRows false roster start i rows).
Proof.
  intros R. induction rows as [|r rest IH]; intros i; simpl.
  - apply oblivious_simulates, oblivious_ret.
  - apply simulates_bind; [now apply simulates_processRow|intros _; apply IH].
Qed.

Lemma simulates_processChunk roster size idx chunk :
  reliableStore ->
  simulates (processChunk true roster size idx chunk : M _)
    (processChunk false roster size idx chunk).
Proof.
  intros R. unfold processChunk. apply simulates_tryCatch.
  - unfold chunkBody. apply simulates_bind; [now apply simulates_forRows|intros _].
    apply oblivious_simulates, oblivious_incrSuccessfulChunks.
  - intros e. unfold chunkCatch. solve_oblivious. apply oblivious_failRows.
Qed.

Lemma simulates_forChunks roster size chunks :
  reliableStore ->
  forall idx, simulates (forChunks true roster size idx chunks : M _)
                (forChunks false roster size idx chunks).
Proof.
  intros R. induction chunks as [|c rest IH]; intros idx; simpl.
  - apply oblivious_simulates, oblivious_ret.
  - apply simulates_bind; [now apply simulates_processChunk|intros _; apply IH].
Qed.

(** The two modes at the same readings of the clock. Against a store
    whose create operations succeed, and for a chunk size of at least 1: the
    dry run returns and leaves the store as it was, the run with
    [dryRun = false] on the same batch returns too, and both results have the
    same validation log, the same counts and chunk statistics and the same
    field issues. *)
Lemma dry_run_same_clock rawLeads chunkSize (store : Store) fuel :
  reliableStore ->
  1 <= chunkSize -> (length rawLeads < fuel)%nat ->
  exists dry real store2,
    processBulkLeadImport fuel rawLeads true chunkSize store = Some (Normal dry, store)
    /\ processBulkLeadImport fuel rawLeads false chunkSize store
       = Some (Normal real, store2)
    /\ validationLog real = validationLog dry
    /\ counts (batchSummary real) = counts (batchSummary dry)
    /\ fieldIssues (batchSummary real) = fieldIssues (batchSummary dry).
Proof.
  intros R Hs Hf. unfold processBulkLeadImport.
  destruct (splitLoop_chunks rawLeads chunkSize Hs) as (chunks & E & _).
  rewrite (E fuel Hf).
  destruct (importChunks_spec rawLeads true chunkSize chunks (initialState store))
    as (roster & st3 & Er & Ec & Ei).
  assert (stStore st3 = store) as Es.
  { change st3 with (snd (Normal tt : Completion unit, st3)). rewrite <- Ec.
    rewrite oblivious_keeps_store by apply oblivious_forChunks_dry. reflexivity. }
  destruct (importChunks_spec rawLeads false chunkSize chunks (initialState store))
    as (roster' & st3' & Er' & Ec' & Ei').
  rewrite Er in Er'. inversion Er'; subst roster'. clear Er'.
  destruct (simulates_forChunks roster chunkSize chunks R 0
              (snd (dateNow (initialState store))) store) as (s' & Es').
  change (withStore store (snd (dateNow (initialState store))))
    with (snd (dateNow (initialState store))) in Es'.
  rewrite Ec, Ec' in Es'. simpl in Es'. inversion Es'; subst st3'. clear Es'.
  rewrite Ei, Ei'. unfold buildResult. simpl. rewrite Es.
  eexists _, _, _. split; [reflexivity|]. split; [reflexivity|]. simpl. repeat split.
Qed.

End DryRun.

(** C1 (as the code has it). Two rows in one chunk, the second insert
    rejected with [undefined]: the first row is logged and counted as
    imported with issues, the handler of the second row fails on
    [error.message], and the chunk-level handler logs and counts both rows as
    failed. The batch has 2 rows and the three counters add up to 3. *)
Theorem chunk_failure_counts_rows_twice :
  match @processBulkLeadImport _ Examples.rejectingStore Examples.host 3
          [Examples.lead "U1"; Examples.lead "U2"] false 2 [] with
  | Some (Normal result, _) =>
      totalRows (batchSummary result) = 2
      /\ totalChunks (chunkStats (batchSummary result)) = ceilDiv 2 2
      /\ imported (batchSummary result) = 0
      /\ importedWithIssues (batchSummary result) = 1
      /\ failed (batchSummary result) = 2
      /\ imported (batchSummary result) + importedWithIssues (batchSummary result)
         + failed (batchSummary result) <> totalRows (batchSummary result)
      /\ map (fun entry => (rowNumber entry, status entry)) (validationLog result)
         = [(1, ImportedWithIssues); (1, Failed); (2, Failed)]
      /\ failedChunks (chunkStats (batchSummary result)) = 1
  | _ => False
  end.
Proof.
  vm_compute. repeat split. discriminate.
Qed.

(* ===================================================================== *)
(** ** Strings *)
(* ===================================================================== *)

Section StringFacts.

Lemma chars_str l : Js.chars (Js.str l) = l.
Proof. apply list_ascii_of_string_of_list_ascii. Qed.

Lemma str_chars s : Js.str (Js.chars s) = s.
Proof. apply string_of_list_ascii_of_string. Qed.

Lemma startsWith_app w l x : Js.startsWith w l = true -> Js.startsWith w (l ++ x) = true.
Proof.
  revert l. induction w as [|a w IH]; intros [|b l]; simpl; try congruence.
  destruct (Ascii.eqb a b); [apply IH|congruence].
Qed.

Lemma dropWhite_prefix table l x :
  Js.dropWhite table (l ++ x) = None -> Js.dropWhite table l = None.
Proof.
  induction table as [|w table IH]; simpl; [trivial|].
  destruct (Js.startsWith w l) eqn:E.
  - now rewrite (startsWith_app _ _ x E).
  - destruct (Js.startsWith w (l ++ x)); [discriminate|exact IH].
Qed.

Lemma dropWhite_shorter table l r :
  Forall (fun w => w <> []) table ->
  Js.dropWhite table l = Some r -> (length r < length l)%nat /\ exists p, l = p ++ r.
Proof.
  induction 1 as [|w table Hw _ IH]; simpl; [discriminate|].
  destruct (Js.startsWith w l) eqn:E; [|exact IH].
  intros R. inversion R; subst r. clear R.
  assert (forall w l, Js.startsWith w l = true -> l = w ++ drop (length w) l) as Hsw.
  { clear. induction w as [|a w IH]; intros [|b l]; simpl; try congruence.
    destruct (Ascii.eqb a b) eqn:Eab; [|discriminate]. apply Ascii.eqb_eq in Eab.
    subst b. intros S. f_equal. now apply IH. }
  pose proof (Hsw _ _ E) as D. split; [|eauto].
  rewrite D at 2. rewrite length_app. destruct w; [congruence|simpl; lia].
Qed.

Lemma trimWith_stops table l fuel :
  Js.dropWhite table l = None -> Js.trimWith table fuel l = l.
Proof. intros E. destruct fuel; simpl; [reflexivity|now rewrite E]. Qed.

Lemma trimWith_spec table :
  Forall (fun w => w <> []) table ->
  forall fuel l,
    (length l <= fuel)%nat ->
    Js.dropWhite table (Js.trimWith table fuel l) = None
    /\ exists p, l = p ++ Js.trimWith table fuel l.
Proof.
  intros Ht. induction fuel as [|fuel IH]; intros l Hl.
  - destruct l; [|simpl in Hl; lia]. simpl. split; [|now exists []].
    induction Ht as [|w table Hw _ IH]; simpl; [reflexivity|].
    destruct w; [congruence|exact IH].
  - simpl. destruct (Js.dropWhite table l) as [r|] eqn:E.
    + destruct (dropWhite_shorter _ _ _ Ht E) as (Hlen & p & ->).
      destruct (IH r ltac:(lia)) as (Hd & q & Hq). split; [exact Hd|].
      exists (p ++ q). now rewrite <- app_assoc, <- Hq.
    + split; [exact E|now exists []].
Qed.

Lemma whiteSpace_nonempty : Forall (fun w => w <> []) Js.whiteSpace.
Proof. unfold Js.whiteSpace. simpl. repeat constructor; discriminate. Qed.

Lemma whiteSpace_rev_nonempty : Forall (fun w => w <> []) (map (@rev ascii) Js.whiteSpace).
Proof. unfold Js.whiteSpace. simpl. repeat constructor; discriminate. Qed.

(** [trim] is idempotent. *)
Lemma trim_idempotent s : Js.trim (Js.trim s) = Js.trim s.
Proof.
  unfold Js.trim. rewrite chars_str. f_equal.
  set (l1 := Js.trimStart (Js.chars s)).
  destruct (trimWith_spec _ whiteSpace_nonempty (length (Js.chars s)) (Js.chars s)
              ltac:(lia)) as (D1 & _).
  fold (Js.trimStart (Js.chars s)) in D1. fold l1 in D1.
  unfold Js.trimEnd at 2.
  destruct (trimWith_spec _ whiteSpace_rev_nonempty (length l1) (rev l1)
              ltac:(rewrite length_rev; lia)) as (D2 & p & Hp).
  set (r := Js.trimWith (map (@rev ascii) Js.whiteSpace) (length l1) (rev l1)) in *.
  assert (l1 = rev r ++ rev p) as Hl1.
  { rewrite <- rev_app_distr, <- Hp. now rewrite rev_involutive. }
  assert (Js.trimStart (rev r) = rev r) as ->.
  { unfold Js.trimStart. apply trimWith_stops.
    apply (dropWhite_prefix _ _ (rev p)). now rewrite <- Hl1. }
  unfold Js.trimEnd. rewrite rev_involutive. f_equal. now apply trimWith_stops.
Qed.

Lemma trim_empty : Js.trim "" = "".
Proof. reflexivity. Qed.

(** Digits are left alone by the case mapping and differ from every
    character that is not a digit. *)
Lemma isDigit_range d : Js.isDigit d = true -> (48 <= Js.code d <= 57)%N.
Proof.
  unfold Js.isDigit. intros E. apply andb_true_iff in E as [E1 E2].
  apply N.leb_le in E1, E2. lia.
Qed.

Lemma lowerByte_digit b d : Js.isDigit d = true -> Js.lowerByte b d = d.
Proof.
  intros E. apply isDigit_range in E. unfold Js.lowerByte.
  replace (65 <=? Js.code d)%N with false by (symmetry; apply N.leb_gt; lia).
  replace (128 <=? Js.code d)%N with false by (symmetry; apply N.leb_gt; lia).
  simpl. now rewrite andb_false_r.
Qed.

Lemma digit_not_lead d : Js.isDigit d = true -> (Js.code d =? 195)%N = false.
Proof. intros E. apply isDigit_range in E. apply N.eqb_neq. lia. Qed.

Lemma digit_latin1 d : Js.isDigit d = true -> (Js.code d <? 196)%N = true.
Proof. intros E. apply isDigit_range in E. apply N.ltb_lt. lia. Qed.

(** On Latin-1 text [toLowerCase] is the mapping written out above. *)
Lemma toLowerCase_latin1 `{Js.Unicode} s :
  Js.isLatin1 s = true -> Js.toLowerCase s = Js.lowerLatin1 s.
Proof. intros E. unfold Js.toLowerCase, Js.lowerWith. now rewrite E. Qed.

Lemma eqb_digit c d : Js.isDigit c = false -> Js.isDigit d = true -> Ascii.eqb c d = false.
Proof. intros Ec Ed. apply Ascii.eqb_neq. intros ->. congruence. Qed.

Lemma isInfix_skip_digit k key d l :
  Js.isDigit k = false -> Js.isDigit d = true ->
  Js.isInfix (k :: key) (d :: l) = Js.isInfix (k :: key) l.
Proof.
  intros Ek Ed. cbn [Js.isInfix Js.startsWith]. now rewrite (eqb_digit _ _ Ek Ed).
Qed.

End StringFacts.

Section Latin1Facts.

(** What [trim] returns is a part of its argument. *)
Lemma trim_infix s : exists p q, Js.chars s = p ++ Js.chars (Js.trim s) ++ q.
Proof.
  unfold Js.trim. rewrite chars_str.
  destruct (trimWith_spec _ whiteSpace_nonempty (length (Js.chars s)) (Js.chars s)
              ltac:(lia)) as (_ & p & Hp).
  fold (Js.trimStart (Js.chars s)) in Hp.
  set (l1 := Js.trimStart (Js.chars s)) in *.
  destruct (trimWith_spec _ whiteSpace_rev_nonempty (length l1) (rev l1)
              ltac:(rewrite length_rev; lia)) as (_ & p' & Hp').
  exists p, (rev p'). unfold Js.trimEnd.
  rewrite Hp at 1. f_equal.
  rewrite <- rev_app_distr, <- Hp'. now rewrite rev_involutive.
Qed.

Lemma trim_incl s c : In c (Js.chars (Js.trim s)) -> In c (Js.chars s).
Proof.
  destruct (trim_infix s) as (p & q & ->). intros H.
  apply in_or_app. right. apply in_or_app. now left.
Qed.

Lemma lowerByte_idempotent b c : Js.lowerByte b (Js.lowerByte b c) = Js.lowerByte b c.
Proof. destruct b, c as [[] [] [] [] [] [] [] []]; reflexivity. Qed.

Lemma lowerByte_lead b c :
  (Js.code (Js.lowerByte b c) =? 195)%N = (Js.code c =? 195)%N.
Proof. destruct b, c as [[] [] [] [] [] [] [] []]; reflexivity. Qed.

Lemma lowerByte_weaken b c : Js.lowerByte b c = c -> Js.lowerByte false c = c.
Proof.
  destruct b, c as [[] [] [] [] [] [] [] []]; vm_compute; intros H;
    first [reflexivity | discriminate H].
Qed.

Lemma lowerFrom_idempotent l :
  forall b, Js.lowerFrom b (Js.lowerFrom b l) = Js.lowerFrom b l.
Proof.
  induction l as [|c r IH]; intros b; [reflexivity|].
  simpl. rewrite lowerByte_idempotent, lowerByte_lead. f_equal. apply IH.
Qed.

Lemma lowerFrom_weaken b l : Js.lowerFrom b l = l -> Js.lowerFrom false l = l.
Proof.
  destruct l as [|c r]; [reflexivity|]. simpl. intros [= H1 H2].
  rewrite (lowerByte_weaken _ _ H1). now rewrite H2.
Qed.

Lemma lowerFrom_suffix p l :
  forall b, Js.lowerFrom b (p ++ l) = p ++ l -> exists b', Js.lowerFrom b' l = l.
Proof.
  induction p as [|c p IH]; intros b; simpl.
  - intros H. now exists b.
  - intros [= _ H]. eapply IH. exact H.
Qed.

Lemma lowerFrom_prefix v q :
  forall b, Js.lowerFrom b (v ++ q) = v ++ q -> Js.lowerFrom b v = v.
Proof.
  induction v as [|c v IH]; intros b; simpl; [reflexivity|].
  intros [= H1 H2]. rewrite H1. f_equal. eapply IH. exact H2.
Qed.

(** A trimmed part of a text lower-cased as Latin-1 is in lower case. *)
Lemma lowerLatin1_trim_fixed s :
  Js.lowerLatin1 (Js.trim (Js.lowerLatin1 s)) = Js.trim (Js.lowerLatin1 s).
Proof.
  destruct (trim_infix (Js.lowerLatin1 s)) as (p & q & H).
  assert (Js.chars (Js.lowerLatin1 s) = Js.lowerFrom false (Js.chars s)) as L
    by (unfold Js.lowerLatin1; apply chars_str).
  pose proof (lowerFrom_idempotent (Js.chars s) false) as F.
  rewrite <- L, H in F.
  apply lowerFrom_suffix in F as (b' & F). apply lowerFrom_prefix in F.
  apply lowerFrom_weaken in F. unfold Js.lowerLatin1 at 1. rewrite F.
  apply str_chars.
Qed.

Lemma isLatin1_lowerLatin1 s : Js.isLatin1 s = true -> Js.isLatin1 (Js.lowerLatin1 s) = true.
Proof.
  unfold Js.isLatin1, Js.lowerLatin1. rewrite chars_str. generalize false.
  induction (Js.chars s) as [|c l IH]; intros b; [reflexivity|]. simpl.
  rewrite !andb_true_iff. intros [Hc Hl]. split; [|now apply IH].
  revert Hc. clear. destruct b, c as [[] [] [] [] [] [] [] []]; vm_compute; congruence.
Qed.

Lemma isLatin1_trim s : Js.isLatin1 s = true -> Js.isLatin1 (Js.trim s) = true.
Proof.
  unfold Js.isLatin1. rewrite !forallb_forall. intros H c Hc.
  apply H. now apply trim_incl.
Qed.

(** An engine that leaves the code points beyond Latin-1 as they are has
    the property asked of a case mapping. *)
Lemma lowerLatin1_lawful s :
  Js.lowerWith Js.lowerLatin1 (Js.trim (Js.lowerLatin1 s)) = Js.trim (Js.lowerLatin1 s).
Proof.
  assert (forall x, Js.lowerWith Js.lowerLatin1 x = Js.lowerLatin1 x) as E
    by (intros x; unfold Js.lowerWith; now destruct (Js.isLatin1 x)).
  rewrite E. apply lowerLatin1_trim_fixed.
Qed.

(** So the property is not an empty demand: there is an engine with it
    that lower-cases Latin-1 text as written out and leaves the other code
    points as they are. *)
Lemma latin1_engine :
  exists engine : Js.Unicode, forall s, @Js.toLowerCase engine s = Js.lowerLatin1 s.
Proof.
  exists (Js.mkUnicode Js.lowerLatin1 (fun s _ => lowerLatin1_lawful s)).
  intros s. unfold Js.toLowerCase, Js.lowerWith. simpl. now destruct (Js.isLatin1 s).
Qed.

End Latin1Facts.

(* ===================================================================== *)
(** ** Properties of the normalizers *)
(* ===================================================================== *)

Section NormalizerFacts.
Context {Store : Type} {storage : Storage Store} {host : Host}.
#[local] Abbreviation M := (M Store).

Lemma forallb_filter_same {A} (p : A -> bool) l : forallb p (List.filter p l) = true.
Proof.
  induction l as [|a l IH]; simpl; [reflexivity|].
  destruct (p a) eqn:E; simpl; [now rewrite E|exact IH].
Qed.

(** C6 (amended). For every input the phone normalizer returns the
    input without the characters that are neither a digit nor a plus sign
    (plus signs are kept wherever they are); it logs no error; it logs a
    warning exactly when the result has fewer than 10 digits and a fix
    exactly when the result differs from the input. *)
Theorem normalizePhone_keeps_digits_and_pluses phone (st : ImportState Store) :
  exists st',
    normalizePhone phone st
    = (Normal (Js.str (List.filter isPhoneChar (Js.chars phone))), st')
    /\ digitsAndPluses (Js.str (List.filter isPhoneChar (Js.chars phone))) = true
    /\ errors (stLog st') = errors (stLog st)
    /\ warnings (stLog st')
       = warnings (stLog st)
         ++ (if (digitCount (Js.str (List.filter isPhoneChar (Js.chars phone))) <? 10)%nat
             then ["Phone number " +:+ dq +:+ phone +:+ dq +:+ " appears to be too short"]
             else [])
    /\ fixesApplied (stLog st')
       = fixesApplied (stLog st)
         ++ (if String.eqb (Js.str (List.filter isPhoneChar (Js.chars phone))) phone
             then []
             else ["Cleaned phone number from " +:+ dq +:+ phone +:+ dq +:+ " to "
                     +:+ dq +:+ Js.str (List.filter isPhoneChar (Js.chars phone)) +:+ dq]).
Proof.
  unfold normalizePhone, digitsAndPluses, digitCount. cbv zeta.
  set (cleaned := Js.str (List.filter isPhoneChar (Js.chars phone))).
  unfold mbind, M_bind.
  destruct (length (List.filter Js.isDigit (Js.chars cleaned)) <? 10)%nat;
    destruct (String.eqb cleaned phone); simpl;
    (eexists; split; [reflexivity|]); simpl;
    unfold cleaned; rewrite chars_str, forallb_filter_same, ?app_nil_r;
    repeat split.
Qed.

Lemma canonical_shape s :
  isCanonicalIntake s = true ->
  exists y1 y2 y3 y4 season,
    s = String y1 (String y2 (String y3 (String y4 (String "-" season))))
    /\ Js.isDigit y1 = true /\ Js.isDigit y2 = true
    /\ Js.isDigit y3 = true /\ Js.isDigit y4 = true
    /\ (season = "Spring" \/ season = "Summer" \/ season = "Fall" \/ season = "Winter").
Proof.
  unfold isCanonicalIntake.
  destruct s as [|y1 [|y2 [|y3 [|y4 [|dash season]]]]]; simpl; try discriminate.
  fold (Js.chars season). rewrite str_chars. intros E.
  rewrite !andb_true_iff in E. destruct E as (((((E1 & E2) & E3) & E4) & E5) & E6).
  apply Ascii.eqb_eq in E5. subst dash.
  exists y1, y2, y3, y4, season. repeat split; try assumption.
  unfold seasons in E6. simpl in E6. rewrite !orb_true_iff in E6.
  destruct E6 as [E6|[E6|[E6|[E6|E6]]]]; try discriminate;
    apply String.eqb_eq in E6; auto.
Qed.

Lemma findSeason_skip_digit d l :
  Js.isDigit d = true -> findSeason (Js.str (d :: l)) = findSeason (Js.str l).
Proof.
  intros Ed. unfold findSeason, seasonMap, Js.includes.
  cbn [List.find fst snd]. rewrite !chars_str.
  cbn [Js.chars list_ascii_of_string].
  rewrite !(isInfix_skip_digit _ _ d l) by (reflexivity || assumption).
  reflexivity.
Qed.

Lemma matchPrefix_yearPattern l m rest :
  Js.matchPrefix yearPattern l = Some (m, rest) ->
  exists a b c d,
    m = [a; b; c; d] /\ Js.isDigit a = true /\ Js.isDigit b = true
    /\ Js.isDigit c = true /\ Js.isDigit d = true.
Proof.
  unfold yearPattern. destruct l as [|a [|b [|c [|d tail]]]]; simpl;
    repeat match goal with
           | |- context [if Js.isDigit ?x then _ else _] =>
               let E := fresh "E" in destruct (Js.isDigit x) eqn:E
           end; try discriminate.
  intros R. inversion R; subst. exists a, b, c, d. auto.
Qed.

Lemma search_yearPattern l m :
  Js.search yearPattern l = Some m ->
  exists a b c d,
    m = [a; b; c; d] /\ Js.isDigit a = true /\ Js.isDigit b = true
    /\ Js.isDigit c = true /\ Js.isDigit d = true.
Proof.
  induction l as [|x l IH]; cbn [Js.search].
  - destruct (Js.matchPrefix yearPattern []) as [[m' rest]|] eqn:E; [|discriminate].
    intros R. inversion R; subst. eapply matchPrefix_yearPattern; eauto.
  - destruct (Js.matchPrefix yearPattern (x :: l)) as [[m' rest]|] eqn:E; [|exact IH].
    intros R. inversion R; subst. eapply matchPrefix_yearPattern; eauto.
Qed.

Lemma findSeason_in s v : findSeason s = Some v -> In v seasons.
Proof.
  unfold findSeason, seasonMap. cbn [List.find fst snd].
  repeat match goal with
         | |- context [if Js.includes s ?k then _ else _] =>
             destruct (Js.includes s k);
             [intros R; inversion R; subst; simpl; tauto|]
         end.
  discriminate.
Qed.

Lemma canonical_build a b c d season :
  Js.isDigit a = true -> Js.isDigit b = true -> Js.isDigit c = true ->
  Js.isDigit d = true -> In season seasons ->
  isCanonicalIntake (Js.str [a; b; c; d] +:+ "-" +:+ season) = true.
Proof.
  intros Da Db Dc Dd Hs.
  change (Js.str [a; b; c; d] +:+ "-" +:+ season)
    with (String a (String b (String c (String d (String "-" season))))).
  unfold isCanonicalIntake. cbn [Js.chars list_ascii_of_string]. fold (Js.chars season).
  rewrite str_chars, Da, Db, Dc, Dd. simpl.
  destruct Hs as [<-|[<-|[<-|[<-|[]]]]]; reflexivity.
Qed.

(** C8. On an intake that already is four digits, a dash and one of
    [Spring], [Summer], [Fall], [Winter], the intake normalizer returns
    its input and leaves the whole state as it was: no fix, no field issue,
    no reading of the clock. And whenever the input holds a run of four
    digits, the output is of that form, so that normalizing it again returns
    it unchanged and logs nothing more. *)
Theorem normalizeIntake_canonical_fixpoint :
  (forall intake (st : ImportState Store),
     isCanonicalIntake intake = true ->
     normalizeIntake intake st = (Normal intake, st))
  /\ (forall intake (st : ImportState Store),
        Js.search yearPattern (Js.chars (Js.toLowerCase intake)) <> None ->
        exists r st',
          normalizeIntake intake st = (Normal r, st')
          /\ isCanonicalIntake r = true
          /\ normalizeIntake r st' = (Normal r, st')).
Proof.
  assert (forall intake (st : ImportState Store),
            isCanonicalIntake intake = true ->
            normalizeIntake intake st = (Normal intake, st)) as Hfix.
  { intros intake st.
    intros C. destruct (canonical_shape _ C)
      as (y1 & y2 & y3 & y4 & season & Hi & D1 & D2 & D3 & D4 & Hs).
    subst intake. clear C.
    unfold normalizeIntake. cbv zeta.
    assert (forall tail,
              Js.isLatin1 tail = true ->
              Js.toLowerCase (String y1 (String y2 (String y3 (String y4 tail))))
              = Js.str (y1 :: y2 :: y3 :: y4 :: Js.lowerFrom false (Js.chars tail))) as Hlow.
    { intros tail Ht. rewrite toLowerCase_latin1.
      - unfold Js.lowerLatin1. simpl.
        rewrite !lowerByte_digit, !digit_not_lead by assumption. reflexivity.
      - unfold Js.isLatin1 in *. cbn [Js.chars list_ascii_of_string forallb].
        fold (Js.chars tail). rewrite Ht, !digit_latin1 by assumption. reflexivity. }
    assert (Js.isLatin1 (String "-" season) = true) as Hl
      by (destruct Hs as [-> | [-> | [-> | ->]]]; reflexivity).
    rewrite (Hlow _ Hl), chars_str.
    assert (forall tail, Js.search yearPattern (y1 :: y2 :: y3 :: y4 :: tail)
                         = Some [y1; y2; y3; y4]) as ->.
    { intros tail. unfold yearPattern. simpl. now rewrite D1, D2, D3, D4. }
    rewrite !findSeason_skip_digit by assumption.
    cbn [Js.chars list_ascii_of_string]. fold (Js.chars season).
    match goal with |- ?G =>
      assert (forall lowered,
                findSeason (Js.str (Js.lowerFrom false ("-"%char :: Js.chars season)))
                = Some lowered ->
                lowered = season -> G) as Hrun
    end.
    { intros lowered E ->. rewrite E. unfold mbind, M_bind, mret, M_ret.
      change (Js.str [y1; y2; y3; y4] +:+ "-" +:+ season)
        with (String y1 (String y2 (String y3 (String y4 (String "-" season))))).
      now rewrite String.eqb_refl. }
    destruct Hs as [-> | [-> | [-> | ->]]]; eapply Hrun; vm_compute; reflexivity. }
  split; [exact Hfix|].
  intros intake st Hy.
  destruct (Js.search yearPattern (Js.chars (Js.toLowerCase intake))) as [m|] eqn:Em;
    [|congruence].
  destruct (search_yearPattern _ _ Em) as (a & b & c & d & -> & Da & Db & Dc & Dd).
  assert (exists season st',
            normalizeIntake intake st
            = (Normal (Js.str [a; b; c; d] +:+ "-" +:+ season), st')
            /\ In season seasons) as (season & st' & E & Hs).
  { unfold normalizeIntake. cbv zeta. rewrite Em.
    rewrite (bind_normal _ _ st (Js.str [a; b; c; d]) st eq_refl).
    destruct (findSeason (Js.toLowerCase intake)) as [v|] eqn:Ev.
    - rewrite (bind_normal _ _ st v st eq_refl).
      exists v. apply findSeason_in in Ev.
      match goal with |- context [when (negb ?t)] => destruct t end;
        cbn [negb when]; unfold mbind, M_bind; eexists; split; try reflexivity;
        exact Ev.
    - rewrite (bind_normal _ _ st "Fall"
                 (snd (pushFix "Added default season Fall to intake" st)) eq_refl).
      exists "Fall".
      match goal with |- context [when (negb ?t)] => destruct t end;
        cbn [negb when]; unfold mbind, M_bind; eexists; split; try reflexivity;
        simpl; tauto. }
  exists (Js.str [a; b; c; d] +:+ "-" +:+ season), st'.
  pose proof (canonical_build a b c d season Da Db Dc Dd Hs) as Hc.
  split; [exact E|]. split; [exact Hc|]. now apply Hfix.
Qed.

End NormalizerFacts.

(* ===================================================================== *)
(** ** Stage and country *)
(* ===================================================================== *)

Section StageFacts.
Context {Store : Type} {storage : Storage Store} {host : Host}.
#[local] Abbreviation M := (M Store).

Lemma returns_ret {A} (a : A) (Q : A -> Prop) : Q a -> returns (mret a : M A) Q.
Proof. intros HQ st a' st' E. inversion E; subst. exact HQ. Qed.

Lemma returns_bind {A B} (m : M A) (f : A -> M B) (P : A -> Prop) (Q : B -> Prop) :
  returns m P -> (forall a, P a -> returns (f a) Q) -> returns (m ≫= f) Q.
Proof.
  intros Hm Hf st b st' E.
  apply bind_inv in E as [(a & s1 & E1 & E2)|(e & _ & E2)]; [|discriminate].
  eapply Hf; eauto.
Qed.

Lemma returns_any {A B} (m : M A) (f : A -> M B) (Q : B -> Prop) :
  (forall a, returns (f a) Q) -> returns (m ≫= f) Q.
Proof. intros Hf. apply (returns_bind m f (fun _ => True)); [easy|auto]. Qed.

Lemma returns_trimmedField path v :
  returns (trimmedField path v : M _) (fun r => r = explicitStage v).
Proof.
  intros st r st'. unfold trimmedField, explicitStage.
  destruct v as [[|s|[] t|]|]; simpl; try (intros E; inversion E; reflexivity);
    try discriminate.
  destruct (String.eqb s ""); [intros E; inversion E; reflexivity|].
  destruct (String.eqb (Js.trim s) ""); intros E; inversion E; reflexivity.
Qed.

(** The validator stores the requested stage, or [Yet to Assign] when
    the record asks for none. *)
Lemma normalizeAndValidateLead_stage f :
  returns (normalizeAndValidateLead (ObjectLead f) : M _)
    (fun n => currentStage n
              = default "Yet to Assign" (explicitStage (f !! "currentStage"))).
Proof.
  unfold normalizeAndValidateLead.
  do 4 (apply returns_any; intros ?).
  eapply returns_bind; [apply returns_trimmedField|]. intros stageField ->.
  eapply (returns_bind _ _
            (fun s => s = default "Yet to Assign" (explicitStage (f !! "currentStage")))).
  { destruct (explicitStage (f !! "currentStage")) as [s|]; simpl.
    - now apply returns_ret.
    - do 2 (apply returns_any; intros ?). now apply returns_ret. }
  intros stage ->.
  do 13 (apply returns_any; intros ?). now apply returns_ret.
Qed.

Lemma explicitStage_trimmed v s :
  explicitStage v = Some s -> s <> "" /\ Js.trim s = s.
Proof.
  unfold explicitStage. destruct v as [[|s0| |]|]; try discriminate.
  destruct (String.eqb s0 ""); [discriminate|].
  destruct (String.eqb (Js.trim s0) "") eqn:E; [discriminate|].
  intros R. inversion R; subst s. apply String.eqb_neq in E.
  split; [exact E|apply trim_idempotent].
Qed.

Lemma determineOptimalStage_requested cid s :
  s <> "" -> Js.trim s = s -> determineOptimalStage cid (Some s) = s.
Proof.
  intros Hs Ht. unfold determineOptimalStage. cbv zeta. simpl default. rewrite Ht.
  apply String.eqb_neq in Hs. now rewrite Hs.
Qed.

(** The stage that normalization followed by the business rules gives
    to a lead: the trimmed stage of the record when it has one, and
    [Yet to Assign] otherwise, with or without a counselor. The branches of
    [determineOptimalStage] that return [Yet to Contact] are never
    reached. *)
Lemma pipeline_stage f roster (st : ImportState Store) n st' :
  normalizeAndValidateLead (ObjectLead f) st = (Normal n, st') ->
  blCurrentStage (applyBusinessLogic n (counselors roster) (defaultCounselor roster)
                    (managerId roster))
  = default "Yet to Assign" (explicitStage (f !! "currentStage")).
Proof.
  intros E. apply normalizeAndValidateLead_stage in E.
  unfold applyBusinessLogic. simpl. rewrite E.
  destruct (explicitStage (f !! "currentStage")) as [s|] eqn:Es; simpl.
  - destruct (explicitStage_trimmed _ _ Es). now apply determineOptimalStage_requested.
  - reflexivity.
Qed.

(** C5 (as the code has it). A record without any field, whatever the
    roster and the state: the validator completes, and the stage of the
    lead after the business rules is [Yet to Assign], not [Yet to Contact];
    the stage history is therefore not written either. *)
Theorem missing_stage_stays_unassigned roster (st : ImportState Store) :
  exists n st',
    normalizeAndValidateLead (ObjectLead ∅) st = (Normal n, st')
    /\ blCurrentStage (applyBusinessLogic n (counselors roster)
                         (defaultCounselor roster) (managerId roster))
       = "Yet to Assign"
    /\ blCurrentStage (applyBusinessLogic n (counselors roster)
                         (defaultCounselor roster) (managerId roster))
       <> "Yet to Contact"
    /\ determineOptimalStage None None = "Yet to Contact".
Proof.
  destruct (normalizeAndValidateLead (ObjectLead ∅) st) as [c st'] eqn:E.
  assert (isThrow c = false) as Hc.
  { change c with (fst (c, st')). rewrite <- E. vm_compute. reflexivity. }
  destruct c as [n|e]; [|discriminate]. exists n, st'. split; [reflexivity|].
  rewrite (pipeline_stage _ roster _ _ _ E). repeat split. discriminate.
Qed.

Lemma normalizeCountry_spec country (st : ImportState Store) :
  match countryMap !! Js.trim (Js.toLowerCase country) with
  | Some iso =>
      exists st',
        normalizeCountry country st = (Normal (CountryText iso), st')
        /\ warnings (stLog st') = warnings (stLog st)
        /\ errors (stLog st') = errors (stLog st)
        /\ fixesApplied (stLog st')
           = fixesApplied (stLog st)
             ++ (if String.eqb iso country then []
                 else ["Normalized country from " +:+ dq +:+ country +:+ dq +:+ " to "
                         +:+ dq +:+ iso +:+ dq])
  | None =>
      Js.trim (Js.toLowerCase country) <> "constructor" ->
      Js.trim (Js.toLowerCase country) <> "__proto__" ->
      exists st',
        normalizeCountry country st = (Normal (CountryText country), st')
        /\ fixesApplied (stLog st') = fixesApplied (stLog st)
        /\ errors (stLog st') = errors (stLog st)
        /\ warnings (stLog st')
           = warnings (stLog st)
             ++ ["Country " +:+ dq +:+ country +:+ dq
                   +:+ " could not be normalized to ISO code"]
  end.
Proof.
  unfold normalizeCountry, countryMapGet. cbv zeta.
  destruct (countryMap !! Js.trim (Js.toLowerCase country)) as [iso|].
  - unfold differsFrom, mbind, M_bind. destruct (String.eqb iso country); simpl;
      eexists; (split; [reflexivity|]); simpl; rewrite ?app_nil_r; repeat split.
  - intros N1 N2. destruct (decide _); [contradiction|].
    destruct (decide _); [contradiction|].
    eexists. split; [reflexivity|]. simpl. repeat split.
Qed.

(** C9 (as the code has it). The country [constructor] is not a key of
    the alias table, yet the look-up finds the member of that name that the
    table object inherits: the normalizer returns that function instead of
    the string, logs a fix and logs no warning. *)
Theorem normalizeCountry_inherited_key (st : ImportState Store) :
  countryMap !! Js.trim (Js.toLowerCase "constructor") = None
  /\ fst (normalizeCountry "constructor" st) = Normal (CountryInherited ObjectConstructor)
  /\ fst (normalizeCountry "constructor" st) <> Normal (CountryText "constructor")
  /\ warnings (stLog (snd (normalizeCountry "constructor" st))) = warnings (stLog st)
  /\ fixesApplied (stLog (snd (normalizeCountry "constructor" st)))
     = fixesApplied (stLog st)
       ++ ["Normalized country from " +:+ dq +:+ "constructor" +:+ dq +:+ " to "
             +:+ dq +:+ "function Object() { [native code] }" +:+ dq].
Proof.
  split; [vm_compute; reflexivity|].
  split; [vm_compute; reflexivity|].
  split; [vm_compute; discriminate|].
  split; vm_compute; reflexivity.
Qed.

End StageFacts.

(* ===================================================================== *)
(** ** The properties on concrete runs *)
(* ===================================================================== *)

Lemma memoryStore_reliable : @reliableStore _ Examples.memoryStore.
Proof. repeat split; intros; eexists; try eexists; reflexivity. Qed.

Lemma row_status_classification_witness :
  match @processRow _ Examples.pickyStore Examples.host false Examples.roster 0 1
          (Examples.lead "U2") (initialState []) with
  | (Normal _, st') =>
      exists entry,
        stValidationLog st' = [entry]
        /\ (status entry = Failed
            <-> isThrow (@tryOutcome _ Examples.pickyStore Examples.host false
                           Examples.roster 0 1 (Examples.lead "U2") (initialState []))
                = true)
  | (Throw _, _) => False
  end.
Proof.
  pose proof (proj1 (@row_status_classification _ Examples.pickyStore Examples.host)
                false Examples.roster 0 1 (Examples.lead "U2") (initialState [])) as C.
  destruct (@processRow _ Examples.pickyStore Examples.host false Examples.roster 0 1
              (Examples.lead "U2") (initialState [])) as [[[]|e] st'] eqn:E.
  - destruct C as (entry & V & F & _). exists entry. split; [exact V|exact F].
  - vm_compute in E. discriminate E.
Defined.

Lemma processBulkLeadImport_never_throws_witness :
  1 <= 2 /\ (length Examples.batch < 4)%nat
  /\ exists result store',
       @processBulkLeadImport _ Examples.failingStore Examples.host 4 Examples.batch
         false 2 tt
       = Some (Normal result, store')
       /\ success result = true.
Proof.
  split; [lia|]. split; [simpl; lia|].
  apply (@processBulkLeadImport_never_throws _ Examples.failingStore Examples.host);
    [lia|simpl; lia].
Defined.

Lemma single_failing_row_is_isolated_witness :
  (1 < length Examples.batch)%nat
  /\ @chunkTrace _ Examples.pickyStore Examples.host false Examples.roster (0 * 3) 0
       Examples.batch (initialState [])
     = replicate 1 (Normal tt)
       ++ Throw (ThrownError "Error" "duplicate key value")
          :: replicate (length Examples.batch - 2) (Normal tt)
  /\ readable (ThrownError "Error" "duplicate key value") = true
  /\ exists st' entries,
       @processChunk _ Examples.pickyStore Examples.host false Examples.roster 3 0
         Examples.batch (initialState [])
       = (Normal tt, st')
       /\ stValidationLog st' = entries
       /\ length entries = 3%nat
       /\ stSuccessfulChunks st' = 1
       /\ stFailedChunks st' = 0.
Proof.
  assert (@chunkTrace _ Examples.pickyStore Examples.host false Examples.roster (0 * 3) 0
            Examples.batch (initialState [])
          = replicate 1 (Normal tt)
            ++ Throw (ThrownError "Error" "duplicate key value")
               :: replicate (length Examples.batch - 2) (Normal tt)) as T
    by (vm_compute; reflexivity).
  split; [simpl; lia|]. split; [exact T|]. split; [reflexivity|].
  destruct (@single_failing_row_is_isolated _ Examples.pickyStore Examples.host false
              Examples.roster 3 0 Examples.batch (initialState []) 1
              (ThrownError "Error" "duplicate key value")
              ltac:(simpl; lia) T eq_refl)
    as (st' & entries & E & V & L & _ & _ & _ & _ & _ & S1 & S2).
  exists st', entries. repeat split; assumption.
Defined.

Lemma normalizeIntake_canonical_fixpoint_witness :
  isCanonicalIntake "2025-Fall" = true
  /\ @normalizeIntake unit Examples.host "2025-Fall" (initialState tt)
     = (Normal "2025-Fall", initialState tt).
Proof.
  split; [reflexivity|].
  apply (proj1 (@normalizeIntake_canonical_fixpoint unit Examples.host)). reflexivity.
Defined.

Lemma processBulkLeadImport_termination_witness :
  (1 <= 2
   /\ exists outcome, forall fuel, (length Examples.batch < fuel)%nat ->
        @processBulkLeadImport _ Examples.memoryStore Examples.host fuel Examples.batch
          true 2 []
        = Some outcome)
  /\ (0 <= 0 /\ Examples.batch <> []
      /\ forall fuel,
           @processBulkLeadImport _ Examples.memoryStore Examples.host fuel Examples.batch
             true 0 []
           = None).
Proof.
  destruct (@processBulkLeadImport_termination _ Examples.memoryStore Examples.host
              Examples.batch true []) as [T D].
  split.
  - split; [lia|]. apply T. lia.
  - split; [lia|]. split; [discriminate|]. intros fuel.
    apply (D 0 ltac:(lia) ltac:(discriminate) fuel).
Defined.

(** C4 as written fails in two ways. A rejection with [new Error()]: the row
    is [Failed], but what its [errors] receive is the fallback text of the
    handler, not the (empty) message of the exception. A rejection with
    [undefined] on the last row of a chunk of two: the handler of the row
    throws, the chunk-level handler takes over, both rows are logged as
    failed (the first one a second time), and [failedChunks], not
    [successfulChunks], is incremented. *)
Lemma failing_row_not_always_isolated :
  (@tryOutcome _ Examples.silentStore Examples.host false Examples.roster 0 1
     (Examples.lead "U2") (initialState [])
   = Throw (ThrownError "Error" "")
   /\ match @processRow _ Examples.silentStore Examples.host false Examples.roster 0 1
              (Examples.lead "U2") (initialState []) with
      | (Normal _, st') =>
          map (fun entry => (status entry, errors entry)) (stValidationLog st')
          = [(Failed, ["Unknown error during processing"])]
          /\ map errors (stValidationLog st') <> [[""]]
      | (Throw _, _) => False
      end)
  /\ (@chunkTrace _ Examples.rejectingStore Examples.host false Examples.roster (0 * 2) 0
        [Examples.lead "U1"; Examples.lead "U2"] (initialState [])
      = [Normal tt; Throw ThrownUndefined]
      /\ match @processChunk _ Examples.rejectingStore Examples.host false Examples.roster
                 2 0 [Examples.lead "U1"; Examples.lead "U2"] (initialState []) with
         | (Normal _, st') =>
             map (fun entry => (rowNumber entry, status entry)) (stValidationLog st')
             = [(1, ImportedWithIssues); (1, Failed); (2, Failed)]
             /\ stSuccessfulChunks st' = 0
             /\ stFailedChunks st' = 1
         | (Throw _, _) => False
         end).
Proof.
  vm_compute. repeat split. discriminate.
Qed.

(** The claim of C6 as written fails on a plus sign that is not in first
    position: it is kept. *)
Lemma normalizePhone_keeps_inner_plus :
  "1+2" <> ""
  /\ fst (@normalizePhone unit "1+2" (initialState tt)) = Normal "1+2"
  /\ digitsWithLeadingPlus "1+2" = false.
Proof. repeat split. discriminate. Qed.

(* ===================================================================== *)
(** * Further properties *)
(* ===================================================================== *)

Create HintDb keeps.

Section KeepFacts.
Context {Store : Type} {storage : Storage Store} {host : Host}.
#[local] Abbreviation M := (M Store).
Variable I : ImportState Store -> Prop.

Lemma keeps_ret {A} (a : A) : keeps I (mret a : M A).
Proof. intros st H. exact H. Qed.

Lemma keeps_throw {A} e : keeps I (throw e : M A).
Proof. intros st H. exact H. Qed.

Lemma keeps_bind {A B} (m : M A) (f : A -> M B) :
  keeps I m -> (forall a, keeps I (f a)) -> keeps I (m ≫= f).
Proof.
  intros Hm Hf st H. unfold mbind, M_bind. specialize (Hm st H).
  destruct (m st) as [[a|e] st1]; simpl in *; [now apply Hf|exact Hm].
Qed.

Lemma keeps_fmap {A B} (g : A -> B) (m : M A) : keeps I m -> keeps I (g <$> m).
Proof.
  intros Hm st H. unfold fmap, M_fmap. specialize (Hm st H).
  destruct (m st) as [[a|e] st1]; exact Hm.
Qed.

Lemma keeps_tryCatch {A} (body : M A) handler :
  keeps I body -> (forall e, keeps I (handler e)) -> keeps I (tryCatch body handler).
Proof.
  intros Hb Hh st H. unfold tryCatch. specialize (Hb st H).
  destruct (body st) as [[a|e] st1]; simpl in *; [exact Hb|now apply Hh].
Qed.

Lemma keeps_when b (m : M unit) : keeps I m -> keeps I (when b m).
Proof. destruct b; simpl; auto using keeps_ret. Qed.

Lemma keeps_getLog : keeps I (getLog : M _).
Proof. intros st H. exact H. Qed.

Lemma keeps_liftCompletion {A} (c : Completion A) : keeps I (liftCompletion c : M A).
Proof. intros st H. exact H. Qed.

End KeepFacts.

#[export] Hint Resolve keeps_ret keeps_throw keeps_fmap keeps_when keeps_getLog
  keeps_liftCompletion : keeps.

Ltac keeps_step :=
  lazymatch goal with
  | |- keeps _ (mbind _ _) => apply keeps_bind; [|intros ?]
  | |- keeps _ (tryCatch _ _) => apply keeps_tryCatch; [|intros ?]
  | |- keeps _ (when _ _) => apply keeps_when
  | |- keeps _ (fmap _ _) => apply keeps_fmap
  | |- keeps _ (match ?x with _ => _ end) => destruct x
  | |- keeps _ _ => solve [auto with keeps]
  end.
Ltac solve_keeps := cbv zeta; repeat keeps_step.

(* ===================================================================== *)
(** ** Every completed row carries a warning or a fix *)
(* ===================================================================== *)

Section FlagFacts.
Context {Store : Type} {storage : Storage Store} {host : Host}.
#[local] Abbreviation M := (M Store).

Lemma flagged_classified log :
  flagged log = true -> classified log = ImportedWithIssues.
Proof. unfold flagged, classified. now intros ->. Qed.

Lemma keeps_flag_pushFix msg : keeps isFlagged (pushFix msg : M unit).
Proof.
  intros st H. unfold isFlagged, flagged in *. simpl.
  rewrite length_app. simpl. apply orb_true_iff. right. apply Nat.ltb_lt. lia.
Qed.
Lemma keeps_flag_pushWarning msg : keeps isFlagged (pushWarning msg : M unit).
Proof.
  intros st H. unfold isFlagged, flagged in *. simpl.
  rewrite length_app. simpl. apply orb_true_iff. left. apply Nat.ltb_lt. lia.
Qed.
Lemma keeps_flag_pushError msg : keeps isFlagged (pushError msg : M unit).
Proof. intros st H. exact H. Qed.
Lemma keeps_flag_setNormalizedData d : keeps isFlagged (setNormalizedData d : M unit).
Proof. intros st H. exact H. Qed.
Lemma keeps_flag_dateNow : keeps isFlagged (dateNow : M Z).
Proof. intros st H. exact H. Qed.
Lemma keeps_flag_addFieldIssue f i : keeps isFlagged (addFieldIssue f i : M unit).
Proof. intros st H. exact H. Qed.
Lemma keeps_flag_liftStore {A} (op : Store -> Completion A * Store) :
  keeps isFlagged (liftStore op).
Proof. intros st H. unfold liftStore. destruct (op (stStore st)). exact H. Qed.

Lemma flags_throw {A} e : flags (throw e : M A).
Proof. intros st a st' E. discriminate. Qed.

Lemma flags_bind_l {A B} (m : M A) (f : A -> M B) :
  flags m -> (forall a, keeps isFlagged (f a)) -> flags (m ≫= f).
Proof.
  intros Hm Hf st b st' E.
  apply bind_inv in E as [(a & s1 & E1 & E2)|(e & _ & E2)]; [|discriminate].
  change st' with (snd (Normal b : Completion B, st')). rewrite <- E2.
  apply Hf. eapply Hm. exact E1.
Qed.

Lemma flags_bind_r {A B} (m : M A) (f : A -> M B) :
  (forall a, flags (f a)) -> flags (m ≫= f).
Proof.
  intros Hf st b st' E.
  apply bind_inv in E as [(a & s1 & E1 & E2)|(e & _ & E2)]; [|discriminate].
  eapply Hf. exact E2.
Qed.

Lemma flags_fmap {A B} (g : A -> B) (m : M A) : flags m -> flags (g <$> m).
Proof.
  intros Hm st b st' E. unfold fmap, M_fmap in E.
  destruct (m st) as [[a|e] s1] eqn:E1; inversion E; subst. eapply Hm. exact E1.
Qed.

Lemma flags_pushFix msg : flags (pushFix msg : M unit).
Proof.
  intros st a st' E. inversion E; subst. unfold isFlagged, flagged. simpl.
  rewrite length_app. simpl. apply orb_true_iff. right. apply Nat.ltb_lt. lia.
Qed.
Lemma flags_pushWarning msg : flags (pushWarning msg : M unit).
Proof.
  intros st a st' E. inversion E; subst. unfold isFlagged, flagged. simpl.
  rewrite length_app. simpl. apply orb_true_iff. left. apply Nat.ltb_lt. lia.
Qed.

End FlagFacts.

#[export] Hint Resolve keeps_flag_pushFix keeps_flag_pushWarning keeps_flag_pushError
  keeps_flag_setNormalizedData keeps_flag_dateNow keeps_flag_addFieldIssue
  keeps_flag_liftStore : keeps.

Section FlagFacts2.
Context {Store : Type} {storage : Storage Store} {host : Host}.
#[local] Abbreviation M := (M Store).

Lemma keeps_flag_trimmedField path v : keeps isFlagged (trimmedField path v : M _).
Proof. unfold trimmedField. solve_keeps. Qed.
Lemma keeps_flag_normalizePhone p : keeps isFlagged (normalizePhone p : M _).
Proof. unfold normalizePhone. solve_keeps. Qed.
Lemma keeps_flag_normalizeEmail e : keeps isFlagged (normalizeEmail e : M _).
Proof. unfold normalizeEmail. solve_keeps. Qed.
Lemma keeps_flag_leadId newLead : keeps isFlagged (leadId newLead : M _).
Proof. unfold leadId. solve_keeps. Qed.
Hint Resolve keeps_flag_trimmedField keeps_flag_normalizePhone keeps_flag_normalizeEmail
  keeps_flag_leadId : keeps.

Lemma keeps_flag_persistLead roster n b : keeps isFlagged (persistLead roster n b : M _).
Proof. unfold persistLead. solve_keeps. Qed.

(** No key of the alias table is the lower-cased form of its own code:
    whatever the table gives differs from the text that was looked up. *)
Lemma countryMapGet_differs country mapped :
  countryMapGet (Js.trim (Js.toLowerCase country)) = Some mapped ->
  differsFrom mapped country = true.
Proof.
  unfold countryMapGet.
  destruct (countryMap !! Js.trim (Js.toLowerCase country)) as [iso|] eqn:E.
  - intros [= <-]. simpl. apply negb_true_iff. apply String.eqb_neq. intros ->.
    unfold countryMap in E. apply elem_of_list_to_map_2 in E.
    repeat (apply elem_of_cons in E as [E|E];
            [injection E as E1 E2; subst country; vm_compute in E1; discriminate|]).
    now apply elem_of_nil in E.
  - repeat case_decide; intros [= <-]; reflexivity.
Qed.

Lemma flags_normalizeCountry country : flags (normalizeCountry country : M _).
Proof.
  unfold normalizeCountry. cbv zeta.
  destruct (countryMapGet (Js.trim (Js.toLowerCase country))) as [mapped|] eqn:E.
  - rewrite (countryMapGet_differs _ _ E). cbn [when].
    apply flags_bind_l; [|intros ?; solve_keeps].
    apply flags_bind_l; [apply flags_pushFix|intros ?; solve_keeps].
  - apply flags_bind_l; [apply flags_pushWarning|intros ?; solve_keeps].
Qed.

(** The validator leaves a warning or a fix in the log of every record it
    accepts: an absent country is a warning, a country that is not in the
    alias table is a warning, and one that is in the table is a fix. *)
Lemma flags_normalizeAndValidateLead rawLead :
  flags (normalizeAndValidateLead rawLead : M _).
Proof.
  unfold normalizeAndValidateLead. destruct rawLead as [|f]; [apply flags_throw|].
  do 10 (apply flags_bind_r; intros ?).
  apply flags_bind_l; [|intros ?; solve_keeps].
  match goal with |- flags (match ?x with _ => _ end) => destruct x end.
  - apply flags_fmap, flags_normalizeCountry.
  - apply flags_bind_l; [apply flags_pushWarning|intros ?; solve_keeps].
Qed.

Lemma rowBody_flagged dryRun roster r (st0 : ImportState Store) st1 :
  rowBody dryRun roster r st0 = (Normal tt, st1) ->
  exists stp, rowFrame st0 stp /\ isFlagged stp /\ classifyRow stp = (Normal tt, st1).
Proof.
  unfold rowBody. intros E.
  pose proof (frames_normalizeAndValidateLead r st0) as F1.
  apply bind_inv in E as [(n & sa & E1 & E)|(e & _ & [=])].
  rewrite E1 in F1; simpl in F1.
  pose proof (flags_normalizeAndValidateLead r st0 n sa E1) as G1.
  cbv zeta in E.
  apply bind_inv in E as [([] & sb & E2 & E)|(e & _ & [=])].
  assert (rowFrame sa sb /\ isFlagged sb) as [F2 G2].
  { change sb with (snd (Normal tt : Completion unit, sb)). rewrite <- E2. split.
    - apply frames_setNormalizedData.
    - exact G1. }
  apply bind_inv in E as [([] & sc & E3 & E)|(e & _ & [=])].
  assert (rowFrame sb sc /\ isFlagged sc) as [F3 G3].
  { change sc with (snd (Normal tt : Completion unit, sc)). rewrite <- E3. split.
    - apply frames_when, frames_persistLead.
    - apply keeps_when; [apply keeps_flag_persistLead|exact G2]. }
  exists sc. split; [|split; assumption].
  transitivity sa; [assumption|]. transitivity sb; assumption.
Qed.

Lemma classifyRow_flagged (stp : ImportState Store) :
  isFlagged stp ->
  exists st1,
    classifyRow stp = (Normal tt, st1)
    /\ status (stLog st1) = ImportedWithIssues
    /\ importedCount st1 = importedCount stp
    /\ importedWithIssuesCount st1 = importedWithIssuesCount stp + 1
    /\ failedCount st1 = failedCount stp
    /\ stValidationLog st1 = stValidationLog stp.
Proof.
  unfold isFlagged, flagged, classifyRow, mbind, M_bind. simpl. intros ->. simpl.
  eexists. split; [reflexivity|]. simpl. repeat split.
Qed.

Lemma rowCatch_noClean e (st : ImportState Store) :
  importedCount (snd (rowCatch e st)) = importedCount st
  /\ stValidationLog (snd (rowCatch e st)) = stValidationLog st
  /\ (fst (rowCatch e st) = Normal tt -> status (stLog (snd (rowCatch e st))) = Failed).
Proof.
  unfold rowCatch, mbind, M_bind, liftCompletion. simpl.
  destruct (errorMessage e) as [m|e']; simpl; repeat split; discriminate.
Qed.

Lemma keeps_noClean_processRow dryRun roster start i r :
  keeps noCleanImport (processRow dryRun roster start i r : M _).
Proof.
  intros st [H0 HF]. unfold processRow.
  rewrite (bind_normal _ _ st tt (snd (startRow start i r st)) eq_refl).
  set (st0 := snd (startRow start i r st)).
  assert (importedCount st0 = 0 /\ stValidationLog st0 = stValidationLog st) as [I0 V0]
    by (split; [exact H0|reflexivity]).
  clearbody st0.
  destruct (rowBody dryRun roster r st0) as [[[]|e] st1] eqn:E1.
  - destruct (rowBody_flagged _ _ _ _ _ E1) as (stp & F & G & Ec).
    destruct (classifyRow_flagged stp G) as (st1' & Ec' & S1 & S2 & _ & _ & S3).
    rewrite Ec in Ec'. inversion Ec'; subst st1'. clear Ec'.
    destruct F as (F1 & F2 & _).
    erewrite bind_normal; [|unfold tryCatch; rewrite E1; reflexivity].
    simpl. split; simpl; [congruence|].
    rewrite S3, F1, V0. apply Forall_app. split; [exact HF|].
    constructor; [|constructor]. rewrite S1. discriminate.
  - apply rowBody_inv in E1 as E1'. destruct E1' as [(e0 & _ & F)|([=] & _)].
    destruct F as (F1 & F2 & _).
    destruct (rowCatch_noClean e st1) as (C1 & C2 & C3).
    destruct (rowCatch e st1) as [[[]|e'] st2] eqn:E2; simpl in *.
    + erewrite bind_normal; [|unfold tryCatch; rewrite E1; exact E2].
      simpl. split; simpl; [congruence|].
      rewrite C2, F1, V0. apply Forall_app. split; [exact HF|].
      constructor; [|constructor]. rewrite C3 by reflexivity. discriminate.
    + erewrite bind_throw; [|unfold tryCatch; rewrite E1; exact E2].
      simpl. split; simpl; [congruence|]. rewrite C2, F1, V0. exact HF.
Qed.

Lemma keeps_noClean_pushEntry entry :
  status entry <> Imported -> keeps noCleanImport (pushEntry entry : M unit).
Proof.
  intros S st [H0 HF]. split; [exact H0|]. simpl. apply Forall_app. split; [exact HF|].
  constructor; [exact S|constructor].
Qed.
Lemma keeps_noClean_incrFailed : keeps noCleanImport (incrFailed : M unit).
Proof. intros st H. exact H. Qed.
Lemma keeps_noClean_incrSuccessfulChunks :
  keeps noCleanImport (incrSuccessfulChunks : M unit).
Proof. intros st H. exact H. Qed.
Lemma keeps_noClean_incrFailedChunks : keeps noCleanImport (incrFailedChunks : M unit).
Proof. intros st H. exact H. Qed.

Lemma keeps_noClean_forRows dryRun roster start rows :
  forall i, keeps noCleanImport (forRows dryRun roster start i rows : M _).
Proof.
  induction rows as [|r rest IH]; intros i; simpl.
  - apply keeps_ret.
  - apply keeps_bind; [apply keeps_noClean_processRow|intros _; apply IH].
Qed.

Lemma keeps_noClean_failRows e start rows :
  forall i, keeps noCleanImport (failRows e start i rows : M _).
Proof.
  induction rows as [|r rest IH]; intros i; simpl.
  - apply keeps_ret.
  - apply keeps_bind; [apply keeps_noClean_pushEntry; discriminate|intros _].
    apply keeps_bind; [apply keeps_noClean_incrFailed|intros _; apply IH].
Qed.

Lemma keeps_noClean_processChunk dryRun roster size idx chunk :
  keeps noCleanImport (processChunk dryRun roster size idx chunk : M _).
Proof.
  unfold processChunk, chunkBody, chunkCatch. cbv zeta.
  apply keeps_tryCatch.
  - apply keeps_bind; [apply keeps_noClean_forRows|intros _].
    apply keeps_noClean_incrSuccessfulChunks.
  - intros e. apply keeps_bind; [apply keeps_noClean_incrFailedChunks|intros _].
    apply keeps_noClean_failRows.
Qed.

Lemma keeps_noClean_forChunks dryRun roster size chunks :
  forall idx, keeps noCleanImport (forChunks dryRun roster size idx chunks : M _).
Proof.
  induction chunks as [|c rest IH]; intros idx; simpl.
  - apply keeps_ret.
  - apply keeps_bind; [apply keeps_noClean_processChunk|intros _; apply IH].
Qed.

End FlagFacts2.

(* ===================================================================== *)
(** ** The table of field issues *)
(* ===================================================================== *)

Section IssueFacts.
Context {Store : Type} {storage : Storage Store} {host : Host}.
#[local] Abbreviation M := (M Store).

Lemma soundIssues_addIssue fieldName issue issues :
  In fieldName issueFields -> soundIssues issues ->
  soundIssues (addIssue fieldName issue issues).
Proof.
  intros Hin H k fi. unfold addIssue.
  destruct (decide (k = fieldName)) as [->|Hne].
  - rewrite lookup_insert_eq. intros [= <-]. split; [exact Hin|].
    unfold soundIssue. simpl.
    destruct (issues !! fieldName) as [cur|] eqn:E; simpl.
    + destruct (H _ _ E) as (_ & C1 & C2).
      destruct (length (samples cur) <? 5)%nat eqn:L.
      * apply Nat.ltb_lt in L. rewrite length_app. simpl. lia.
      * apply Nat.ltb_ge in L. lia.
    + lia.
  - rewrite lookup_insert_ne by congruence. apply H.
Qed.

Lemma keeps_issues_same {A} (m : M A) :
  (forall st, stFieldIssues (snd (m st)) = stFieldIssues st) -> keeps issuesSound m.
Proof. intros E st H. unfold issuesSound. now rewrite E. Qed.

Lemma keeps_issues_addFieldIssue fieldName issue :
  In fieldName issueFields -> keeps issuesSound (addFieldIssue fieldName issue : M unit).
Proof. intros Hin st H. now apply soundIssues_addIssue. Qed.

Lemma keeps_issues_liftStore {A} (op : Store -> Completion A * Store) :
  keeps issuesSound (liftStore op).
Proof. intros st H. unfold liftStore. destruct (op (stStore st)). exact H. Qed.

End IssueFacts.

#[export] Hint Resolve keeps_issues_liftStore : keeps.
#[export] Hint Extern 2 (keeps issuesSound _) =>
  (apply keeps_issues_same; intros ?; reflexivity) : keeps.
#[export] Hint Extern 2 (keeps issuesSound (addFieldIssue _ _)) =>
  (apply keeps_issues_addFieldIssue; unfold issueFields; simpl; tauto) : keeps.

Section IssueFacts2.
Context {Store : Type} {storage : Storage Store} {host : Host}.
#[local] Abbreviation M := (M Store).

Lemma keeps_issues_trimmedField path v : keeps issuesSound (trimmedField path v : M _).
Proof. unfold trimmedField. solve_keeps. Qed.
Lemma keeps_issues_normalizeIntake i : keeps issuesSound (normalizeIntake i : M _).
Proof. unfold normalizeIntake. solve_keeps. Qed.
Lemma keeps_issues_normalizeCountry c : keeps issuesSound (normalizeCountry c : M _).
Proof. unfold normalizeCountry. solve_keeps. Qed.
Lemma keeps_issues_normalizePhone p : keeps issuesSound (normalizePhone p : M _).
Proof. unfold normalizePhone. solve_keeps. Qed.
Lemma keeps_issues_normalizeEmail e : keeps issuesSound (normalizeEmail e : M _).
Proof. unfold normalizeEmail. solve_keeps. Qed.
Lemma keeps_issues_parseLeadDate v : keeps issuesSound (parseLeadDate v : M _).
Proof. unfold parseLeadDate. solve_keeps. Qed.
Lemma keeps_issues_leadId newLead : keeps issuesSound (leadId newLead : M _).
Proof. unfold leadId. solve_keeps. Qed.
Hint Resolve keeps_issues_trimmedField keeps_issues_normalizeIntake
  keeps_issues_normalizeCountry keeps_issues_normalizePhone keeps_issues_normalizeEmail
  keeps_issues_parseLeadDate keeps_issues_leadId : keeps.

Lemma keeps_issues_normalizeAndValidateLead rawLead :
  keeps issuesSound (normalizeAndValidateLead rawLead : M _).
Proof. unfold normalizeAndValidateLead. solve_keeps. Qed.
Lemma keeps_issues_persistLead roster n b :
  keeps issuesSound (persistLead roster n b : M _).
Proof. unfold persistLead. solve_keeps. Qed.
Hint Resolve keeps_issues_normalizeAndValidateLead keeps_issues_persistLead : keeps.

Lemma keeps_issues_processRow dryRun roster start i r :
  keeps issuesSound (processRow dryRun roster start i r : M _).
Proof. unfold processRow, startRow, rowBody, rowCatch, classifyRow. solve_keeps. Qed.

Lemma keeps_issues_forRows dryRun roster start rows :
  forall i, keeps issuesSound (forRows dryRun roster start i rows : M _).
Proof.
  induction rows as [|r rest IH]; intros i; simpl.
  - apply keeps_ret.
  - apply keeps_bind; [apply keeps_issues_processRow|intros _; apply IH].
Qed.

Lemma keeps_issues_failRows e start rows :
  forall i, keeps issuesSound (failRows e start i rows : M _).
Proof.
  induction rows as [|r rest IH]; intros i; simpl.
  - apply keeps_ret.
  - solve_keeps.
Qed.

Lemma keeps_issues_forChunks dryRun roster size chunks :
  forall idx, keeps issuesSound (forChunks dryRun roster size idx chunks : M _).
Proof.
  induction chunks as [|c rest IH]; intros idx; simpl.
  - apply keeps_ret.
  - apply keeps_bind; [|intros _; apply IH].
    unfold processChunk, chunkBody, chunkCatch. cbv zeta.
    apply keeps_tryCatch.
    + apply keeps_bind; [apply keeps_issues_forRows|intros _; solve_keeps].
    + intros e. apply keeps_bind; [solve_keeps|intros _; apply keeps_issues_failRows].
Qed.

End IssueFacts2.

(* ===================================================================== *)
(** ** Chunks and the order of the validation log *)
(* ===================================================================== *)

Section OrderFacts.
Context {Store : Type} {storage : Storage Store} {host : Host}.
#[local] Abbreviation M := (M Store).

(** The outcome of the splitting loop for a chunk size of at least 1. *)
Lemma splitLoop_full_chunks (rawLeads : list RawLead) size :
  1 <= size ->
  exists chunks,
    (forall fuel, (length rawLeads < fuel)%nat ->
                  splitLoop fuel rawLeads size 0 [] = Some chunks)
    /\ concat chunks = rawLeads
    /\ fullChunks size chunks
    /\ (forall k chunk, chunks !! k = Some chunk ->
          chunk <> [] /\ Z.of_nat (length chunk) <= size
          /\ chunk = take (Z.to_nat size) (drop (k * Z.to_nat size) rawLeads)).
Proof.
  intros Hs.
  destruct (splitLoop_spec rawLeads size Hs (S (length rawLeads)) 0 [] ltac:(lia) ltac:(lia))
    as (chunks & E & L & C & F & Sl).
  exists chunks. change ([] ++ chunks) with chunks in E.
  assert (forall k chunk, chunks !! k = Some chunk ->
            0 <= Z.of_nat k * size < Z.of_nat (length rawLeads)
            /\ chunk = take (Z.to_nat size) (drop (k * Z.to_nat size) rawLeads)
            /\ ((S k < length chunks)%nat ->
                Z.of_nat (k + 1) * size < Z.of_nat (length rawLeads))) as Hk.
  { intros k chunk Hl.
    assert (k < length chunks)%nat as Hlt by (eapply lookup_lt_Some; eauto).
    assert (0 < Z.of_nat (length rawLeads)) as Hn.
    { destruct rawLeads; [|simpl; lia]. simpl in L. rewrite ceilDiv_zero in L by lia. lia. }
    rewrite Z.sub_0_r, Z.max_r in L by lia.
    pose proof (ceilDiv_bounds (Z.of_nat (length rawLeads)) size Hs) as B.
    assert (0 <= Z.of_nat k * size < Z.of_nat (length rawLeads)) as Hi by nia.
    split; [exact Hi|]. split.
    - rewrite (Sl k chunk Hl). rewrite Z.add_0_l.
      rewrite slice_inside by (try exact Hi; exact Hs).
      f_equal. f_equal. nia.
    - intros Hlt'. nia. }
  split; [|split; [|split]].
  - intros fuel Hf. eapply splitLoop_enough_fuel; [|exact E]. lia.
  - rewrite C. reflexivity.
  - intros k chunk Hl Hlt. destruct (Hk k chunk Hl) as (Hi & -> & Hn).
    specialize (Hn Hlt). rewrite length_take, length_drop. nia.
  - intros k chunk Hl. destruct (Hk k chunk Hl) as (_ & Hc & _).
    rewrite Forall_forall in F. destruct (F chunk) as [F1 F2].
    { eapply list_elem_of_lookup_2; eauto. }
    repeat split; assumption.
Qed.

Lemma fullChunks_tail {A} size (chunk : list A) rest :
  fullChunks size (chunk :: rest) -> fullChunks size rest.
Proof. intros H k c Hl Hlt. apply (H (S k) c); [exact Hl|simpl; lia]. Qed.

(** The inner loop when the row-level handler deals with everything the
    rows throw: one entry per row, in the order of the rows, each with the
    number of its row and a copy of the row. *)
Lemma forRows_follow dryRun roster start rows :
  (forall r, throwsReadable (rowBody dryRun roster r : M _)) ->
  forall i (st : ImportState Store),
    exists st' entries,
      forRows dryRun roster start i rows st = (Normal tt, st')
      /\ stValidationLog st' = stValidationLog st ++ entries
      /\ map rowNumber entries = seqZ (start + i + 1) (Z.of_nat (length rows))
      /\ map originalData entries = map spread rows.
Proof.
  intros Hr. induction rows as [|r rest IH]; intros i st.
  - exists st, []. simpl. rewrite app_nil_r. repeat split.
  - assert (exists st1 entry,
              processRow dryRun roster start i r st = (Normal tt, st1)
              /\ stValidationLog st1 = stValidationLog st ++ [entry]
              /\ rowNumber entry = start + i + 1
              /\ originalData entry = spread r) as (st1 & entry & E1 & V1 & N1 & O1).
    { destruct (tryOutcome dryRun roster start i r st) as [[]|e] eqn:T.
      - destruct (processRow_normal _ _ _ _ _ _ T) as (st1 & entry & E1 & V1 & F1 & O1 & _).
        exists st1, entry. destruct F1 as [N1 _]. repeat split; assumption.
      - assert (readable e = true) as R.
        { unfold tryOutcome in T.
          destruct (rowBody dryRun roster r (snd (startRow start i r st)))
            as [c s1] eqn:E. simpl in T. subst c. eapply Hr; eauto. }
        destruct (processRow_caught _ _ _ _ _ _ _ T R)
          as (st1 & entry & E1 & V1 & F1 & O1 & _).
        exists st1, entry. destruct F1 as [N1 _]. repeat split; assumption. }
    destruct (IH (i + 1) st1) as (st' & entries & E & V & N & O).
    exists st', (entry :: entries). simpl forRows. rewrite (bind_normal _ _ _ _ _ E1).
    split; [exact E|]. split; [rewrite V, V1, <- app_assoc; reflexivity|].
    split.
    + simpl map. rewrite N, N1. rewrite (seqZ_cons (start + i + 1)) by (simpl; lia).
      f_equal. f_equal; simpl length; lia.
    + simpl. now rewrite O, O1.
Qed.

Lemma forChunks_follow dryRun roster size chunks :
  (forall r, throwsReadable (rowBody dryRun roster r : M _)) ->
  fullChunks size chunks ->
  forall idx (st : ImportState Store),
    exists st' entries,
      forChunks dryRun roster size idx chunks st = (Normal tt, st')
      /\ stValidationLog st' = stValidationLog st ++ entries
      /\ map rowNumber entries
         = seqZ (idx * size + 1) (Z.of_nat (length (concat chunks)))
      /\ map originalData entries = map spread (concat chunks).
Proof.
  intros Hr. induction chunks as [|chunk rest IH]; intros Hfull idx st.
  - exists st, []. simpl. rewrite app_nil_r. repeat split.
  - destruct (forRows_follow dryRun roster (idx * size) chunk Hr 0 st)
      as (st1 & entries1 & E1 & V1 & N1 & O1).
    assert (processChunk dryRun roster size idx chunk st
            = incrSuccessfulChunks st1) as Ep.
    { unfold processChunk, tryCatch, chunkBody. cbv zeta.
      rewrite (bind_normal _ _ _ _ _ E1). reflexivity. }
    destruct (IH (fullChunks_tail _ _ _ Hfull) (idx + 1) (snd (incrSuccessfulChunks st1)))
      as (st' & entries2 & E2 & V2 & N2 & O2).
    exists st', (entries1 ++ entries2). simpl forChunks.
    rewrite (bind_normal _ _ _ tt (snd (incrSuccessfulChunks st1)))
      by (rewrite Ep; reflexivity).
    split; [exact E2|]. split; [rewrite V2; simpl; rewrite V1, <- app_assoc; reflexivity|].
    split.
    + rewrite map_app, N1, N2. simpl concat. rewrite length_app, Nat2Z.inj_add.
      rewrite seqZ_app by lia. f_equal; [f_equal; lia|].
      destruct rest as [|next rest'].
      * simpl. rewrite !seqZ_nil by lia. reflexivity.
      * f_equal. rewrite <- (Hfull 0%nat chunk eq_refl) by (simpl; lia). lia.
    + simpl concat. now rewrite !map_app, O1, O2.
Qed.

(** What a call that returns has done: the chunks of the splitting loop
    went through the loop over the chunks, which completed, and the result
    is built from the state the loop left. *)
Lemma processBulkLeadImport_run rawLeads dryRun size (store : Store) fuel :
  1 <= size -> (length rawLeads < fuel)%nat ->
  exists chunks roster st3,
    concat chunks = rawLeads
    /\ fullChunks size chunks
    /\ forChunks dryRun roster size 0 chunks (snd (dateNow (initialState store)))
       = (Normal tt, st3)
    /\ processBulkLeadImport fuel rawLeads dryRun size store
       = Some (Normal
                 (mkImportResult true
                    (mkBatchSummary (Z.of_nat (length rawLeads)) (importedCount st3)
                       (importedWithIssuesCount st3) (failedCount st3)
                       (clock (stTicks st3) - clock 0)
                       (mkChunkStats (Z.of_nat (length chunks)) (stSuccessfulChunks st3)
                          (stFailedChunks st3))
                       (stFieldIssues st3))
                    (stValidationLog st3)
                    (mkReports (generateValidationLogCSV (stValidationLog st3))
                       (generateNormalizedPayloadJSONL (stValidationLog st3)))),
               stStore st3).
Proof.
  intros Hs Hf.
  destruct (splitLoop_full_chunks rawLeads size Hs) as (chunks & E & C & F & _).
  unfold processBulkLeadImport. rewrite (E fuel Hf).
  destruct (importChunks_spec rawLeads dryRun size chunks (initialState store))
    as (roster & st3 & _ & Ec & Ei).
  exists chunks, roster, st3. split; [exact C|]. split; [exact F|]. split; [exact Ec|].
  rewrite Ei. reflexivity.
Qed.

(** X1. For a chunk size of at least 1 the splitting loop ends (within
    one iteration more than there are rows) and cuts the batch into
    consecutive chunks: put end to end they give the batch back, none is
    empty, each has at most [chunkSize] rows and every one but the last has
    exactly [chunkSize]; the chunk of index [k] is the rows from position
    [k * chunkSize] on. *)
Theorem chunks_partition_the_batch (rawLeads : list RawLead) chunkSize :
  1 <= chunkSize ->
  exists chunks,
    (forall fuel, (length rawLeads < fuel)%nat ->
                  splitLoop fuel rawLeads chunkSize 0 [] = Some chunks)
    /\ concat chunks = rawLeads
    /\ (forall k chunk, chunks !! k = Some chunk ->
          chunk <> []
          /\ Z.of_nat (length chunk) <= chunkSize
          /\ ((S k < length chunks)%nat -> Z.of_nat (length chunk) = chunkSize)
          /\ chunk = take (Z.to_nat chunkSize) (drop (k * Z.to_nat chunkSize) rawLeads)).
Proof.
  intros Hs. destruct (splitLoop_full_chunks rawLeads chunkSize Hs) as (chunks & E & C & F & K).
  exists chunks. split; [exact E|]. split; [exact C|].
  intros k chunk Hl. destruct (K k chunk Hl) as (K1 & K2 & K3).
  split; [exact K1|]. split; [exact K2|]. split; [|exact K3].
  intros Hlt. exact (F k chunk Hl Hlt).
Qed.

(** X2. No row is ever classified as imported without issues: for a
    chunk size of at least 1, whatever the rows, the mode and the store, the
    call returns a result whose [imported] counter is 0 and whose validation
    log has only entries with status [ImportedWithIssues] or [Failed]. (A
    row that completes has a warning or a fix from its country alone: the
    field is absent, or unknown to the alias table, or rewritten by it.) *)
Theorem no_row_is_imported_without_issues rawLeads dryRun chunkSize (store : Store) fuel :
  1 <= chunkSize -> (length rawLeads < fuel)%nat ->
  exists result store',
    processBulkLeadImport fuel rawLeads dryRun chunkSize store
    = Some (Normal result, store')
    /\ imported (batchSummary result) = 0
    /\ Forall (fun entry => status entry = ImportedWithIssues \/ status entry = Failed)
         (validationLog result).
Proof.
  intros Hs Hf.
  destruct (processBulkLeadImport_run rawLeads dryRun chunkSize store fuel Hs Hf)
    as (chunks & roster & st3 & _ & _ & Ec & E).
  rewrite E. eexists _, _. split; [reflexivity|]. simpl.
  assert (noCleanImport st3) as [H0 HF].
  { change st3 with (snd (Normal tt : Completion unit, st3)). rewrite <- Ec.
    apply keeps_noClean_forChunks. split; [reflexivity|constructor]. }
  split; [exact H0|]. eapply Forall_impl; [exact HF|].
  intros entry S. simpl in S. destruct (status entry); [congruence|now left|now right].
Qed.

(** X3. When the row-level handler deals with everything the rows throw
    (every dry run, and every run against a store whose rejections have a
    readable message), the validation log follows the batch: it has one
    entry per row, in the order of the rows, the entry of the row at
    position [i] (from 0) has [rowNumber = i + 1] across the chunks, and its
    [originalData] is a copy of the row. *)
Theorem validation_log_follows_the_batch rawLeads dryRun chunkSize (store : Store) fuel :
  dryRun = true \/ politeStore ->
  1 <= chunkSize -> (length rawLeads < fuel)%nat ->
  exists result store',
    processBulkLeadImport fuel rawLeads dryRun chunkSize store
    = Some (Normal result, store')
    /\ map rowNumber (validationLog result) = seqZ 1 (Z.of_nat (length rawLeads))
    /\ map originalData (validationLog result) = map spread rawLeads.
Proof.
  intros Hp Hs Hf.
  destruct (processBulkLeadImport_run rawLeads dryRun chunkSize store fuel Hs Hf)
    as (chunks & roster & st3 & C & F & Ec & E).
  rewrite E. eexists _, _. split; [reflexivity|]. simpl.
  destruct (forChunks_follow dryRun roster chunkSize chunks
              (fun r => throwsReadable_rowBody dryRun roster r Hp) F 0
              (snd (dateNow (initialState store))))
    as (st3' & entries & Ec' & V & N & O).
  rewrite Ec in Ec'. inversion Ec'; subst st3'. clear Ec'.
  rewrite V. simpl. rewrite N, O, C. split; reflexivity.
Qed.

(** X4. The table of field issues of a result is bounded: its keys are
    among the six field names under which the pipeline files issues, and
    every entry counts at least one issue and holds [min(count, 5)] samples,
    so five at most. *)
Theorem field_issues_are_bounded rawLeads dryRun chunkSize (store : Store) fuel :
  1 <= chunkSize -> (length rawLeads < fuel)%nat ->
  exists result store',
    processBulkLeadImport fuel rawLeads dryRun chunkSize store
    = Some (Normal result, store')
    /\ forall fieldName issue,
         fieldIssues (batchSummary result) !! fieldName = Some issue ->
         In fieldName issueFields
         /\ 1 <= count issue
         /\ Z.of_nat (length (samples issue)) = Z.min (count issue) 5.
Proof.
  intros Hs Hf.
  destruct (processBulkLeadImport_run rawLeads dryRun chunkSize store fuel Hs Hf)
    as (chunks & roster & st3 & _ & _ & Ec & E).
  rewrite E. eexists _, _. split; [reflexivity|]. simpl.
  assert (issuesSound st3) as H.
  { change st3 with (snd (Normal tt : Completion unit, st3)). rewrite <- Ec.
    apply keeps_issues_forChunks. intros k fi Hl. simpl in Hl.
    now rewrite lookup_empty in Hl. }
  intros fieldName issue Hl. destruct (H fieldName issue Hl) as (H1 & H2 & H3).
  repeat split; assumption.
Qed.

End OrderFacts.

(* ===================================================================== *)
(** ** The counters and the log *)
(* ===================================================================== *)

Section TallyFacts.
Context {Store : Type} {storage : Storage Store} {host : Host}.
#[local] Abbreviation M := (M Store).

Lemma countStatus_app s (a b : list ValidationLog) :
  countStatus s (a ++ b) = countStatus s a + countStatus s b.
Proof. unfold countStatus. rewrite List.filter_app, length_app. lia. Qed.

Lemma countStatus_total (log : list ValidationLog) :
  countStatus Imported log + countStatus ImportedWithIssues log + countStatus Failed log
  = Z.of_nat (length log).
Proof.
  unfold countStatus. induction log as [|entry log IH]; [reflexivity|].
  simpl. destruct (status entry); simpl in *; lia.
Qed.

(** What one iteration of the inner loop does, however it ends: it
    writes one entry and moves the matching counter by one (imported with
    issues when the row completes, failed when the handler deals with what
    it threw), or it leaves the loop with nothing written and nothing
    counted. *)
Lemma processRow_cases dryRun roster start i r (st : ImportState Store) :
  importedCount (snd (processRow dryRun roster start i r st)) = importedCount st
  /\ stSuccessfulChunks (snd (processRow dryRun roster start i r st)) = stSuccessfulChunks st
  /\ stFailedChunks (snd (processRow dryRun roster start i r st)) = stFailedChunks st
  /\ ((exists entry,
         fst (processRow dryRun roster start i r st) = Normal tt
         /\ stValidationLog (snd (processRow dryRun roster start i r st))
            = stValidationLog st ++ [entry]
         /\ ((status entry = ImportedWithIssues
              /\ importedWithIssuesCount (snd (processRow dryRun roster start i r st))
                 = importedWithIssuesCount st + 1
              /\ failedCount (snd (processRow dryRun roster start i r st)) = failedCount st)
             \/ (status entry = Failed
                 /\ importedWithIssuesCount (snd (processRow dryRun roster start i r st))
                    = importedWithIssuesCount st
                 /\ failedCount (snd (processRow dryRun roster start i r st))
                    = failedCount st + 1)))
      \/ (isThrow (fst (processRow dryRun roster start i r st)) = true
          /\ stValidationLog (snd (processRow dryRun roster start i r st))
             = stValidationLog st
          /\ importedWithIssuesCount (snd (processRow dryRun roster start i r st))
             = importedWithIssuesCount st
          /\ failedCount (snd (processRow dryRun roster start i r st)) = failedCount st)).
Proof.
  unfold processRow.
  rewrite (bind_normal _ _ st tt (snd (startRow start i r st)) eq_refl).
  set (st0 := snd (startRow start i r st)).
  assert (importedCount st0 = importedCount st
          /\ importedWithIssuesCount st0 = importedWithIssuesCount st
          /\ failedCount st0 = failedCount st
          /\ stSuccessfulChunks st0 = stSuccessfulChunks st
          /\ stFailedChunks st0 = stFailedChunks st
          /\ stValidationLog st0 = stValidationLog st) as (A1 & A2 & A3 & A4 & A5 & A6)
    by (repeat split).
  clearbody st0.
  destruct (rowBody dryRun roster r st0) as [[[]|e] st1] eqn:E1.
  - destruct (rowBody_flagged _ _ _ _ _ E1) as (stp & F & G & Ec).
    destruct (classifyRow_flagged stp G) as (st1' & Ec' & S1 & S2 & S3 & S4 & S5).
    rewrite Ec in Ec'. inversion Ec'; subst st1'. clear Ec'.
    destruct F as (F1 & F2 & F3 & F4 & F5 & F6 & _).
    assert (stSuccessfulChunks st1 = stSuccessfulChunks stp
            /\ stFailedChunks st1 = stFailedChunks stp) as [S6 S7].
    { revert Ec. unfold classifyRow, mbind, M_bind. simpl.
      destruct (_ || _); simpl; intros [= <-]; split; reflexivity. }
    erewrite bind_normal; [|unfold tryCatch; rewrite E1; reflexivity].
    simpl. split; [congruence|]. split; [congruence|]. split; [congruence|].
    left. exists (stLog st1). split; [reflexivity|]. split; [congruence|].
    left. split; [exact S1|]. split; congruence.
  - apply rowBody_inv in E1 as E1'. destruct E1' as [(e0 & _ & F)|([=] & _)].
    destruct F as (F1 & F2 & F3 & F4 & F5 & F6 & _).
    destruct (readable e) eqn:R.
    + destruct (rowCatch_readable e st1 R)
        as (st2 & E2 & S1 & _ & _ & _ & S5 & S6 & S7 & S8 & S9 & S10).
      erewrite bind_normal; [|unfold tryCatch; rewrite E1; exact E2].
      simpl. split; [congruence|]. split; [congruence|]. split; [congruence|].
      left. exists (stLog st2). split; [reflexivity|]. split; [congruence|].
      right. split; [exact S1|]. split; congruence.
    + destruct (rowCatch_unreadable e st1 R) as (e' & st2 & E2 & _ & S1 & S2 & S3 & S4 & S5).
      destruct (rowCatch_noClean e st1) as (C1 & _). rewrite E2 in C1. simpl in C1.
      erewrite bind_throw; [|unfold tryCatch; rewrite E1; exact E2].
      simpl. split; [congruence|]. split; [congruence|]. split; [congruence|].
      right. split; [reflexivity|]. split; [congruence|]. split; lia.
Qed.

(** The inner loop, however it ends: the entries it writes are counted,
    one by one, by the counter of their status; there is one entry per row
    when the loop completes, and fewer entries than rows when it is left by
    an exception. *)
Lemma forRows_cases dryRun roster start rows :
  forall i (st : ImportState Store),
    exists entries,
      stValidationLog (snd (forRows dryRun roster start i rows st))
      = stValidationLog st ++ entries
      /\ importedCount (snd (forRows dryRun roster start i rows st)) = importedCount st
      /\ importedWithIssuesCount (snd (forRows dryRun roster start i rows st))
         = importedWithIssuesCount st + countStatus ImportedWithIssues entries
      /\ failedCount (snd (forRows dryRun roster start i rows st))
         = failedCount st + countStatus Failed entries
      /\ countStatus Imported entries = 0
      /\ stSuccessfulChunks (snd (forRows dryRun roster start i rows st))
         = stSuccessfulChunks st
      /\ stFailedChunks (snd (forRows dryRun roster start i rows st)) = stFailedChunks st
      /\ (if isThrow (fst (forRows dryRun roster start i rows st))
          then (length entries < length rows)%nat
          else length entries = length rows).
Proof.
  induction rows as [|r rest IH]; intros i st.
  - exists []. simpl. rewrite app_nil_r. unfold countStatus. simpl. repeat split; lia.
  - simpl forRows.
    destruct (processRow_cases dryRun roster start i r st) as (P1 & P2 & P3 & P).
    destruct (processRow dryRun roster start i r st) as [[[]|e] st1] eqn:E1; simpl in *.
    + rewrite (bind_normal _ _ _ _ _ E1).
      destruct (IH (i + 1) st1) as (entries & V & I1 & I2 & I3 & I4 & I5 & I6 & I7).
      destruct P as [(entry & _ & V1 & Hs)|([=] & _)].
      exists (entry :: entries).
      split; [rewrite V, V1, <- app_assoc; reflexivity|].
      split; [congruence|].
      change (entry :: entries) with ([entry] ++ entries). rewrite !countStatus_app.
      unfold countStatus at 1 3 5. simpl.
      destruct Hs as [(S1 & S2 & S3)|(S1 & S2 & S3)]; rewrite S1; simpl;
        (split; [lia|]); (split; [lia|]); (split; [lia|]);
        (split; [congruence|]); (split; [congruence|]);
        destruct (isThrow _); lia.
    + rewrite (bind_throw _ _ _ _ _ E1). simpl.
      destruct P as [(entry & [=] & _)|(_ & V1 & S2 & S3)].
      exists []. rewrite app_nil_r. unfold countStatus. simpl.
      repeat split; try assumption; lia.
Qed.

(** One chunk, however its rows end: the counters follow the entries
    written, exactly one of the two chunk counters moves by one, and the
    chunk gets at least one entry per row and fewer than two. *)
Lemma processChunk_cases dryRun roster size idx chunk (st : ImportState Store) :
  exists st' entries,
    processChunk dryRun roster size idx chunk st = (Normal tt, st')
    /\ stValidationLog st' = stValidationLog st ++ entries
    /\ importedCount st' = importedCount st
    /\ importedWithIssuesCount st'
       = importedWithIssuesCount st + countStatus ImportedWithIssues entries
    /\ failedCount st' = failedCount st + countStatus Failed entries
    /\ countStatus Imported entries = 0
    /\ stSuccessfulChunks st' + stFailedChunks st'
       = stSuccessfulChunks st + stFailedChunks st + 1
    /\ (length chunk <= length entries <= 2 * length chunk)%nat.
Proof.
  unfold processChunk, tryCatch, chunkBody, chunkCatch. cbv zeta.
  destruct (forRows_cases dryRun roster (idx * size) chunk 0 st)
    as (entries & V & I1 & I2 & I3 & I4 & I5 & I6 & I7).
  destruct (forRows dryRun roster (idx * size) 0 chunk st) as [[[]|e] st1] eqn:E1;
    simpl in *.
  - rewrite (bind_normal _ _ _ _ _ E1). eexists _, entries. split; [reflexivity|].
    simpl. repeat split; try assumption; lia.
  - rewrite (bind_throw _ _ _ _ _ E1).
    rewrite (bind_normal _ _ st1 tt (snd (incrFailedChunks st1)) eq_refl).
    destruct (failRows_spec e (idx * size) chunk 0 (snd (incrFailedChunks st1)))
      as (st' & failures & E2 & V2 & L2 & F2 & C1 & C2 & C3 & C4 & C5 & _).
    exists st', (entries ++ failures). split; [exact E2|].
    simpl in *.
    assert (countStatus Failed failures = Z.of_nat (length chunk)
            /\ countStatus ImportedWithIssues failures = 0
            /\ countStatus Imported failures = 0) as (K1 & K2 & K3).
    { rewrite <- L2. clear -F2. unfold countStatus.
      induction F2 as [|entry l S _ IH]; [repeat split|].
      simpl. rewrite S. simpl. destruct IH as (IH1 & IH2 & IH3).
      repeat split; lia. }
    rewrite !countStatus_app.
    split; [rewrite V2, V, <- app_assoc; reflexivity|].
    rewrite length_app, L2.
    repeat split; try lia.
Qed.

Lemma forChunks_cases dryRun roster size chunks :
  forall idx (st : ImportState Store),
    exists st' entries,
      forChunks dryRun roster size idx chunks st = (Normal tt, st')
      /\ stValidationLog st' = stValidationLog st ++ entries
      /\ importedCount st' = importedCount st
      /\ importedWithIssuesCount st'
         = importedWithIssuesCount st + countStatus ImportedWithIssues entries
      /\ failedCount st' = failedCount st + countStatus Failed entries
      /\ countStatus Imported entries = 0
      /\ stSuccessfulChunks st' + stFailedChunks st'
         = stSuccessfulChunks st + stFailedChunks st + Z.of_nat (length chunks)
      /\ (length (concat chunks) <= length entries <= 2 * length (concat chunks))%nat.
Proof.
  induction chunks as [|chunk rest IH]; intros idx st.
  - exists st, []. simpl. rewrite app_nil_r. unfold countStatus. simpl.
    repeat split; lia.
  - destruct (processChunk_cases dryRun roster size idx chunk st)
      as (st1 & entries1 & E1 & V1 & A1 & A2 & A3 & A4 & A5 & A6).
    destruct (IH (idx + 1) st1) as (st' & entries2 & E2 & V2 & B1 & B2 & B3 & B4 & B5 & B6).
    exists st', (entries1 ++ entries2). simpl forChunks.
    rewrite (bind_normal _ _ _ _ _ E1). split; [exact E2|].
    rewrite !countStatus_app. simpl concat. rewrite !length_app. simpl length.
    split; [rewrite V2, V1, <- app_assoc; reflexivity|].
    repeat split; lia.
Qed.

(** X5. The counters of a result always agree with its validation log,
    also when they do not add up to the number of rows: for a chunk size of
    at least 1, whatever the rows, the mode and the store, [imported],
    [importedWithIssues] and [failed] are the numbers of entries with these
    statuses, so their sum is the length of the log; every chunk is counted
    once, as successful or as failed; and the log has at least one entry per
    row and at most two. *)
Theorem counters_agree_with_the_log rawLeads dryRun chunkSize (store : Store) fuel :
  1 <= chunkSize -> (length rawLeads < fuel)%nat ->
  exists result store',
    processBulkLeadImport fuel rawLeads dryRun chunkSize store
    = Some (Normal result, store')
    /\ imported (batchSummary result) = countStatus Imported (validationLog result)
    /\ importedWithIssues (batchSummary result)
       = countStatus ImportedWithIssues (validationLog result)
    /\ failed (batchSummary result) = countStatus Failed (validationLog result)
    /\ imported (batchSummary result) + importedWithIssues (batchSummary result)
       + failed (batchSummary result) = Z.of_nat (length (validationLog result))
    /\ successfulChunks (chunkStats (batchSummary result))
       + failedChunks (chunkStats (batchSummary result))
       = totalChunks (chunkStats (batchSummary result))
    /\ totalRows (batchSummary result) <= Z.of_nat (length (validationLog result))
       <= 2 * totalRows (batchSummary result).
Proof.
  intros Hs Hf.
  destruct (processBulkLeadImport_run rawLeads dryRun chunkSize store fuel Hs Hf)
    as (chunks & roster & st3 & C & _ & Ec & E).
  rewrite E. eexists _, _. split; [reflexivity|]. simpl.
  destruct (forChunks_cases dryRun roster chunkSize chunks 0
              (snd (dateNow (initialState store))))
    as (st3' & entries & Ec' & V & B1 & B2 & B3 & B4 & B5 & B6).
  rewrite Ec in Ec'. inversion Ec'; subst st3'. clear Ec'.
  simpl in *. rewrite C in B6.
  pose proof (countStatus_total entries) as T.
  rewrite V. repeat split; lia.
Qed.

End TallyFacts.

(* ===================================================================== *)
(** ** More on strings *)
(* ===================================================================== *)

Section StringFacts2.

(** A trimmed part of a lower-cased string is in lower case. *)
Lemma toLowerCase_trim_fixed `{Js.Unicode} s :
  Js.toLowerCase (Js.trim (Js.toLowerCase s)) = Js.trim (Js.toLowerCase s).
Proof.
  unfold Js.toLowerCase, Js.lowerWith at 2 3. destruct (Js.isLatin1 s) eqn:E.
  - unfold Js.lowerWith.
    rewrite (isLatin1_trim _ (isLatin1_lowerLatin1 _ E)). apply lowerLatin1_trim_fixed.
  - now apply Js.lowerCase_trimmed.
Qed.

Lemma filter_filter_same {A} (p : A -> bool) l :
  List.filter p (List.filter p l) = List.filter p l.
Proof.
  induction l as [|x l IH]; [reflexivity|]. simpl.
  destruct (p x) eqn:E; simpl; [rewrite E; now f_equal|exact IH].
Qed.

(** The decimal notation of a number of four digits. *)
Lemma numberToString_four_digits z :
  1000 <= z <= 9999 ->
  exists a b c d,
    Js.numberToString z = Js.str [a; b; c; d]
    /\ Js.isDigit a = true /\ Js.isDigit b = true
    /\ Js.isDigit c = true /\ Js.isDigit d = true.
Proof.
  intros Hz.
  assert (forallb
            (fun z => match Js.chars (Js.numberToString z) with
                      | [a; b; c; d] =>
                          Js.isDigit a && Js.isDigit b && Js.isDigit c && Js.isDigit d
                      | _ => false
                      end) (seqZ 1000 9000) = true) as H by (vm_compute; reflexivity).
  rewrite forallb_forall in H. specialize (H z).
  rewrite <- list_elem_of_In, elem_of_seqZ in H. specialize (H ltac:(lia)).
  destruct (Js.chars (Js.numberToString z)) as [|a [|b [|c [|d [|? ?]]]]] eqn:E;
    try discriminate.
  exists a, b, c, d. rewrite <- E, str_chars.
  apply andb_true_iff in H as [H Hd]. apply andb_true_iff in H as [H Hc].
  apply andb_true_iff in H as [Ha Hb]. repeat split; assumption.
Qed.

End StringFacts2.

(* ===================================================================== *)
(** ** More on the normalizers *)
(* ===================================================================== *)

Section NormalizerFacts2.
Context {Store : Type} {storage : Storage Store} {host : Host}.
#[local] Abbreviation M := (M Store).

(** What the email normalizer returns when it accepts an address. *)
Lemma normalizeEmail_accepts email (st : ImportState Store) v st1 :
  normalizeEmail email st = (Normal (Some v), st1) ->
  v = Js.trim (Js.toLowerCase email) /\ emailRegexTest v = true.
Proof.
  unfold normalizeEmail. cbv zeta.
  destruct (emailRegexTest (Js.trim (Js.toLowerCase email))) eqn:T; cbn [negb].
  - intros E.
    assert (v = Js.trim (Js.toLowerCase email)) as ->.
    { revert E. unfold mbind, M_bind.
      destruct (when _ _ st) as [[[]|e] s]; intros [= ]; congruence. }
    split; [reflexivity|exact T].
  - unfold mbind, M_bind. simpl. intros [=].
Qed.

(** X6. An address that the email normalizer accepts is returned
    lower-cased and trimmed, matches the pattern of the normalizer, holds
    no white space, and is a fixed point: normalizing the result again
    returns it and changes nothing of the state (no fix, no warning). *)
Theorem normalizeEmail_result_is_normal email (st : ImportState Store) v st1 :
  normalizeEmail email st = (Normal (Some v), st1) ->
  v = Js.trim (Js.toLowerCase email)
  /\ emailRegexTest v = true
  /\ Js.hasWhite (Js.chars v) = false
  /\ normalizeEmail v st1 = (Normal (Some v), st1).
Proof.
  intros E. destruct (normalizeEmail_accepts _ _ _ _ E) as [-> T].
  split; [reflexivity|]. split; [exact T|]. split.
  - unfold emailRegexTest in T.
    destruct (splitAt "@" (Js.chars (Js.trim (Js.toLowerCase email)))) as [[a b]|];
      [|discriminate].
    repeat (apply andb_true_iff in T as [T _]). now apply negb_true_iff in T.
  - unfold normalizeEmail. cbv zeta.
    rewrite toLowerCase_trim_fixed, trim_idempotent, T, String.eqb_refl.
    reflexivity.
Qed.

(** X7. The phone normalizer is idempotent: what it returns it returns
    again when applied to its own result, without a further fix; and when
    the result has ten digits or more the second application changes
    nothing of the state. *)
Theorem normalizePhone_is_idempotent phone (st : ImportState Store) :
  exists cleaned st1 st2,
    normalizePhone phone st = (Normal cleaned, st1)
    /\ normalizePhone cleaned st1 = (Normal cleaned, st2)
    /\ fixesApplied (stLog st2) = fixesApplied (stLog st1)
    /\ ((10 <= digitCount cleaned)%nat -> st2 = st1).
Proof.
  set (cleaned := Js.str (List.filter isPhoneChar (Js.chars phone))).
  assert (Js.str (List.filter isPhoneChar (Js.chars cleaned)) = cleaned) as Hc.
  { unfold cleaned. now rewrite chars_str, filter_filter_same. }
  assert (forall p (s : ImportState Store),
            fst (normalizePhone p s)
            = Normal (Js.str (List.filter isPhoneChar (Js.chars p)))) as Hv.
  { intros p s. unfold normalizePhone, mbind, M_bind. cbv zeta.
    destruct (_ <? 10)%nat; destruct (negb _); reflexivity. }
  exists cleaned, (snd (normalizePhone phone st)), (snd (normalizePhone cleaned
                                                            (snd (normalizePhone phone st)))).
  split; [rewrite (surjective_pairing (normalizePhone phone st)), Hv; reflexivity|].
  split; [rewrite (surjective_pairing (normalizePhone cleaned _)), Hv, Hc; reflexivity|].
  generalize (snd (normalizePhone phone st)). intros s1.
  unfold normalizePhone, mbind, M_bind, digitCount. cbv zeta.
  rewrite Hc, String.eqb_refl. cbn [negb when].
  destruct (_ <? 10)%nat eqn:L; simpl.
  - split; [reflexivity|]. apply Nat.ltb_lt in L. lia.
  - split; [reflexivity|]. intros _. now destruct s1.
Qed.

(** The codes of the alias table are not among its keys. *)
Lemma countryMap_code_unmapped alias iso :
  countryMap !! alias = Some iso ->
  countryMapGet (Js.trim (Js.toLowerCase iso)) = None.
Proof.
  intros E. unfold countryMap in E. apply elem_of_list_to_map_2 in E.
  repeat (apply elem_of_cons in E as [E|E];
          [injection E as _ ->; vm_compute; reflexivity|]).
  now apply elem_of_nil in E.
Qed.

(** X8. A text that the country normalizer returns is either its input
    or a code of the alias table, and it is stable: normalizing the result
    again returns the same text. The codes themselves are not keys of the
    table, so a result that is a code is then reported as a country that
    could not be normalized. *)
Theorem normalizeCountry_result_is_stable country (st : ImportState Store) v st1 :
  normalizeCountry country st = (Normal (CountryText v), st1) ->
  (v = country \/ exists alias, countryMap !! alias = Some v)
  /\ exists st2,
       normalizeCountry v st1 = (Normal (CountryText v), st2)
       /\ ((exists alias, countryMap !! alias = Some v) ->
           warnings (stLog st2)
           = warnings (stLog st1)
             ++ ["Country " +:+ dq +:+ v +:+ dq +:+ " could not be normalized to ISO code"]).
Proof.
  intros E.
  assert (forall (s : ImportState Store),
            countryMapGet (Js.trim (Js.toLowerCase v)) = None ->
            exists s2,
              normalizeCountry v s = (Normal (CountryText v), s2)
              /\ warnings (stLog s2)
                 = warnings (stLog s)
                   ++ ["Country " +:+ dq +:+ v +:+ dq
                         +:+ " could not be normalized to ISO code"]) as Hnone.
  { intros s G. unfold normalizeCountry. cbv zeta. rewrite G.
    unfold mbind, M_bind. simpl. eexists. split; reflexivity. }
  revert E. unfold normalizeCountry at 1. cbv zeta.
  destruct (countryMapGet (Js.trim (Js.toLowerCase country))) as [mapped|] eqn:G.
  - intros E.
    assert (mapped = CountryText v) as ->.
    { revert E. unfold mbind, M_bind.
      destruct (when _ _ st) as [[[]|e] s]; intros [=]; congruence. }
    assert (exists alias, countryMap !! alias = Some v) as [alias Ha].
    { revert G. unfold countryMapGet.
      destruct (countryMap !! Js.trim (Js.toLowerCase country)) as [iso|] eqn:Ei.
      - intros [= ->]. eauto.
      - repeat case_decide; discriminate. }
    split; [right; eauto|].
    destruct (Hnone st1 (countryMap_code_unmapped _ _ Ha)) as (s2 & E2 & W).
    exists s2. split; [exact E2|]. intros _. exact W.
  - unfold mbind, M_bind. simpl. intros [= <- <-].
    split; [now left|].
    match goal with |- context [normalizeCountry _ ?s] =>
      destruct (Hnone s G) as (s2 & E2 & W) end.
    exists s2. split; [exact E2|]. intros _. exact W.
Qed.

(** X9. An intake without a run of four digits gets the year after the
    current one (the local year of the next reading of the clock, plus
    one), with a fix that says so; the season is the one the text names, or
    [Fall]; and, the year having four digits, the result is canonical. *)
Theorem normalizeIntake_defaults_to_next_year intake (st : ImportState Store) :
  Js.search yearPattern (Js.chars (Js.toLowerCase intake)) = None ->
  999 <= getFullYear (clock (stTicks st)) < 9999 ->
  exists season st',
    normalizeIntake intake st
    = (Normal (Js.numberToString (getFullYear (clock (stTicks st)) + 1)
                 +:+ "-" +:+ season), st')
    /\ season = default "Fall" (findSeason (Js.toLowerCase intake))
    /\ isCanonicalIntake
         (Js.numberToString (getFullYear (clock (stTicks st)) + 1) +:+ "-" +:+ season)
       = true
    /\ stTicks st' = S (stTicks st)
    /\ exists more,
         fixesApplied (stLog st')
         = fixesApplied (stLog st)
           ++ ("Added missing year "
                 +:+ Js.numberToString (getFullYear (clock (stTicks st)) + 1)
                 +:+ " to intake") :: more.
Proof.
  intros Hn Hy.
  set (year := Js.numberToString (getFullYear (clock (stTicks st)) + 1)).
  assert (1000 <= getFullYear (clock (stTicks st)) + 1 <= 9999) as Hy' by lia.
  destruct (numberToString_four_digits _ Hy') as (a & b & c & d & Ey & Da & Db & Dc & Dd).
  fold year in Ey.
  exists (default "Fall" (findSeason (Js.toLowerCase intake))).
  assert (In (default "Fall" (findSeason (Js.toLowerCase intake))) seasons) as Hs.
  { destruct (findSeason (Js.toLowerCase intake)) as [v|] eqn:Ev; simpl.
    - eapply findSeason_in; eauto.
    - unfold seasons. simpl. tauto. }
  assert (isCanonicalIntake
            (year +:+ "-" +:+ default "Fall" (findSeason (Js.toLowerCase intake))) = true)
    as Hc by (rewrite Ey; now apply canonical_build).
  unfold normalizeIntake. cbv zeta. rewrite Hn.
  set (sa := snd (pushFix ("Added missing year " +:+ year +:+ " to intake")
                    (snd (dateNow st)))).
  rewrite (bind_normal _ _ st year sa) by reflexivity.
  destruct (findSeason (Js.toLowerCase intake)) as [v|] eqn:Ev; cbn [default] in *.
  - rewrite (bind_normal _ _ sa v sa eq_refl).
    match goal with |- context [when (negb ?t)] => destruct t end;
      cbn [negb when]; unfold mbind, M_bind; eexists; (split; [reflexivity|]);
      (split; [reflexivity|]); (split; [exact Hc|]); (split; [reflexivity|]);
      simpl; eexists; rewrite <- ?app_assoc; reflexivity.
  - rewrite (bind_normal _ _ sa "Fall"
               (snd (pushFix "Added default season Fall to intake" sa)) eq_refl).
    match goal with |- context [when (negb ?t)] => destruct t end;
      cbn [negb when]; unfold mbind, M_bind; eexists; (split; [reflexivity|]);
      (split; [reflexivity|]); (split; [exact Hc|]); (split; [reflexivity|]);
      simpl; eexists; rewrite <- ?app_assoc; reflexivity.
Qed.

End NormalizerFacts2.

(* ===================================================================== *)
(** ** Counselor assignment and the bulk route *)
(* ===================================================================== *)

Section AssignmentFacts.
Context {Store : Type} {storage : Storage Store} {host : Host}.
#[local] Abbreviation M := (M Store).

Lemma fetchRoster_cases (st : ImportState Store) roster st' :
  fetchRoster st = (Normal roster, st') ->
  (exists users,
     getAllUsers (stStore st) = Normal users
     /\ counselors roster = List.filter isCounselor users
     /\ defaultCounselor roster = List.find isLikitha (List.filter isCounselor users))
  \/ (exists e, getAllUsers (stStore st) = Throw e
                /\ counselors roster = [] /\ defaultCounselor roster = None).
Proof.
  unfold fetchRoster, tryCatch, mbind, M_bind, readUsers.
  destruct (getAllUsers (stStore st)) as [users|e]; intros [= <- _].
  - left. exists users. repeat split.
  - right. exists e. repeat split.
Qed.

(** X10. Counselor assignment follows the roster read at the start of
    the run. A lead is only ever assigned to a user of the store whose role
    is [counselor]; a lead without a counsellors hint is left unassigned;
    and when the roster has a default counselor (a counselor whose name
    holds [likitha]) every lead with a hint that is not blank is assigned,
    to the first counselor whose name matches the hint or else to the
    default. *)
Theorem counselor_assignment_follows_the_roster normalized (st : ImportState Store)
    roster st' :
  fetchRoster st = (Normal roster, st') ->
  let assigned :=
    counselorId (applyBusinessLogic normalized (counselors roster)
                   (defaultCounselor roster) (managerId roster)) in
  (forall id, assigned = Some id ->
     exists users u,
       getAllUsers (stStore st) = Normal users
       /\ In u users /\ userId u = id /\ userRole u = "counselor")
  /\ (counsellors normalized = None -> assigned = None)
  /\ (forall hint d,
        counsellors normalized = Some hint -> Js.trim hint <> "" ->
        defaultCounselor roster = Some d ->
        assigned
        = Some (userId (default d (List.find (matchesCounselor
                                                (Js.toLowerCase (Js.trim hint)))
                                     (counselors roster))))).
Proof.
  intros Er. cbv zeta. unfold applyBusinessLogic. cbv zeta. cbn [counselorId].
  split; [|split].
  - intros id.
    destruct (counsellors normalized) as [c|]; [|discriminate].
    destruct (negb (String.eqb c "") && negb (String.eqb (Js.trim c) "")); [|discriminate].
    assert (forall u, In u (counselors roster) ->
              exists users, getAllUsers (stStore st) = Normal users
                            /\ In u users /\ userRole u = "counselor") as Hc.
    { intros u Hu. destruct (fetchRoster_cases _ _ _ Er) as [(users & G & C & _)|(e & _ & C & _)].
      - rewrite C in Hu. apply filter_In in Hu as [Hu Hr].
        exists users. repeat split; try assumption. now apply String.eqb_eq.
      - rewrite C in Hu. destruct Hu. }
    destruct (List.find _ (counselors roster)) as [m|] eqn:Ef.
    + intros [= <-]. apply find_some in Ef as [Hm _].
      destruct (Hc m Hm) as (users & G & Hu & Hr). exists users, m. repeat split; assumption.
    + destruct (defaultCounselor roster) as [d|] eqn:Ed; [|discriminate].
      intros [= <-].
      assert (In d (counselors roster)) as Hd.
      { destruct (fetchRoster_cases _ _ _ Er) as [(users & _ & C & D)|(e & _ & _ & D)];
          rewrite D in Ed; [|discriminate].
        apply find_some in Ed as [Hd _]. now rewrite C. }
      destruct (Hc d Hd) as (users & G & Hu & Hr). exists users, d. repeat split; assumption.
  - now intros ->.
  - intros hint d -> Ht ->.
    assert (String.eqb hint "" = false) as ->.
    { apply String.eqb_neq. intros ->. now apply Ht. }
    assert (String.eqb (Js.trim hint) "" = false) as -> by now apply String.eqb_neq.
    cbn [negb andb].
    destruct (List.find _ (counselors roster)); reflexivity.
Qed.

(** A dry run leaves the store as it finds it, whatever the store is. *)
Lemma dry_run_keeps_store rawLeads size (store : Store) fuel outcome :
  processBulkLeadImport fuel rawLeads true size store = Some outcome ->
  snd outcome = store.
Proof.
  unfold processBulkLeadImport.
  destruct (splitLoop fuel rawLeads size 0 []) as [chunks|]; [|discriminate].
  destruct (importChunks_spec rawLeads true size chunks (initialState store))
    as (roster & st3 & _ & Ec & Ei).
  rewrite Ei. unfold buildResult. intros [= <-]. simpl.
  change st3 with (snd (Normal tt : Completion unit, st3)). rewrite <- Ec.
  rewrite oblivious_keeps_store by apply oblivious_forChunks_dry. reflexivity.
Qed.

(** X11. The bulk route, for a request whose [leads] is an array and
    whose chunk size (1000 when the request has none) is at least 1, always
    answers with the result of the import: never with status 500, whatever the
    store does. The result has [success = true] and counts the rows of the
    request, and when the request asks for a dry run the store is left as
    it was. *)
Theorem bulkImportRoute_answers_with_the_result leads dryRun chunkSize (store : Store) fuel :
  1 <= default 1000 chunkSize -> (length leads < fuel)%nat ->
  exists result store',
    bulkImportRoute fuel (mkBulkRequest (LeadsArray leads) dryRun chunkSize) store
    = Some (Json result, store')
    /\ success result = true
    /\ totalRows (batchSummary result) = Z.of_nat (length leads)
    /\ (dryRun = Some true -> store' = store).
Proof.
  intros Hs Hf. unfold bulkImportRoute. cbn [reqLeads reqDryRun reqChunkSize].
  destruct (processBulkLeadImport_run leads (default false dryRun) (default 1000 chunkSize)
              store fuel Hs Hf) as (chunks & roster & st3 & _ & _ & _ & E).
  rewrite E. eexists _, _. split; [reflexivity|]. split; [reflexivity|].
  split; [reflexivity|]. intros ->. simpl in E.
  apply dry_run_keeps_store in E. exact E.
Qed.

End AssignmentFacts.

(* ===================================================================== *)
(** ** Records made of text *)
(* ===================================================================== *)

Section TextFacts.
Context {Store : Type} {storage : Storage Store} {host : Host}.
#[local] Abbreviation M := (M Store).

Lemma textual_lookup fields key v :
  textual fields = true -> fields !! key = Some v -> textualValue v = true.
Proof.
  unfold textual. rewrite forallb_forall. intros Ht E.
  apply (Ht (key, v)). now apply list_elem_of_In, elem_of_map_to_list.
Qed.

Lemma total_trimmedField_textual path fields key :
  textual fields = true -> total (trimmedField path (fields !! key) : M _).
Proof.
  intros Ht. unfold trimmedField.
  destruct (fields !! key) as [v|] eqn:E; [|apply total_ret].
  pose proof (textual_lookup _ _ _ Ht E) as Hv.
  destruct v as [|s|[] text|]; try discriminate; solve_total.
Qed.

Lemma total_normalizeIntake i : total (normalizeIntake i : M _).
Proof. unfold normalizeIntake. solve_total. Qed.
Lemma total_normalizeCountry c : total (normalizeCountry c : M _).
Proof. unfold normalizeCountry. solve_total. Qed.
Lemma total_normalizePhone p : total (normalizePhone p : M _).
Proof. unfold normalizePhone. solve_total. Qed.
Lemma total_normalizeEmail e : total (normalizeEmail e : M _).
Proof. unfold normalizeEmail. solve_total. Qed.
Lemma total_fmap {A B} (g : A -> B) (m : M A) : total m -> total (g <$> m).
Proof.
  intros Hm st. destruct (Hm st) as (a & st' & E). exists (g a), st'.
  unfold fmap, M_fmap. now rewrite E.
Qed.
Hint Resolve total_normalizeIntake total_normalizeCountry total_normalizePhone
  total_normalizeEmail total_fmap : total.

(** A record made of text passes the validator: only a truthy value
    without a [trim] method (or a row that is [null]) makes it throw. *)
Lemma total_normalizeAndValidateLead_textual fields :
  textual fields = true -> total (normalizeAndValidateLead (ObjectLead fields) : M _).
Proof.
  intros Ht. unfold normalizeAndValidateLead.
  pose proof (fun path key => total_trimmedField_textual path fields key Ht) as Hf.
  assert (total (liftCompletion
                   (valueToString (default JsNull (fields !! "leadCreatedDate"))) : M _))
    as Hv.
  { destruct (fields !! "leadCreatedDate") as [v|] eqn:E; simpl.
    - pose proof (textual_lookup _ _ _ Ht E) as Hv.
      destruct v as [|s|[] t|]; try discriminate; intros st; eexists _, _; reflexivity.
    - intros st. eexists _, _. reflexivity. }
  solve_total.
Qed.

Lemma total_persistLead_reliable roster n b :
  reliableStore -> total (persistLead roster n b : M _).
Proof.
  intros R st. destruct (persistLead_reliable roster n b R st (stStore st)) as (s' & E).
  rewrite withStore_id in E. simpl in E. eauto.
Qed.

Lemma total_rowBody_textual dryRun roster fields :
  dryRun = true \/ reliableStore -> textual fields = true ->
  total (rowBody dryRun roster (ObjectLead fields) : M _).
Proof.
  intros Hd Ht. unfold rowBody.
  pose proof (total_normalizeAndValidateLead_textual fields Ht).
  assert (forall n b, total (when (negb dryRun) (persistLead roster n b) : M _)) as Hp.
  { intros n b. destruct Hd as [->|R]; [apply total_ret|].
    apply total_when. now apply total_persistLead_reliable. }
  apply total_bind; [assumption|intros n]. cbv zeta.
  apply total_bind; [apply total_setNormalizedData|intros _].
  apply total_bind; [apply Hp|intros _]. apply total_classifyRow.
Qed.

(** The row whose [try] block completes is written with status
    [ImportedWithIssues] and counted as such. *)
Lemma processRow_completes dryRun roster start i r (st : ImportState Store) :
  tryOutcome dryRun roster start i r st = Normal tt ->
  exists st' entry,
    processRow dryRun roster start i r st = (Normal tt, st')
    /\ stValidationLog st' = stValidationLog st ++ [entry]
    /\ status entry = ImportedWithIssues
    /\ importedWithIssuesCount st' = importedWithIssuesCount st + 1
    /\ failedCount st' = failedCount st
    /\ stSuccessfulChunks st' = stSuccessfulChunks st
    /\ stFailedChunks st' = stFailedChunks st.
Proof.
  intros T.
  destruct (processRow_normal _ _ _ _ _ _ T) as (st' & entry & E & V & [_ F] & _).
  destruct (processRow_cases dryRun roster start i r st) as (_ & P2 & P3 & P).
  rewrite E in P, P2, P3. simpl in *.
  exists st', entry. split; [exact E|]. split; [exact V|].
  destruct P as [(entry' & _ & V' & Hs)|([=] & _)].
  rewrite V in V'. apply app_inv_head in V'. injection V' as <-.
  destruct Hs as [(S1 & S2 & S3)|(S1 & _)].
  - repeat split; assumption.
  - exfalso. rewrite S1 in F. symmetry in F. now apply classified_not_failed in F.
Qed.

Lemma forRows_complete dryRun roster start rows :
  (forall r, In r rows -> total (rowBody dryRun roster r : M _)) ->
  forall i (st : ImportState Store),
    exists st' entries,
      forRows dryRun roster start i rows st = (Normal tt, st')
      /\ stValidationLog st' = stValidationLog st ++ entries
      /\ Forall (fun entry => status entry = ImportedWithIssues) entries
      /\ length entries = length rows
      /\ importedWithIssuesCount st'
         = importedWithIssuesCount st + Z.of_nat (length rows)
      /\ failedCount st' = failedCount st
      /\ stSuccessfulChunks st' = stSuccessfulChunks st
      /\ stFailedChunks st' = stFailedChunks st.
Proof.
  induction rows as [|r rest IH]; intros Ht i st.
  - exists st, []. simpl. rewrite app_nil_r. repeat split; try constructor; lia.
  - assert (tryOutcome dryRun roster start i r st = Normal tt) as T.
    { unfold tryOutcome.
      destruct (Ht r (or_introl eq_refl) (snd (startRow start i r st))) as ([] & s & ->).
      reflexivity. }
    destruct (processRow_completes _ _ _ _ _ _ T)
      as (st1 & entry & E1 & V1 & S1 & A1 & A2 & A3 & A4).
    destruct (IH (fun r' Hr => Ht r' (or_intror Hr)) (i + 1) st1)
      as (st' & entries & E & V & S & L & B1 & B2 & B3 & B4).
    exists st', (entry :: entries). simpl forRows. rewrite (bind_normal _ _ _ _ _ E1).
    split; [exact E|]. split; [rewrite V, V1, <- app_assoc; reflexivity|].
    split; [constructor; assumption|]. simpl length.
    repeat split; lia.
Qed.

Lemma forChunks_complete dryRun roster size chunks :
  (forall r, In r (concat chunks) -> total (rowBody dryRun roster r : M _)) ->
  forall idx (st : ImportState Store),
    exists st' entries,
      forChunks dryRun roster size idx chunks st = (Normal tt, st')
      /\ stValidationLog st' = stValidationLog st ++ entries
      /\ Forall (fun entry => status entry = ImportedWithIssues) entries
      /\ importedWithIssuesCount st'
         = importedWithIssuesCount st + Z.of_nat (length (concat chunks))
      /\ failedCount st' = failedCount st
      /\ stFailedChunks st' = stFailedChunks st.
Proof.
  induction chunks as [|chunk rest IH]; intros Ht idx st.
  - exists st, []. simpl. rewrite app_nil_r. repeat split; try constructor; lia.
  - simpl concat in Ht.
    destruct (forRows_complete dryRun roster (idx * size) chunk
                (fun r Hr => Ht r (in_or_app _ _ _ (or_introl Hr))) 0 st)
      as (st1 & entries1 & E1 & V1 & S1 & L1 & A1 & A2 & A3 & A4).
    destruct (IH (fun r Hr => Ht r (in_or_app _ _ _ (or_intror Hr))) (idx + 1)
                (snd (incrSuccessfulChunks st1)))
      as (st' & entries2 & E2 & V2 & S2 & B1 & B2 & B3).
    exists st', (entries1 ++ entries2). simpl forChunks.
    rewrite (bind_normal _ _ _ tt (snd (incrSuccessfulChunks st1))).
    2:{ unfold processChunk, tryCatch, chunkBody. cbv zeta.
        rewrite (bind_normal _ _ _ _ _ E1). reflexivity. }
    split; [exact E2|]. simpl in *.
    split; [rewrite V2, V1, <- app_assoc; reflexivity|].
    split; [apply Forall_app; split; assumption|].
    rewrite length_app. repeat split; lia.
Qed.

(** A batch all of whose rows complete: nothing fails. *)
Lemma complete_rows_run rawLeads dryRun size (store : Store) fuel :
  (forall roster r, In r rawLeads -> total (rowBody dryRun roster r : M _)) ->
  1 <= size -> (length rawLeads < fuel)%nat ->
  exists result store',
    processBulkLeadImport fuel rawLeads dryRun size store = Some (Normal result, store')
    /\ totalRows (batchSummary result) = Z.of_nat (length rawLeads)
    /\ failed (batchSummary result) = 0
    /\ importedWithIssues (batchSummary result) = Z.of_nat (length rawLeads)
    /\ failedChunks (chunkStats (batchSummary result)) = 0
    /\ Forall (fun entry => status entry = ImportedWithIssues) (validationLog result).
Proof.
  intros Ht Hs Hf.
  destruct (processBulkLeadImport_run rawLeads dryRun size store fuel Hs Hf)
    as (chunks & roster & st3 & C & _ & Ec & E).
  rewrite E. eexists _, _. split; [reflexivity|]. simpl.
  destruct (forChunks_complete dryRun roster size chunks
              ltac:(rewrite C; apply Ht) 0 (snd (dateNow (initialState store))))
    as (st3' & entries & Ec' & V & S & B1 & B2 & B3).
  rewrite Ec in Ec'. inversion Ec'; subst st3'. clear Ec'.
  simpl in *. rewrite C in B1. rewrite V. repeat split; try assumption; lia.
Qed.

(** X12. Rows made of text never fail: when every row is an object
    whose properties are strings, [null] or falsy values, then in a dry
    run, and in a run against a store whose create operations succeed, no
    row is marked [Failed] and no chunk fails; every row is logged as
    [ImportedWithIssues], whatever the text is (a date that cannot be
    read, an email that is not one and an unknown country are warnings or
    fixes, not failures). *)
Theorem text_only_rows_never_fail rawLeads dryRun chunkSize (store : Store) fuel :
  forallb textualLead rawLeads = true ->
  dryRun = true \/ reliableStore ->
  1 <= chunkSize -> (length rawLeads < fuel)%nat ->
  exists result store',
    processBulkLeadImport fuel rawLeads dryRun chunkSize store
    = Some (Normal result, store')
    /\ failed (batchSummary result) = 0
    /\ importedWithIssues (batchSummary result) = Z.of_nat (length rawLeads)
    /\ failedChunks (chunkStats (batchSummary result)) = 0
    /\ Forall (fun entry => status entry = ImportedWithIssues) (validationLog result).
Proof.
  intros Ht Hd Hs Hf.
  destruct (complete_rows_run rawLeads dryRun chunkSize store fuel) as
    (result & store' & E & _ & R); try assumption.
  - intros roster r Hr. rewrite forallb_forall in Ht. specialize (Ht r Hr).
    destruct r as [|fields]; [discriminate|]. now apply total_rowBody_textual.
  - exists result, store'. split; [exact E|exact R].
Qed.

End TextFacts.

(* ===================================================================== *)
(** ** The upload route *)
(* ===================================================================== *)

Section UploadFacts.
Context {Store : Type} {storage : Storage Store} {host : Host}.
#[local] Abbreviation M := (M Store).

Lemma splitOn_nonempty sep l : Js.splitOn sep l <> [].
Proof.
  destruct l as [|c r]; simpl; [discriminate|].
  destruct (Ascii.eqb c sep); [discriminate|].
  destruct (Js.splitOn sep r); discriminate.
Qed.

(** The pieces of a split hold no separator and only characters of the
    text that was split. *)
Lemma splitOn_pieces sep l :
  Forall (fun piece => ~ In sep piece /\ incl piece l) (Js.splitOn sep l).
Proof.
  induction l as [|c r IH]; simpl.
  - constructor; [|constructor]. split; [tauto|]. intros x [].
  - assert (Forall (fun piece => ~ In sep piece /\ incl piece (c :: r)) (Js.splitOn sep r))
      as IH'.
    { eapply Forall_impl; [exact IH|]. intros piece [H1 H2]. split; [exact H1|].
      intros x Hx. right. now apply H2. }
    destruct (Ascii.eqb c sep) eqn:E.
    + constructor; [|exact IH']. split; [tauto|]. intros x [].
    + destruct (Js.splitOn sep r) as [|piece pieces]; [|inversion IH' as [|? ? [H1 H2] H3]; subst].
      * constructor; [|constructor]. apply Ascii.eqb_neq in E. split.
        -- intros [H|[]]. congruence.
        -- intros x [<-|[]]. now left.
      * constructor; [|exact H3]. apply Ascii.eqb_neq in E. split.
        -- intros [H|H]; [congruence|now apply H1].
        -- intros x [<-|Hx]; [now left|now apply H2].
Qed.

Lemma split_pieces s sep piece :
  In piece (Js.split s sep) ->
  ~ In sep (Js.chars piece) /\ incl (Js.chars piece) (Js.chars s).
Proof.
  unfold Js.split. intros H. apply in_map_iff in H as (l & <- & Hl).
  rewrite chars_str. pose proof (splitOn_pieces sep (Js.chars s)) as F.
  rewrite Forall_forall in F. apply F. now apply list_elem_of_In.
Qed.

(** A cell holds no comma and no double quote, and only characters of
    its line. *)
Lemma csvValues_cells line v :
  In v (csvValues line) ->
  ~ In ","%char (Js.chars v) /\ ~ In quote (Js.chars v)
  /\ incl (Js.chars v) (Js.chars line).
Proof.
  unfold csvValues. intros H. apply in_map_iff in H as (piece & <- & Hp).
  apply split_pieces in Hp as [H1 H2].
  unfold Js.removeAll. rewrite chars_str.
  assert (incl (List.filter (fun x => negb (Ascii.eqb x quote)) (Js.chars (Js.trim piece)))
            (Js.chars piece)) as Hi.
  { intros x Hx. apply filter_In in Hx as [Hx _]. now apply trim_incl. }
  split; [|split].
  - intros Hc. apply H1. now apply Hi.
  - intros Hq. apply filter_In in Hq as [_ Hq]. now rewrite Ascii.eqb_refl in Hq.
  - intros x Hx. apply H2. now apply Hi.
Qed.

(** A line holds no line feed. *)
Lemma csvLines_lines csvContent line :
  In line (csvLines csvContent) -> ~ In lineFeed (Js.chars line).
Proof.
  unfold csvLines. intros H. apply filter_In in H as [H _].
  now apply split_pieces in H as [H _].
Qed.

Lemma csvRecord_lookup headers values key v :
  forall i lead,
    csvRecord headers i values lead !! key = Some v ->
    lead !! key = Some v
    \/ (key <> "__proto__"
        /\ exists j header,
             headers !! j = Some header /\ headerKey header = key
             /\ v = JsString (default "" (values !! (i + j)%nat))).
Proof.
  induction headers as [|header rest IH]; intros i lead; simpl; [now left|].
  intros H. apply IH in H as [H|(Hk & j & h & Hj & Hh & Hv)].
  - unfold setField in H. destruct (String.eqb (headerKey header) "__proto__") eqn:E;
      [now left|].
    destruct (decide (headerKey header = key)) as [<-|Hne].
    + rewrite lookup_insert_eq in H. injection H as <-. right.
      split; [now apply String.eqb_neq|]. exists 0%nat, header.
      rewrite Nat.add_0_r. repeat split.
    + rewrite lookup_insert_ne in H by assumption. now left.
  - right. split; [exact Hk|]. exists (S j), h. simpl.
    replace (i + S j)%nat with (S i + j)%nat by lia. repeat split; assumption.
Qed.

Lemma csvRecord_keys headers values key :
  forall i lead,
    is_Some (csvRecord headers i values lead !! key)
    <-> is_Some (lead !! key)
        \/ (key <> "__proto__" /\ exists header, In header headers /\ headerKey header = key).
Proof.
  induction headers as [|header rest IH]; intros i lead; simpl.
  - split; [now left|]. intros [H|(_ & h & [] & _)]. exact H.
  - rewrite IH. unfold setField.
    destruct (String.eqb (headerKey header) "__proto__") eqn:E.
    + apply String.eqb_eq in E. split.
      * intros [H|(Hk & h & Hh & Hkey)]; [now left|]. right. split; [exact Hk|]. eauto.
      * intros [H|(Hk & h & [<-|Hh] & Hkey)]; [now left|congruence|].
        right. split; [exact Hk|]. eauto.
    + apply String.eqb_neq in E. rewrite lookup_insert_is_Some. split.
      * intros [[<-|[_ H]]|(Hk & h & Hh & Hkey)].
        -- right. split; [exact E|]. eauto.
        -- now left.
        -- right. split; [exact Hk|]. eauto.
      * intros [H|(Hk & h & [<-|Hh] & Hkey)].
        -- left. destruct (decide (headerKey header = key)); [now left|right; eauto].
        -- left. now left.
        -- right. split; [exact Hk|]. eauto.
Qed.

(** The records of an upload are made of text. *)
Lemma csvLeads_textual headers dataLines :
  forallb textualLead (csvLeads headers dataLines) = true.
Proof.
  unfold csvLeads. apply forallb_forall. intros lead Hl.
  apply in_map_iff in Hl as (line & <- & _).
  unfold textualLead, textual. apply forallb_forall. intros [key v] H.
  apply list_elem_of_In, elem_of_map_to_list in H.
  apply csvRecord_lookup in H as [H|(_ & j & h & _ & _ & ->)].
  - now rewrite lookup_empty in H.
  - reflexivity.
Qed.

(** X13. The records that the upload route reads from a file: one per
    line after the header line, blank lines left out; each has exactly the
    keys of the header cells (the key [__proto__] apart, for which no
    property is created), and every value is a string that holds no comma, no
    double quote and no line feed, the empty string where the line has no
    cell for the column. (A comma inside a quoted cell is thus a cell
    boundary like any other.) *)
Theorem uploaded_records_are_text csvContent first dataLines :
  csvLines csvContent = first :: dataLines ->
  length (csvLeads (csvValues first) dataLines) = length dataLines
  /\ Forall
       (fun lead =>
          exists fields,
            lead = ObjectLead fields
            /\ (forall key,
                  is_Some (fields !! key)
                  <-> key <> "__proto__"
                      /\ exists header, In header (csvValues first)
                                        /\ headerKey header = key)
            /\ (forall key v,
                  fields !! key = Some v ->
                  exists text,
                    v = JsString text
                    /\ ~ In ","%char (Js.chars text)
                    /\ ~ In quote (Js.chars text)
                    /\ ~ In lineFeed (Js.chars text)))
       (csvLeads (csvValues first) dataLines).
Proof.
  intros El. unfold csvLeads. split; [apply length_map|].
  apply Forall_forall. intros lead Hl.
  apply list_elem_of_In, in_map_iff in Hl as (line & <- & Hline).
  eexists. split; [reflexivity|]. split.
  - intros key. rewrite csvRecord_keys. split.
    + intros [H|H]; [|exact H]. rewrite lookup_empty in H. now destruct H.
    + intros H. now right.
  - intros key v H. apply csvRecord_lookup in H as [H|(_ & j & h & _ & _ & ->)];
      [now rewrite lookup_empty in H|].
    eexists. split; [reflexivity|].
    destruct (csvValues line !! (0 + j)%nat) as [cell|] eqn:Ec; simpl;
      [|repeat split; intros []].
    apply list_elem_of_lookup_2, list_elem_of_In in Ec.
    apply csvValues_cells in Ec as (H1 & H2 & H3).
    split; [exact H1|]. split; [exact H2|].
    intros Hf. apply H3 in Hf.
    assert (In line (csvLines csvContent)) as Hin by (rewrite El; now right).
    now apply csvLines_lines in Hin.
Qed.

(** X14. An upload never fails a row of its own making: when the file
    can be read and removed and has a line that is not blank, and the chunk
    size is at least 1 (as it is when the request has none), then in a dry
    run, and in a run against a store whose create operations succeed, the
    route answers with the result of the import, which counts one row per
    line after the header line, none of them failed; the dry run leaves the
    store as it was. *)
Theorem upload_fails_no_row file csvContent dryRun chunkSize (store : Store) fuel :
  readFileSync file = Normal csvContent ->
  unlinkSync file = Normal tt ->
  csvLines csvContent <> [] ->
  1 <= processChunkSize (default "1000" chunkSize) ->
  dryRun = Some "true" \/ reliableStore ->
  (length (csvLines csvContent) <= fuel)%nat ->
  exists result store',
    uploadRoute fuel (mkUploadRequest (Some file) dryRun chunkSize) store
    = Some (Json result, store')
    /\ totalRows (batchSummary result) = Z.of_nat (length (csvLines csvContent)) - 1
    /\ failed (batchSummary result) = 0
    /\ importedWithIssues (batchSummary result) = totalRows (batchSummary result)
    /\ (dryRun = Some "true" -> store' = store).
Proof.
  intros Er Eu Hne Hs Hd Hf. unfold uploadRoute. cbn [reqFile bodyDryRun bodyChunkSize].
  cbv zeta. rewrite Er.
  destruct (csvLines csvContent) as [|first dataLines] eqn:El; [congruence|].
  set (leads := csvLeads (csvValues first) dataLines).
  set (isDryRun := String.eqb (default "false" dryRun) "true").
  assert (isDryRun = true \/ reliableStore) as Hd'.
  { destruct Hd as [->|R]; [now left|now right]. }
  assert (length leads = length dataLines) as Hl by (apply length_map).
  destruct (complete_rows_run leads isDryRun (processChunkSize (default "1000" chunkSize))
              store fuel) as (result & store' & E & R1 & R2 & R3 & _).
  - intros roster r Hr.
    pose proof (csvLeads_textual (csvValues first) dataLines) as Ht.
    rewrite forallb_forall in Ht. specialize (Ht r Hr).
    destruct r as [|fields]; [discriminate|]. now apply total_rowBody_textual.
  - exact Hs.
  - rewrite Hl. simpl in Hf. lia.
  - rewrite E, Eu. exists result, store'. split; [reflexivity|].
    rewrite R1, R2, R3, Hl. simpl length.
    split; [lia|]. split; [reflexivity|]. split; [reflexivity|].
    intros ->. apply dry_run_keeps_store in E. exact E.
Qed.

(** X15. The chunk size of an upload. A [chunkSize] field that is not a
    number, or that is 0, counts for nothing: the route does what it does
    for a request without the field (chunks of 1000). A negative number is
    handed over as it is: when the file has a line after its header line the
    splitting loop never ends and the request is never answered. *)
Theorem upload_chunk_size_is_not_checked file dryRun chunkSize (store : Store) :
  (Js.parseInt chunkSize = None \/ Js.parseInt chunkSize = Some 0 ->
   forall fuel,
     uploadRoute fuel (mkUploadRequest (Some file) dryRun (Some chunkSize)) store
     = uploadRoute fuel (mkUploadRequest (Some file) dryRun None) store)
  /\ (forall n csvContent first line dataLines,
        Js.parseInt chunkSize = Some n -> n < 0 ->
        readFileSync file = Normal csvContent ->
        csvLines csvContent = first :: line :: dataLines ->
        forall fuel,
          uploadRoute fuel (mkUploadRequest (Some file) dryRun (Some chunkSize)) store
          = None).
Proof.
  split.
  - intros Hp fuel. unfold uploadRoute. cbn [reqFile bodyDryRun bodyChunkSize default].
    unfold id.
    assert (processChunkSize chunkSize = processChunkSize "1000") as ->; [|reflexivity].
    unfold processChunkSize at 1. destruct Hp as [-> | ->]; reflexivity.
  - intros n csvContent first line dataLines Hp Hn Er El fuel.
    unfold uploadRoute. cbn [reqFile bodyDryRun bodyChunkSize default]. cbv zeta.
    unfold id. rewrite Er, El.
    assert (processChunkSize chunkSize = n) as ->.
    { unfold processChunkSize. rewrite Hp.
      destruct (n =? 0) eqn:E; [apply Z.eqb_eq in E; lia|reflexivity]. }
    unfold processBulkLeadImport.
    rewrite splitLoop_diverges; [reflexivity|lia|discriminate|lia].
Qed.

End UploadFacts.

(* ===================================================================== *)
(** ** What the validator returns *)
(* ===================================================================== *)

Section ValidatorFacts.
Context {Store : Type} {storage : Storage Store} {host : Host}.
#[local] Abbreviation M := (M Store).

Lemma returns_fmap {A B} (g : A -> B) (m : M A) (P : A -> Prop) (Q : B -> Prop) :
  returns m P -> (forall a, P a -> Q (g a)) -> returns (g <$> m) Q.
Proof.
  intros Hm Hg st b st' E. unfold fmap, M_fmap in E.
  destruct (m st) as [[a|e] s1] eqn:E1; inversion E; subst. eapply Hg, Hm. exact E1.
Qed.

Lemma returns_trimmedText path v :
  returns (trimmedField path v : M _) trimmedText.
Proof.
  intros st r st' E. apply returns_trimmedField in E. subst r.
  intros s Hs. eapply explicitStage_trimmed. exact Hs.
Qed.

Lemma returns_normalizePhone p :
  returns (normalizePhone p : M _) (fun r => digitsAndPluses r = true).
Proof.
  intros st r st'. unfold normalizePhone, mbind, M_bind. cbv zeta.
  destruct (_ <? 10)%nat; destruct (negb _); simpl; intros [= <- _];
    unfold digitsAndPluses; rewrite chars_str; apply forallb_filter_same.
Qed.

Lemma returns_normalizeEmail e :
  returns (normalizeEmail e : M _)
    (fun r => (forall v, r = Some v -> emailRegexTest v = true /\ Js.toLowerCase v = v)
              /\ trimmedText r).
Proof.
  intros st r st' E. destruct r as [v|]; [|split; intros ? [=]].
  apply normalizeEmail_accepts in E as [-> T]. split.
  - intros v [= <-]. split; [exact T|apply toLowerCase_trim_fixed].
  - intros v [= <-]. split; [|apply trim_idempotent].
    intros Hv. rewrite Hv in T. discriminate T.
Qed.

Lemma trimmedText_literal s : s <> "" -> Js.trim s = s -> trimmedText (Some s).
Proof. intros H1 H2 s' [= <-]. now split. Qed.

(** X16. What the validator guarantees of the record it returns,
    whatever the raw record holds: the uid is not empty; the name and the
    stage are trimmed and not empty (the defaults included); a phone is made
    of digits and plus signs only (it may be empty); an email matches the
    pattern of the normalizer and is in lower case; and email, source,
    passport status, remarks and counsellors, when they are not [null], are
    trimmed and not empty. *)
Theorem validator_returns_well_formed_records rawLead (st : ImportState Store) n st' :
  normalizeAndValidateLead rawLead st = (Normal n, st') -> wellFormed n.
Proof.
  revert st n st'. change (returns (normalizeAndValidateLead rawLead : M _) wellFormed).
  unfold normalizeAndValidateLead. destruct rawLead as [|f]; [intros st n st' [=]|].
  eapply returns_bind; [apply returns_trimmedText|]. intros uidField Huf.
  eapply (returns_bind _ _ (fun u => u <> "")).
  { destruct uidField as [u|].
    - apply returns_ret. now apply Huf.
    - do 3 (apply returns_any; intros ?). apply returns_ret. discriminate. }
  intros uid Hu.
  eapply returns_bind; [apply returns_trimmedText|]. intros studentName Hsn.
  eapply (returns_bind _ _ (fun s => trimmedText (Some s))).
  { destruct studentName as [s|].
    - apply returns_ret. intros s' [= <-]. now apply Hsn.
    - eapply returns_bind; [apply returns_trimmedText|]. intros nameField Hnf.
      destruct nameField as [s|].
      + apply returns_ret. intros s' [= <-]. now apply Hnf.
      + do 2 (apply returns_any; intros ?). apply returns_ret.
        apply trimmedText_literal; [discriminate|reflexivity]. }
  intros name Hn.
  eapply returns_bind; [apply returns_trimmedText|]. intros stageField Hsf.
  eapply (returns_bind _ _ (fun s => trimmedText (Some s))).
  { destruct stageField as [s|].
    - apply returns_ret. intros s' [= <-]. now apply Hsf.
    - do 2 (apply returns_any; intros ?). apply returns_ret.
      apply trimmedText_literal; [discriminate|reflexivity]. }
  intros stage Hst.
  do 5 (apply returns_any; intros ?).
  eapply returns_bind; [apply returns_trimmedText|]. intros mobileField Hmf.
  eapply (returns_bind _ _ (fun r => forall p, r = Some p -> digitsAndPluses p = true)).
  { destruct mobileField as [m|].
    - eapply returns_fmap; [apply returns_normalizePhone|]. now intros r Hr p [= <-].
    - eapply returns_bind; [apply returns_trimmedText|]. intros phoneField Hpf.
      destruct phoneField as [m|].
      + eapply returns_fmap; [apply returns_normalizePhone|]. now intros r Hr p [= <-].
      + apply returns_any; intros ?. apply returns_ret. intros p [=]. }
  intros phone Hp.
  eapply returns_bind; [apply returns_trimmedText|]. intros emailField Hef.
  eapply (returns_bind _ _
            (fun r => (forall v, r = Some v ->
                         emailRegexTest v = true /\ Js.toLowerCase v = v)
                      /\ trimmedText r)).
  { destruct emailField as [e|].
    - apply returns_normalizeEmail.
    - apply returns_ret. split; intros ? [=]. }
  intros email [He1 He2].
  eapply returns_bind; [apply returns_trimmedText|]. intros source Hso.
  eapply returns_bind; [apply returns_trimmedText|]. intros passportStatus Hps.
  eapply returns_bind; [apply returns_trimmedText|]. intros remarks Hre.
  eapply returns_bind; [apply returns_trimmedText|]. intros counsellors Hco.
  apply returns_ret. unfold wellFormed.
  simpl. repeat (split; [assumption|]). assumption.
Qed.

End ValidatorFacts.

(* ===================================================================== *)
(** ** The empty batch *)
(* ===================================================================== *)

Section EmptyBatch.
Context {Store : Type} {storage : Storage Store} {host : Host}.

(** X17. The empty batch is harmless for every chunk size, 0 and the
    negative ones included: the splitting loop does not start, the call
    returns at once with all counters at 0, no chunk, an empty log and an
    empty table of field issues, the CSV report has its header line only
    and the payload report is empty; the store is left as it was. *)
Theorem empty_batch_gives_an_empty_result dryRun chunkSize (store : Store) fuel :
  (0 < fuel)%nat ->
  exists result,
    processBulkLeadImport fuel [] dryRun chunkSize store = Some (Normal result, store)
    /\ success result = true
    /\ counts (batchSummary result) = (0, 0, 0, 0, mkChunkStats 0 0 0)
    /\ fieldIssues (batchSummary result) = ∅
    /\ validationLog result = []
    /\ reportValidationLog (downloadableReports result)
       = csvRow ["Row Number"; "Status"; "Fixes Applied"; "Warnings"; "Errors"]
    /\ reportNormalizedPayload (downloadableReports result) = "".
Proof.
  intros Hf. destruct fuel as [|fuel]; [lia|].
  unfold processBulkLeadImport.
  change (splitLoop (S fuel) [] chunkSize 0 []) with (Some ([] : list (list RawLead))).
  destruct (importChunks_spec [] dryRun chunkSize [] (initialState store))
    as (roster & st3 & _ & Ec & Ei).
  injection Ec as <-. rewrite Ei. unfold buildResult.
  eexists. split; [reflexivity|]. repeat split.
Qed.

End EmptyBatch.

(* ===================================================================== *)
(** ** The chunk size and the result *)
(* ===================================================================== *)

Create HintDb blind.

Section BlindFacts.
Context {Store : Type} {storage : Storage Store} {host : Host}.
#[local] Abbreviation M := (M Store).

Lemma chunkBlind_ret {A} (a : A) : chunkBlind (mret a : M A).
Proof. intros st a' b. reflexivity. Qed.

Lemma chunkBlind_throw {A} e : chunkBlind (throw e : M A).
Proof. intros st a b. reflexivity. Qed.

Lemma chunkBlind_bind {A B} (m : M A) (f : A -> M B) :
  chunkBlind m -> (forall a, chunkBlind (f a)) -> chunkBlind (m ≫= f).
Proof.
  intros Hm Hf st a b. unfold mbind, M_bind. rewrite Hm.
  destruct (m st) as [[x|e] st1]; simpl; [apply Hf|reflexivity].
Qed.

Lemma chunkBlind_fmap {A B} (g : A -> B) (m : M A) : chunkBlind m -> chunkBlind (g <$> m).
Proof.
  intros Hm st a b. unfold fmap, M_fmap. rewrite Hm.
  destruct (m st) as [[x|e] st1]; reflexivity.
Qed.

Lemma chunkBlind_tryCatch {A} (body : M A) handler :
  chunkBlind body -> (forall e, chunkBlind (handler e)) ->
  chunkBlind (tryCatch body handler).
Proof.
  intros Hb Hh st a b. unfold tryCatch. rewrite Hb.
  destruct (body st) as [[x|e] st1]; simpl; [reflexivity|apply Hh].
Qed.

Lemma chunkBlind_when c (m : M unit) : chunkBlind m -> chunkBlind (when c m).
Proof. destruct c; simpl; auto using chunkBlind_ret. Qed.

Lemma chunkBlind_modifyLog f : chunkBlind (modifyLog f : M unit).
Proof. intros st a b. reflexivity. Qed.
Lemma chunkBlind_pushFix msg : chunkBlind (pushFix msg : M unit).
Proof. apply chunkBlind_modifyLog. Qed.
Lemma chunkBlind_pushWarning msg : chunkBlind (pushWarning msg : M unit).
Proof. apply chunkBlind_modifyLog. Qed.
Lemma chunkBlind_pushError msg : chunkBlind (pushError msg : M unit).
Proof. apply chunkBlind_modifyLog. Qed.
Lemma chunkBlind_setStatus s : chunkBlind (setStatus s : M unit).
Proof. apply chunkBlind_modifyLog. Qed.
Lemma chunkBlind_setNormalizedData d : chunkBlind (setNormalizedData d : M unit).
Proof. apply chunkBlind_modifyLog. Qed.
Lemma chunkBlind_setLog l : chunkBlind (setLog l : M unit).
Proof. apply chunkBlind_modifyLog. Qed.
Lemma chunkBlind_getLog : chunkBlind (getLog : M _).
Proof. intros st a b. reflexivity. Qed.
Lemma chunkBlind_dateNow : chunkBlind (dateNow : M Z).
Proof. intros st a b. reflexivity. Qed.
Lemma chunkBlind_addFieldIssue f i : chunkBlind (addFieldIssue f i : M unit).
Proof. intros st a b. reflexivity. Qed.
Lemma chunkBlind_pushEntry e : chunkBlind (pushEntry e : M unit).
Proof. intros st a b. reflexivity. Qed.
Lemma chunkBlind_incrImported : chunkBlind (incrImported : M unit).
Proof. intros st a b. reflexivity. Qed.
Lemma chunkBlind_incrImportedWithIssues : chunkBlind (incrImportedWithIssues : M unit).
Proof. intros st a b. reflexivity. Qed.
Lemma chunkBlind_incrFailed : chunkBlind (incrFailed : M unit).
Proof. intros st a b. reflexivity. Qed.
Lemma chunkBlind_liftCompletion {A} (c : Completion A) :
  chunkBlind (liftCompletion c : M A).
Proof. intros st a b. reflexivity. Qed.
Lemma chunkBlind_liftStore {A} (op : Store -> Completion A * Store) :
  chunkBlind (liftStore op).
Proof.
  intros st a b. unfold liftStore. simpl. destruct (op (stStore st)). reflexivity.
Qed.

End BlindFacts.

#[export] Hint Resolve chunkBlind_ret chunkBlind_throw chunkBlind_pushFix
  chunkBlind_pushWarning chunkBlind_pushError chunkBlind_setStatus
  chunkBlind_setNormalizedData chunkBlind_setLog chunkBlind_getLog chunkBlind_dateNow
  chunkBlind_addFieldIssue chunkBlind_pushEntry chunkBlind_incrImported
  chunkBlind_incrImportedWithIssues chunkBlind_incrFailed chunkBlind_liftCompletion
  chunkBlind_liftStore : blind.

Ltac blind_step :=
  lazymatch goal with
  | |- chunkBlind (mbind _ _) => apply chunkBlind_bind; [|intros ?]
  | |- chunkBlind (tryCatch _ _) => apply chunkBlind_tryCatch; [|intros ?]
  | |- chunkBlind (when _ _) => apply chunkBlind_when
  | |- chunkBlind (fmap _ _) => apply chunkBlind_fmap
  | |- chunkBlind (match ?x with _ => _ end) => destruct x
  | |- chunkBlind _ => solve [auto with blind]
  end.
Ltac solve_blind := cbv zeta; repeat blind_step.

Section BlindFacts2.
Context {Store : Type} {storage : Storage Store} {host : Host}.
#[local] Abbreviation M := (M Store).

Lemma chunkBlind_trimmedField path v : chunkBlind (trimmedField path v : M _).
Proof. unfold trimmedField. solve_blind. Qed.
Lemma chunkBlind_normalizeIntake i : chunkBlind (normalizeIntake i : M _).
Proof. unfold normalizeIntake. solve_blind. Qed.
Lemma chunkBlind_normalizeCountry c : chunkBlind (normalizeCountry c : M _).
Proof. unfold normalizeCountry. solve_blind. Qed.
Lemma chunkBlind_normalizePhone p : chunkBlind (normalizePhone p : M _).
Proof. unfold normalizePhone. solve_blind. Qed.
Lemma chunkBlind_normalizeEmail e : chunkBlind (normalizeEmail e : M _).
Proof. unfold normalizeEmail. solve_blind. Qed.
Lemma chunkBlind_parseLeadDate v : chunkBlind (parseLeadDate v : M _).
Proof. unfold parseLeadDate. solve_blind. Qed.
Lemma chunkBlind_leadId newLead : chunkBlind (leadId newLead : M _).
Proof. unfold leadId. solve_blind. Qed.
Hint Resolve chunkBlind_trimmedField chunkBlind_normalizeIntake
  chunkBlind_normalizeCountry chunkBlind_normalizePhone chunkBlind_normalizeEmail
  chunkBlind_parseLeadDate chunkBlind_leadId : blind.

Lemma chunkBlind_normalizeAndValidateLead rawLead :
  chunkBlind (normalizeAndValidateLead rawLead : M _).
Proof. unfold normalizeAndValidateLead. solve_blind. Qed.
Lemma chunkBlind_persistLead roster n b : chunkBlind (persistLead roster n b : M _).
Proof. unfold persistLead. solve_blind. Qed.
Hint Resolve chunkBlind_normalizeAndValidateLead chunkBlind_persistLead : blind.

Lemma chunkBlind_processRow dryRun roster start i r :
  chunkBlind (processRow dryRun roster start i r : M _).
Proof. unfold processRow, startRow, rowBody, rowCatch, classifyRow. solve_blind. Qed.

Lemma chunkBlind_forRows dryRun roster start rows :
  forall i, chunkBlind (forRows dryRun roster start i rows : M _).
Proof.
  induction rows as [|r rest IH]; intros i; simpl.
  - apply chunkBlind_ret.
  - apply chunkBlind_bind; [apply chunkBlind_processRow|intros _; apply IH].
Qed.

(** A row only sees the sum of the start of its chunk and its index. *)
Lemma processRow_shift dryRun roster start i r :
  processRow dryRun roster start i r = processRow dryRun roster 0 (start + i) r.
Proof.
  unfold processRow, startRow. cbv zeta.
  now replace (0 + (start + i) + 1) with (start + i + 1) by lia.
Qed.

Lemma forRows_shift dryRun roster start rows :
  forall i, forRows dryRun roster start i rows = forRows dryRun roster 0 (start + i) rows.
Proof.
  induction rows as [|r rest IH]; intros i; simpl; [reflexivity|].
  rewrite processRow_shift, IH. now replace (start + (i + 1)) with (start + i + 1) by lia.
Qed.

Lemma forRows_app dryRun roster start (rows more : list RawLead) :
  forall i (st st1 : ImportState Store),
    forRows dryRun roster start i rows st = (Normal tt, st1) ->
    forRows dryRun roster start i (rows ++ more) st
    = forRows dryRun roster start (i + Z.of_nat (length rows)) more st1.
Proof.
  induction rows as [|r rest IH]; intros i st st1 E; simpl in *.
  - injection E as <-. now rewrite Z.add_0_r.
  - apply bind_inv in E as [([] & s1 & E1 & E2)|(e & _ & [=])].
    rewrite (bind_normal _ _ _ _ _ E1). rewrite (IH _ _ _ E2).
    f_equal. lia.
Qed.

(** The loop over the chunks, when the row-level handler deals with
    everything the rows throw, does what one loop over all the rows does,
    and counts the chunks. *)
Lemma forChunks_flat dryRun roster size chunks :
  (forall r, throwsReadable (rowBody dryRun roster r : M _)) ->
  fullChunks size chunks ->
  forall idx (st : ImportState Store),
    forChunks dryRun roster size idx chunks st
    = (Normal tt,
       withChunks (stSuccessfulChunks st + Z.of_nat (length chunks)) (stFailedChunks st)
         (snd (forRows dryRun roster 0 (idx * size) (concat chunks) st))).
Proof.
  intros Hr. induction chunks as [|chunk rest IH]; intros Hfull idx st.
  - simpl. rewrite Z.add_0_r. now destruct st.
  - destruct (forRows_follow dryRun roster (idx * size) chunk Hr 0 st)
      as (st1 & entries1 & E1 & _).
    assert (stSuccessfulChunks st1 = stSuccessfulChunks st
            /\ stFailedChunks st1 = stFailedChunks st) as [C1 C2].
    { destruct (forRows_cases dryRun roster (idx * size) chunk 0 st)
        as (? & _ & _ & _ & _ & _ & D1 & D2 & _).
      rewrite E1 in D1, D2. split; assumption. }
    simpl forChunks.
    rewrite (bind_normal _ _ _ tt (snd (incrSuccessfulChunks st1))).
    2:{ unfold processChunk, tryCatch, chunkBody. cbv zeta.
        rewrite (bind_normal _ _ _ _ _ E1). reflexivity. }
    rewrite (IH (fullChunks_tail _ _ _ Hfull)). f_equal.
    change (snd (incrSuccessfulChunks st1))
      with (withChunks (stSuccessfulChunks st1 + 1) (stFailedChunks st1) st1).
    rewrite (chunkBlind_forRows dryRun roster 0 (concat rest)). simpl.
    rewrite forRows_shift, Z.add_0_r in E1.
    simpl concat. rewrite (forRows_app _ _ _ _ _ _ _ _ E1).
    assert (forRows dryRun roster 0 ((idx + 1) * size) (concat rest) st1
            = forRows dryRun roster 0 (idx * size + Z.of_nat (length chunk)) (concat rest)
                st1) as ->.
    { destruct rest as [|next rest']; [reflexivity|].
      rewrite (Hfull 0%nat chunk eq_refl) by (simpl; lia). f_equal. lia. }
    unfold withChunks. simpl. f_equal; lia.
Qed.

(** Two chunk sizes at the same readings of the clock: when the
    row-level handler deals with everything the rows throw, the two runs
    return results with the same validation log, counters, field issues and
    reports, and leave the same store. *)
Lemma chunk_size_same_clock rawLeads dryRun size1 size2 (store : Store) fuel :
  dryRun = true \/ politeStore ->
  1 <= size1 -> 1 <= size2 -> (length rawLeads < fuel)%nat ->
  exists result1 result2 store',
    processBulkLeadImport fuel rawLeads dryRun size1 store = Some (Normal result1, store')
    /\ processBulkLeadImport fuel rawLeads dryRun size2 store
       = Some (Normal result2, store')
    /\ validationLog result1 = validationLog result2
    /\ downloadableReports result1 = downloadableReports result2
    /\ fieldIssues (batchSummary result1) = fieldIssues (batchSummary result2)
    /\ (totalRows (batchSummary result1), imported (batchSummary result1),
        importedWithIssues (batchSummary result1), failed (batchSummary result1))
       = (totalRows (batchSummary result2), imported (batchSummary result2),
          importedWithIssues (batchSummary result2), failed (batchSummary result2)).
Proof.
  intros Hp H1 H2 Hf.
  destruct (splitLoop_full_chunks rawLeads size1 H1) as (chunks1 & S1 & C1 & F1 & _).
  destruct (splitLoop_full_chunks rawLeads size2 H2) as (chunks2 & S2 & C2 & F2 & _).
  unfold processBulkLeadImport. rewrite (S1 fuel Hf), (S2 fuel Hf).
  destruct (importChunks_spec rawLeads dryRun size1 chunks1 (initialState store))
    as (roster & st1 & Er1 & Ec1 & ->).
  destruct (importChunks_spec rawLeads dryRun size2 chunks2 (initialState store))
    as (roster2 & st2 & Er2 & Ec2 & ->).
  assert (roster2 = roster) as -> by congruence.
  rewrite (forChunks_flat dryRun roster size1 chunks1
             (fun r => throwsReadable_rowBody dryRun roster r Hp) F1) in Ec1.
  rewrite (forChunks_flat dryRun roster size2 chunks2
             (fun r => throwsReadable_rowBody dryRun roster r Hp) F2) in Ec2.
  rewrite C1 in Ec1. rewrite C2 in Ec2. rewrite !Z.mul_0_l in *.
  injection Ec1 as <-. injection Ec2 as <-.
  eexists _, _, _. split; [reflexivity|]. split; [reflexivity|].
  simpl. repeat split.
Qed.

End BlindFacts2.

(* ===================================================================== *)
(** ** Properties that are not text *)
(* ===================================================================== *)

Section TrimFacts.
Context {Store : Type} {storage : Storage Store} {host : Host}.
#[local] Abbreviation M := (M Store).

Lemma fails_throw {A} e : fails (throw e : M A).
Proof. intros st. now exists e, st. Qed.

Lemma fails_bind_l {A B} (m : M A) (f : A -> M B) : fails m -> fails (m ≫= f).
Proof.
  intros Hm st. destruct (Hm st) as (e & st' & E). exists e, st'.
  now apply bind_throw.
Qed.

Lemma fails_bind_r {A B} (m : M A) (f : A -> M B) :
  (forall a, fails (f a)) -> fails (m ≫= f).
Proof.
  intros Hf st. unfold mbind, M_bind.
  destruct (m st) as [[a|e] st1]; [apply Hf|now exists e, st1].
Qed.

Lemma fails_bind_returns {A B} (m : M A) (f : A -> M B) (P : A -> Prop) :
  returns m P -> (forall a, P a -> fails (f a)) -> fails (m ≫= f).
Proof.
  intros Hm Hf st. unfold mbind, M_bind.
  destruct (m st) as [[a|e] st1] eqn:E; [|now exists e, st1].
  apply Hf. eapply Hm. exact E.
Qed.

Lemma fails_trimmedField path v : nonText v = true -> fails (trimmedField path v : M _).
Proof.
  destruct v as [[|s|[] text|]|]; try discriminate; intros _; apply fails_throw.
Qed.

Lemma throwsOnly_total {A} P (m : M A) : total m -> throwsOnly P m.
Proof. intros Hm st e st' E. destruct (Hm st) as (a & s & E'). congruence. Qed.

Lemma throwsOnly_bind {A B} P (m : M A) (f : A -> M B) :
  throwsOnly P m -> (forall a, throwsOnly P (f a)) -> throwsOnly P (m ≫= f).
Proof.
  intros Hm Hf st e st' E.
  apply bind_inv in E as [(a & s1 & E1 & E2)|(e' & E1 & E2)].
  - eapply Hf; eauto.
  - inversion E2; subst. eapply Hm; eauto.
Qed.

Lemma throwsOnly_tryCatch {A} P (body : M A) handler :
  (forall e, throwsOnly P (handler e)) -> throwsOnly P (tryCatch body handler).
Proof.
  intros Hh st e st' E. unfold tryCatch in E.
  destruct (body st) as [[a|e0] st1]; [discriminate|]. eapply Hh. exact E.
Qed.

Lemma throwsOnly_trimmedField f path v :
  (exists field, In field trimmedFields /\ path = "rawLead." +:+ field) ->
  throwsOnly (validatorError f) (trimmedField path v : M _).
Proof.
  intros (field & Hin & ->) st e st' E. exists (trimMessage field).
  split; [left; now exists field|].
  unfold trimmedField in E. destruct v as [[|s|[] text|]|]; simpl in E;
    repeat match type of E with context [if ?c then _ else _] => destruct c end;
    try discriminate; injection E as <- _; reflexivity.
Qed.

Lemma throwsOnly_valueToString f :
  throwsOnly (validatorError f)
    (liftCompletion (valueToString (default JsNull (f !! "leadCreatedDate"))) : M _).
Proof.
  intros st e st' E. unfold liftCompletion in E.
  destruct (f !! "leadCreatedDate") as [[|s|t text|]|] eqn:Ed; try discriminate.
  injection E as <- _. exists conversionMessage. split; [now right|reflexivity].
Qed.

Hint Resolve total_normalizeIntake total_normalizeCountry total_normalizePhone
  total_normalizeEmail total_fmap : total.

Ltac only_step :=
  lazymatch goal with
  | |- throwsOnly _ (mbind _ _) => apply throwsOnly_bind; [|intros ?]
  | |- throwsOnly _ (trimmedField _ _) =>
      apply throwsOnly_trimmedField; eexists; split; cycle 1;
        [reflexivity|vm_compute; tauto]
  | |- throwsOnly _ (liftCompletion (valueToString _)) => apply throwsOnly_valueToString
  | |- throwsOnly _ (tryCatch _ _) => apply throwsOnly_tryCatch; intros ?
  | |- throwsOnly _ (match ?x with _ => _ end) => destruct x
  | |- throwsOnly _ _ => apply throwsOnly_total; solve [solve_total]
  end.

(** What the validator throws on a record. *)
Lemma throwsOnly_normalizeAndValidateLead f :
  throwsOnly (validatorError f) (normalizeAndValidateLead (ObjectLead f) : M _).
Proof. unfold normalizeAndValidateLead. cbv zeta. repeat only_step. Qed.

Ltac fails_walk H :=
  repeat first
    [ apply fails_bind_l; apply fails_trimmedField; exact H
    | apply fails_bind_l; apply fails_bind_l; apply fails_trimmedField; exact H
    | apply fails_bind_l; intros ?; rewrite H; eexists _, _; reflexivity
    | eapply fails_bind_returns;
      [apply returns_trimmedField|intros ? ->;
       repeat match goal with
              | E : explicitStage _ = None |- _ => rewrite E
              end]
    | apply fails_bind_r; intros ? ].

(** The validator throws on the rows of [rowThrows]. *)
Lemma fails_normalizeAndValidateLead r :
  rowThrows r = true -> fails (normalizeAndValidateLead r : M _).
Proof.
  destruct r as [|f]; [intros _; apply fails_throw|].
  unfold rowThrows. rewrite !orb_true_iff. unfold normalizeAndValidateLead.
  intros H.
  repeat match type of H with _ \/ _ => destruct H as [H|H] end;
    try (destruct (explicitStage _) eqn:Es in H; [discriminate H|]);
    try (destruct (f !! "leadCreatedDate") as [[| | |]|] eqn:Ed in H;
         try discriminate H);
    try (fails_walk H; fail);
    try (fails_walk Ed; fail).
Qed.

Lemma total_bind_returns {A B} (m : M A) (f : A -> M B) (P : A -> Prop) :
  total m -> returns m P -> (forall a, P a -> total (f a)) -> total (m ≫= f).
Proof.
  intros Hm Hr Hf st. destruct (Hm st) as (a & st1 & E).
  rewrite (bind_normal _ _ _ _ _ E). apply Hf. eapply Hr. exact E.
Qed.

Lemma total_trimmedField_text path v :
  nonText v = false -> total (trimmedField path v : M _).
Proof.
  unfold trimmedField. destruct v as [[|s|[] text|]|]; try discriminate; intros _;
    solve_total.
Qed.

(** On every other record the validator returns. *)
Lemma total_normalizeAndValidateLead f :
  rowThrows (ObjectLead f) = false ->
  total (normalizeAndValidateLead (ObjectLead f) : M _).
Proof.
  unfold rowThrows. rewrite !orb_false_iff.
  intros (((((((((((((H1 & H2) & H3) & H4) & H5) & H6) & H7) & H8) & H9) & H10) & H11)
             & H12) & H13) & H14).
  pose proof (fun path => total_trimmedField_text path _ H1) as T1.
  pose proof (fun path => total_trimmedField_text path _ H2) as T2.
  pose proof (fun path => total_trimmedField_text path _ H4) as T4.
  pose proof (fun path => total_trimmedField_text path _ H6) as T6.
  pose proof (fun path => total_trimmedField_text path _ H7) as T7.
  pose proof (fun path => total_trimmedField_text path _ H8) as T8.
  pose proof (fun path => total_trimmedField_text path _ H10) as T10.
  pose proof (fun path => total_trimmedField_text path _ H11) as T11.
  pose proof (fun path => total_trimmedField_text path _ H12) as T12.
  pose proof (fun path => total_trimmedField_text path _ H13) as T13.
  pose proof (fun path => total_trimmedField_text path _ H14) as T14.
  assert (total (liftCompletion
                   (valueToString (default JsNull (f !! "leadCreatedDate"))) : M _))
    as Tv.
  { intros st. destruct (f !! "leadCreatedDate") as [[|s|t text|]|];
      try discriminate; eexists _, _; reflexivity. }
  unfold normalizeAndValidateLead.
  apply total_bind; [apply T1|intros ?].
  apply total_bind; [solve_total|intros ?].
  eapply total_bind_returns; [apply T2|apply returns_trimmedField|intros ? ->].
  apply total_bind.
  { destruct (explicitStage (f !! "studentName")); [solve_total|].
    pose proof (fun path => total_trimmedField_text path _ H3) as T3. solve_total. }
  intros ?.
  do 7 (apply total_bind; [solve [solve_total]|intros ?]).
  eapply total_bind_returns; [apply T8|apply returns_trimmedField|intros ? ->].
  apply total_bind.
  { destruct (explicitStage (f !! "mobileNumber")); [solve_total|].
    pose proof (fun path => total_trimmedField_text path _ H9) as T9. solve_total. }
  intros ?. solve_total.
Qed.

(** Whether a row completes, when nothing but the validator throws. *)
Lemma tryOutcome_rowThrows dryRun roster start i r (st : ImportState Store) :
  dryRun = true \/ reliableStore ->
  if rowThrows r
  then exists e, tryOutcome dryRun roster start i r st = Throw e /\ readable e = true
  else tryOutcome dryRun roster start i r st = Normal tt.
Proof.
  intros Hd. unfold tryOutcome.
  set (s0 := snd (startRow start i r st)).
  destruct (rowThrows r) eqn:Hr.
  - destruct (fails_normalizeAndValidateLead r Hr s0) as (e & s1 & E).
    exists e. unfold rowBody. rewrite (bind_throw _ _ _ _ _ E).
    split; [reflexivity|].
    eapply throwsReadable_normalizeAndValidateLead. exact E.
  - destruct r as [|f]; [discriminate|].
    assert (total (rowBody dryRun roster (ObjectLead f) : M _)) as Ht.
    { unfold rowBody.
      assert (forall n b, total (when (negb dryRun) (persistLead roster n b) : M _)) as Hp.
      { intros n b. destruct Hd as [->|R]; [apply total_ret|].
        apply total_when. now apply total_persistLead_reliable. }
      apply total_bind; [now apply total_normalizeAndValidateLead|intros n]. cbv zeta.
      apply total_bind; [apply total_setNormalizedData|intros _].
      apply total_bind; [apply Hp|intros _]. apply total_classifyRow. }
    destruct (Ht s0) as ([] & s1 & ->). reflexivity.
Qed.

(** The statuses that a loop over rows writes, when nothing but the
    validator throws. *)
Lemma forRows_statuses dryRun roster start rows :
  dryRun = true \/ reliableStore ->
  forall i (st : ImportState Store),
    exists st' entries,
      forRows dryRun roster start i rows st = (Normal tt, st')
      /\ stValidationLog st' = stValidationLog st ++ entries
      /\ map status entries = map rowStatus rows.
Proof.
  intros Hd. induction rows as [|r rest IH]; intros i st.
  - exists st, []. simpl. now rewrite app_nil_r.
  - pose proof (tryOutcome_rowThrows dryRun roster start i r st Hd) as T.
    assert (exists st1 entry,
              processRow dryRun roster start i r st = (Normal tt, st1)
              /\ stValidationLog st1 = stValidationLog st ++ [entry]
              /\ status entry = rowStatus r) as (st1 & entry & E1 & V1 & S1).
    { unfold rowStatus. destruct (rowThrows r).
      - destruct T as (e & T & R).
        destruct (processRow_caught _ _ _ _ _ _ _ T R)
          as (st1 & entry & E1 & V1 & (_ & S1 & _) & _).
        eauto 6.
      - destruct (processRow_completes _ _ _ _ _ _ T)
          as (st1 & entry & E1 & V1 & S1 & _).
        eauto 6. }
    destruct (IH (i + 1) st1) as (st' & entries & E & V & S).
    exists st', (entry :: entries). simpl forRows. rewrite (bind_normal _ _ _ _ _ E1).
    split; [exact E|]. split; [rewrite V, V1, <- app_assoc; reflexivity|].
    simpl. now rewrite S1, S.
Qed.

(** X19. A row on which the validator throws fails, in a dry run and in
    a real run alike. The validator throws on a truthy property that is not
    a string (a number, [true], an array, an object) wherever it calls
    [trim], and on a [leadCreatedDate] that has no primitive value (an object
    with an own [toString]): [new Date] throws on it and so does, in the
    handler, the template literal of the warning. The row is logged once,
    with status [Failed]; the last of its errors is the message of the
    [TypeError] of one of the [trim] calls or, for such a date only, that of
    the conversion; the failed counter goes up by one and, the validator
    having stopped before anything is persisted, the store is as it was. *)
Theorem non_text_field_fails_the_row dryRun roster start i f (st : ImportState Store) :
  rowThrows (ObjectLead f) = true ->
  exists message entry st',
    validatorError f message
    /\ processRow dryRun roster start i (ObjectLead f) st = (Normal tt, st')
    /\ stValidationLog st' = stValidationLog st ++ [entry]
    /\ rowNumber entry = start + i + 1
    /\ status entry = Failed
    /\ (exists before, errors entry = before ++ [message])
    /\ failedCount st' = failedCount st + 1
    /\ importedCount st' + importedWithIssuesCount st'
       = importedCount st + importedWithIssuesCount st
    /\ stStore st' = stStore st.
Proof.
  intros Hr.
  destruct (fails_normalizeAndValidateLead (ObjectLead f) Hr
              (snd (startRow start i (ObjectLead f) st))) as (e & s1 & Ev).
  destruct (throwsOnly_normalizeAndValidateLead f _ _ _ Ev) as (message & Hm & ->).
  assert (forall d, rowBody d roster (ObjectLead f)
                      (snd (startRow start i (ObjectLead f) st))
                    = (Throw (typeError message), s1)) as Hb.
  { intros d. unfold rowBody. now apply bind_throw. }
  assert (processRow dryRun roster start i (ObjectLead f) st
          = processRow true roster start i (ObjectLead f) st) as Hd.
  { unfold processRow, mbind, M_bind, tryCatch.
    destruct (startRow start i (ObjectLead f) st) as [[[]|e0] st0] eqn:E0;
      [|reflexivity].
    simpl in Hb. now rewrite !Hb. }
  destruct (processRow_caught dryRun roster start i (ObjectLead f) st
              (typeError message))
    as (st' & entry & Ep & El & (En & Es & before & Ee) & _ & Ec1 & Ec2 & _).
  { unfold tryOutcome. now rewrite Hb. }
  { reflexivity. }
  exists message, entry, st'. split; [exact Hm|]. split; [exact Ep|].
  split; [exact El|]. split; [exact En|]. split; [exact Es|].
  split.
  { exists before. rewrite Ee. f_equal. f_equal.
    destruct Hm as [(field & _ & ->)|(_ & ->)]; reflexivity. }
  split; [exact Ec2|]. split; [lia|].
  replace st' with (snd (processRow dryRun roster start i (ObjectLead f) st))
    by now rewrite Ep.
  rewrite Hd. apply oblivious_keeps_store, oblivious_processRow_dry.
Qed.

End TrimFacts.

(* ===================================================================== *)
(** ** The second pass of the date parsing *)
(* ===================================================================== *)

Section DateFacts.
Context {Store : Type} {storage : Storage Store} {host : Host}.
#[local] Abbreviation M := (M Store).

Lemma digit_is_not (sep c : ascii) :
  Js.isDigit sep = false -> Js.isDigit c = true -> isChar sep c = false.
Proof.
  intros Hs Hc. unfold isChar. destruct (Ascii.eqb c sep) eqn:E; [|reflexivity].
  apply Ascii.eqb_eq in E. congruence.
Qed.

Ltac class_step :=
  match goal with
  | H : Js.isDigit ?c = true |- context [Js.isDigit ?c] => rewrite H
  | H : Js.isDigit ?c = true |- context [isChar ?sep ?c] =>
      rewrite (digit_is_not sep c eq_refl H)
  | |- context [Js.isDigit ?c] =>
      let b := eval vm_compute in (Js.isDigit c) in change (Js.isDigit c) with b
  | |- context [isChar ?sep ?c] =>
      let b := eval vm_compute in (isChar sep c) in change (isChar sep c) with b
  end.
Ltac run_classes :=
  repeat (cbn [Js.replaceFirst Js.matchPrefix dayMonthYear compactDate]; class_step);
  cbn [Js.replaceFirst Js.matchPrefix].

(** X20. Dates written day first. A [leadCreatedDate] of the form
    [DD/MM/YYYY], [DD-MM-YYYY] or [YYYYMMDD] that [new Date] does not read
    as it stands is read as [YYYY-MM-DD]: the parsing returns what
    [new Date] makes of the rewritten text and throws
    [Unparseable date format] (which the validator catches) when that is
    no date either. The state is not touched. *)
Theorem day_first_dates_are_read_as_iso (d1 d2 m1 m2 y1 y2 y3 y4 : ascii) raw
    (st : ImportState Store) :
  forallb Js.isDigit [d1; d2; m1; m2; y1; y2; y3; y4] = true ->
  raw = dayFirstDate "/" d1 d2 m1 m2 y1 y2 y3 y4
  \/ raw = dayFirstDate "-" d1 d2 m1 m2 y1 y2 y3 y4
  \/ raw = compactDateText d1 d2 m1 m2 y1 y2 y3 y4 ->
  parseLeadDate (JsString raw) st
  = (match newDate (JsString raw) with
     | Some t => Normal t
     | None =>
         match newDate (JsString (isoDateText d1 d2 m1 m2 y1 y2 y3 y4)) with
         | Some t => Normal t
         | None => Throw (ThrownError "Error" "Unparseable date format")
         end
     end, st).
Proof.
  intros Hd Hraw. cbn [forallb] in Hd.
  repeat (apply andb_prop in Hd as [? Hd]). clear Hd.
  unfold parseLeadDate, commonFormats.
  destruct Hraw as [->|[->| ->]];
    unfold dayFirstDate, compactDateText, isoDateText, Js.chars, Js.str;
    cbn [list_ascii_of_string string_of_list_ascii app];
    run_classes.
  all: unfold toYearMonthDay, dashDate, Js.chars;
    cbn [drop take app list_ascii_of_string string_of_list_ascii firstValid].
  all: repeat match goal with
       | |- context [newDate ?v] =>
           lazymatch goal with
           | |- context [match newDate v with _ => _ end] =>
               destruct (newDate v) eqn:?
           end
       end; try reflexivity; try congruence.
Qed.

End DateFacts.

(* ===================================================================== *)
(** ** The lines of the validation report *)
(* ===================================================================== *)

Section ReportFacts.

Lemma chars_append a b : Js.chars (a +:+ b) = Js.chars a ++ Js.chars b.
Proof. induction a as [|c a IH]; simpl; [reflexivity|]. f_equal. exact IH. Qed.

Lemma lineFeedsIn_append a b : lineFeedsIn (a +:+ b) = (lineFeedsIn a + lineFeedsIn b)%nat.
Proof. unfold lineFeedsIn. now rewrite chars_append, List.filter_app, length_app. Qed.

Lemma lineFeedsIn_join sep l :
  lineFeedsIn sep = 0%nat ->
  lineFeedsIn (Js.join sep l) = list_sum (map lineFeedsIn l).
Proof.
  intros Hs. induction l as [|x [|y r] IH]; [reflexivity|simpl; lia|].
  change (Js.join sep (x :: y :: r)) with (x +:+ sep +:+ Js.join sep (y :: r)).
  rewrite !lineFeedsIn_append, IH, Hs. simpl. lia.
Qed.

Lemma lineFeedsIn_lines l :
  lineFeedsIn (Js.join newline l)
  = (Nat.pred (length l) + list_sum (map lineFeedsIn l))%nat.
Proof.
  induction l as [|x [|y r] IH]; [reflexivity|simpl; lia|].
  change (Js.join newline (x :: y :: r)) with (x +:+ newline +:+ Js.join newline (y :: r)).
  rewrite !lineFeedsIn_append, IH. simpl. lia.
Qed.

Lemma lineFeedsIn_uint d : lineFeedsIn (NilEmpty.string_of_uint d) = 0%nat.
Proof. induction d; simpl; [reflexivity|exact IHd..]. Qed.

Lemma lineFeedsIn_numberToString z : lineFeedsIn (Js.numberToString z) = 0%nat.
Proof.
  unfold Js.numberToString, NilZero.string_of_int, NilZero.string_of_uint.
  destruct (Z.to_int z) as [d|d].
  - destruct d; try reflexivity; apply lineFeedsIn_uint.
  - change (lineFeedsIn (match d with
                         | Decimal.Nil => "0"
                         | _ => NilEmpty.string_of_uint d
                         end) = 0%nat).
    destruct d; try reflexivity; apply lineFeedsIn_uint.
Qed.

Lemma lineFeedsIn_csvRow cells :
  lineFeedsIn (csvRow cells) = list_sum (map lineFeedsIn cells).
Proof.
  unfold csvRow. rewrite lineFeedsIn_join by reflexivity. rewrite map_map.
  f_equal. apply map_ext. intros cell. now rewrite !lineFeedsIn_append, Nat.add_0_r.
Qed.

Lemma lineFeedsIn_reportCells entry :
  list_sum (map lineFeedsIn (reportCells entry)) = entryLineFeeds entry.
Proof.
  unfold reportCells, entryLineFeeds. cbn [map list_sum].
  rewrite lineFeedsIn_numberToString, !lineFeedsIn_join by reflexivity.
  rewrite !map_app, !list_sum_app.
  destruct (status entry); simpl; lia.
Qed.

Lemma splitOn_length sep l :
  length (Js.splitOn sep l)
  = S (length (List.filter (fun c => Ascii.eqb c sep) l)).
Proof.
  induction l as [|c r IH]; [reflexivity|]. simpl.
  destruct (Ascii.eqb c sep); simpl; [now rewrite IH|].
  destruct (Js.splitOn sep r); simpl in *; lia.
Qed.

Lemma splitOn_line sep x :
  List.filter (fun c => Ascii.eqb c sep) x = [] -> Js.splitOn sep x = [x].
Proof.
  induction x as [|c x IH]; [reflexivity|]. simpl.
  destruct (Ascii.eqb c sep); [discriminate|]. intros H. now rewrite (IH H).
Qed.

Lemma splitOn_first_line sep x r :
  List.filter (fun c => Ascii.eqb c sep) x = [] ->
  Js.splitOn sep (x ++ sep :: r) = x :: Js.splitOn sep r.
Proof.
  induction x as [|c x IH]; simpl.
  - now rewrite Ascii.eqb_refl.
  - destruct (Ascii.eqb c sep); [discriminate|]. intros H. now rewrite (IH H).
Qed.

Lemma split_join_lines lines :
  lines <> [] -> Forall (fun line => lineFeedsIn line = 0%nat) lines ->
  Js.split (Js.join newline lines) lineFeed = lines.
Proof.
  unfold Js.split. induction lines as [|x [|y r] IH]; intros Hne Hall; [congruence| |].
  - inversion Hall as [|? ? Hx _]; subst. simpl.
    rewrite splitOn_line by (now apply length_zero_iff_nil). simpl. now rewrite str_chars.
  - inversion Hall as [|? ? Hx Hr]; subst.
    change (Js.join newline (x :: y :: r)) with (x +:+ newline +:+ Js.join newline (y :: r)).
    rewrite !chars_append. change (Js.chars newline) with [lineFeed].
    change ([lineFeed] ++ Js.chars (Js.join newline (y :: r)))
      with (lineFeed :: Js.chars (Js.join newline (y :: r))).
    rewrite splitOn_first_line by (now apply length_zero_iff_nil).
    cbn [map]. rewrite str_chars. f_equal. apply IH; [discriminate|exact Hr].
Qed.

(** X21. The lines of the validation report. Cut at its line feeds the
    report has a header line, a line for each log entry and one line more
    for each line feed in a message of the log (the cells are written as
    they are). When no message holds a line feed the lines are the header
    and, in the order of the log, the quoted cells of each entry. *)
Theorem validation_report_lines (validationLog : list ValidationLog) :
  length (Js.split (generateValidationLogCSV validationLog) lineFeed)
  = S (length validationLog + logLineFeeds validationLog)
  /\ (logLineFeeds validationLog = 0%nat ->
      Js.split (generateValidationLogCSV validationLog) lineFeed
      = map csvRow (["Row Number"; "Status"; "Fixes Applied"; "Warnings"; "Errors"]
                      :: map reportCells validationLog)).
Proof.
  assert (list_sum (map lineFeedsIn (map csvRow (map reportCells validationLog)))
          = logLineFeeds validationLog) as Hsum.
  { unfold logLineFeeds. rewrite !map_map. f_equal. apply map_ext. intros entry.
    rewrite lineFeedsIn_csvRow. apply lineFeedsIn_reportCells. }
  unfold generateValidationLogCSV. cbv zeta.
  change (map (fun log => _) validationLog) with (map reportCells validationLog).
  split.
  - unfold Js.split. rewrite length_map, splitOn_length.
    change (length (List.filter (fun c => Ascii.eqb c lineFeed) (Js.chars ?s)))
      with (lineFeedsIn s).
    rewrite lineFeedsIn_lines. cbn [map list_sum length Nat.pred].
    match goal with
    | |- context [list_sum (?a :: ?l)] =>
        change (list_sum (a :: l)) with (0 + list_sum l)%nat
    end.
    rewrite Hsum, !length_map. reflexivity.
  - intros Hz. apply split_join_lines; [discriminate|].
    cbn [map]. constructor; [reflexivity|].
    rewrite <- Hsum in Hz. clear Hsum.
    induction (map csvRow (map reportCells validationLog)) as [|line lines IH];
      [constructor|].
    simpl in Hz. constructor; [lia|apply IH; lia].
Qed.

End ReportFacts.

(* ===================================================================== *)
(** ** Runs at different times *)
(* ===================================================================== *)

Section ShapeFacts.
Context {Store : Type} {storage : Storage Store} {host : Host}.
#[local] Abbreviation M := (M Store).

Lemma countStatus_countOf s (log : list ValidationLog) :
  countStatus s log = countOf s (map status log).
Proof.
  unfold countStatus, countOf. f_equal. f_equal.
  induction log as [|entry log IH]; [reflexivity|]. simpl.
  destruct (statusEqb (status entry) s); simpl; now rewrite IH.
Qed.

Lemma reliable_polite : reliableStore -> politeStore.
Proof.
  intros (R1 & R2 & R3). repeat split.
  - intros lead s e s' E. destruct (R1 lead s) as (id & s2 & E2). congruence.
  - intros r s e s' E. destruct (R2 r s) as (s2 & E2). congruence.
  - intros h s e s' E. destruct (R3 h s) as (s2 & E2). congruence.
Qed.

(** The shape of a run in which nothing but the validator throws: the row
    numbers, the statuses, the original data and the counts are those that
    the rows and the chunks determine. *)
Lemma run_shape rawLeads dryRun size (store : Store) fuel :
  dryRun = true \/ reliableStore ->
  1 <= size -> (length rawLeads < fuel)%nat ->
  exists chunks result store',
    splitLoop fuel rawLeads size 0 [] = Some chunks
    /\ processBulkLeadImport fuel rawLeads dryRun size store
       = Some (Normal result, store')
    /\ map rowNumber (validationLog result) = seqZ 1 (Z.of_nat (length rawLeads))
    /\ map status (validationLog result) = map rowStatus rawLeads
    /\ map originalData (validationLog result) = map spread rawLeads
    /\ counts (batchSummary result)
       = (Z.of_nat (length rawLeads), 0,
          countOf ImportedWithIssues (map rowStatus rawLeads),
          countOf Failed (map rowStatus rawLeads),
          mkChunkStats (Z.of_nat (length chunks)) (Z.of_nat (length chunks)) 0).
Proof.
  intros Hd Hs Hf.
  assert (dryRun = true \/ politeStore) as Hp
    by (destruct Hd as [->|R]; [now left|right; now apply reliable_polite]).
  destruct (splitLoop_full_chunks rawLeads size Hs) as (chunks & S & C & F & _).
  exists chunks. unfold processBulkLeadImport. rewrite (S fuel Hf).
  destruct (importChunks_spec rawLeads dryRun size chunks (initialState store))
    as (roster & st3 & _ & Ec & ->).
  set (s0 := snd (dateNow (initialState store))) in *.
  rewrite (forChunks_flat dryRun roster size chunks
             (fun r => throwsReadable_rowBody dryRun roster r Hp) F) in Ec.
  rewrite C, Z.mul_0_l in Ec.
  destruct (forRows_statuses dryRun roster 0 rawLeads Hd 0 s0)
    as (st' & entries & E & V & St).
  destruct (forRows_follow dryRun roster 0 rawLeads
              (fun r => throwsReadable_rowBody dryRun roster r Hp) 0 s0)
    as (st2 & entries2 & E2 & V2 & N2 & O2).
  rewrite E in E2. injection E2 as <-. rewrite V in V2.
  apply app_inv_head in V2. subst entries2.
  destruct (forRows_cases dryRun roster 0 rawLeads 0 s0)
    as (entries3 & V3 & K1 & K2 & K3 & _).
  rewrite E in V3, K1, K2, K3. cbn [snd] in V3, K1, K2, K3. rewrite V in V3.
  apply app_inv_head in V3. subst entries3.
  rewrite E in Ec. cbn [snd] in Ec. injection Ec as <-.
  change (stValidationLog s0) with (@nil ValidationLog) in V.
  change (importedCount s0) with 0 in K1.
  change (importedWithIssuesCount s0) with 0 in K2.
  change (failedCount s0) with 0 in K3.
  eexists _, _. split; [reflexivity|]. split; [reflexivity|].
  unfold buildResult, counts, withChunks.
  cbn [fst snd dateNow validationLog batchSummary totalRows imported importedWithIssues
       failed chunkStats stValidationLog importedCount importedWithIssuesCount failedCount
       stSuccessfulChunks stFailedChunks].
  rewrite V, K1, K2, K3, !countStatus_countOf, St.
  change ([] ++ entries) with entries. rewrite !Z.add_0_l.
  split; [exact N2|]. split; [exact St|]. split; [exact O2|reflexivity].
Qed.

Lemma bind_ext {A B} (m1 m2 : M A) (f1 f2 : A -> M B) st :
  m1 st = m2 st ->
  (forall a st1, m2 st = (Normal a, st1) -> f1 a st1 = f2 a st1) ->
  (m1 ≫= f1) st = (m2 ≫= f2) st.
Proof.
  intros Em Hf. unfold mbind, M_bind. rewrite Em.
  destruct (m2 st) as [[a|e] st1]; [now apply Hf|reflexivity].
Qed.

Lemma parseLeadDate_parsed v t (st : ImportState Store) :
  parsedDate v = Some t -> parseLeadDate v st = (Normal t, st).
Proof.
  unfold parsedDate, parseLeadDate.
  destruct v as [|s|b text|]; try discriminate;
    destruct (newDate _) as [t0|]; try discriminate;
    try (intros [= ->]; reflexivity).
  destruct (firstValid (commonFormats s)); [intros [= ->]; reflexivity|discriminate].
Qed.

End ShapeFacts.

Section ClockFacts.
Context {Store : Type} {storage : Storage Store} {host : Host}.
Variable later : nat -> Z.
#[local] Abbreviation M := (M Store).
#[local] Abbreviation afterwards := (withClock later host).

Lemma normalizeIntake_at_another_time i (st : ImportState Store) :
  given (Js.search yearPattern (Js.chars (Js.toLowerCase i))) = true ->
  normalizeIntake (host:=afterwards) i st = normalizeIntake i st.
Proof.
  intros Hy. unfold normalizeIntake. cbv zeta.
  change (@Js.toLowerCase (@unicode afterwards)) with (@Js.toLowerCase (@unicode host)).
  destruct (Js.search yearPattern (Js.chars (Js.toLowerCase i))); [reflexivity|discriminate].
Qed.

(** The validator on a row for which it does not read the clock. *)
Lemma validator_at_another_time r (st : ImportState Store) :
  readsNoClock r = true ->
  normalizeAndValidateLead (host:=afterwards) r st = normalizeAndValidateLead r st.
Proof.
  destruct r as [|f]; [reflexivity|].
  unfold readsNoClock. rewrite !andb_true_iff. intros (((Hu & Ht) & Hp) & Hi).
  destruct (explicitStage (f !! "uid")) as [u|] eqn:Eu; [|discriminate].
  destruct (parsedDate (default JsNull (f !! "leadCreatedDate"))) as [t|] eqn:Ep;
    [|discriminate].
  unfold normalizeAndValidateLead.
  apply bind_ext; [reflexivity|intros uidField s1 E1].
  pose proof (returns_trimmedField _ _ _ _ _ E1) as ->. rewrite Eu. cbv beta iota.
  apply bind_ext; [reflexivity|intros uid s2 E2].
  apply bind_ext; [reflexivity|intros studentName s3 E3].
  apply bind_ext; [reflexivity|intros name s4 E4].
  apply bind_ext; [reflexivity|intros stageField s5 E5].
  apply bind_ext; [reflexivity|intros stage s6 E6].
  apply bind_ext.
  { rewrite Ht. cbv beta iota zeta. unfold tryCatch.
    rewrite (parseLeadDate_parsed (host:=afterwards) _ t s6 Ep).
    now rewrite (parseLeadDate_parsed _ t s6 Ep). }
  intros date s7 E7.
  apply bind_ext; [reflexivity|intros intakeField s8 E8].
  pose proof (returns_trimmedField _ _ _ _ _ E8) as ->.
  apply bind_ext; [|intros intake s9 E9; reflexivity].
  destruct (explicitStage (f !! "intake")) as [i|]; [|reflexivity].
  unfold fmap, M_fmap. now rewrite normalizeIntake_at_another_time.
Qed.

Lemma processRow_at_another_time dryRun roster start i r (st : ImportState Store) :
  readsNoClock r = true ->
  processRow (host:=afterwards) dryRun roster start i r st
  = processRow dryRun roster start i r st.
Proof.
  intros H. rewrite (processRow_unfold (host:=afterwards)), processRow_unfold.
  unfold tryCatch.
  assert (rowBody (host:=afterwards) dryRun roster r (snd (startRow start i r st))
          = rowBody dryRun roster r (snd (startRow start i r st))) as ->.
  { unfold rowBody. apply bind_ext; [now apply validator_at_another_time|].
    intros; reflexivity. }
  reflexivity.
Qed.

Lemma forRows_at_another_time dryRun roster start rows :
  forallb readsNoClock rows = true ->
  forall i (st : ImportState Store),
    forRows (host:=afterwards) dryRun roster start i rows st
    = forRows dryRun roster start i rows st.
Proof.
  induction rows as [|r rest IH]; intros H i st; [reflexivity|].
  simpl in H. apply andb_true_iff in H as [Hr H]. simpl.
  apply bind_ext; [now apply processRow_at_another_time|].
  intros _ st1 _. now apply IH.
Qed.

Lemma forChunks_at_another_time dryRun roster size chunks :
  forallb readsNoClock (concat chunks) = true ->
  forall idx (st : ImportState Store),
    forChunks (host:=afterwards) dryRun roster size idx chunks st
    = forChunks dryRun roster size idx chunks st.
Proof.
  induction chunks as [|chunk rest IH]; intros H idx st; [reflexivity|].
  simpl in H. rewrite forallb_app in H. apply andb_true_iff in H as [Hc H]. simpl.
  apply bind_ext; [|intros _ st1 _; now apply IH].
  unfold processChunk. cbv zeta. unfold tryCatch.
  assert (chunkBody (host:=afterwards) dryRun roster (idx * size) chunk st
          = chunkBody dryRun roster (idx * size) chunk st) as ->.
  { unfold chunkBody. apply bind_ext; [now apply forRows_at_another_time|].
    intros; reflexivity. }
  reflexivity.
Qed.

(** A run on rows for which the validator does not read the clock gives
    at another time the same result, the elapsed time apart. *)
Lemma run_at_another_time rawLeads dryRun size (store : Store) fuel result store' :
  forallb readsNoClock rawLeads = true ->
  1 <= size -> (length rawLeads < fuel)%nat ->
  processBulkLeadImport fuel rawLeads dryRun size store = Some (Normal result, store') ->
  exists result',
    processBulkLeadImport (host:=afterwards) fuel rawLeads dryRun size store
    = Some (Normal result', store')
    /\ validationLog result' = validationLog result
    /\ downloadableReports result' = downloadableReports result
    /\ fieldIssues (batchSummary result') = fieldIssues (batchSummary result)
    /\ counts (batchSummary result') = counts (batchSummary result).
Proof.
  intros Hc Hs Hf. unfold processBulkLeadImport.
  destruct (splitLoop_full_chunks rawLeads size Hs) as (chunks & S & C & _).
  rewrite (S fuel Hf).
  destruct (importChunks_spec rawLeads dryRun size chunks (initialState store))
    as (roster & st3 & Er & Ec & ->).
  destruct (importChunks_spec (host:=afterwards) rawLeads dryRun size chunks
              (initialState store)) as (roster' & st3' & Er' & Ec' & ->).
  set (s0 := snd (dateNow (initialState store))) in *.
  change (snd (dateNow (host:=afterwards) (initialState store))) with s0 in Er', Ec'.
  change (fetchRoster (host:=afterwards) s0) with (fetchRoster s0) in Er'.
  rewrite Er in Er'. injection Er' as <-.
  rewrite forChunks_at_another_time in Ec' by (now rewrite C).
  rewrite Ec in Ec'. injection Ec' as <-.
  unfold buildResult. simpl. intros [= <- <-].
  eexists. split; [reflexivity|]. simpl. repeat split.
Qed.


(** X18. The chunk size only shows in the chunk statistics. Two runs
    of the same batch, from the same store, with chunk sizes of at least 1
    and at different times: when the row-level handler deals with everything
    the rows throw (every dry run, and every run against a store whose
    rejections have a readable message) and no row makes the validator read
    the clock, both runs return, leave the same store, and their results
    have the same validation log, reports, field issues and row counters;
    [chunkStats] depends on the size, the elapsed time on the clock. *)
Theorem chunk_size_only_shows_in_chunk_stats rawLeads dryRun size1 size2
    (store : Store) fuel :
  dryRun = true \/ politeStore ->
  1 <= size1 -> 1 <= size2 -> (length rawLeads < fuel)%nat ->
  forallb readsNoClock rawLeads = true ->
  exists result1 result2 store',
    processBulkLeadImport fuel rawLeads dryRun size1 store = Some (Normal result1, store')
    /\ processBulkLeadImport (host:=afterwards) fuel rawLeads dryRun size2 store
       = Some (Normal result2, store')
    /\ validationLog result1 = validationLog result2
    /\ downloadableReports result1 = downloadableReports result2
    /\ fieldIssues (batchSummary result1) = fieldIssues (batchSummary result2)
    /\ (totalRows (batchSummary result1), imported (batchSummary result1),
        importedWithIssues (batchSummary result1), failed (batchSummary result1))
       = (totalRows (batchSummary result2), imported (batchSummary result2),
          importedWithIssues (batchSummary result2), failed (batchSummary result2)).
Proof.
  intros Hp H1 H2 Hf Hc.
  destruct (chunk_size_same_clock rawLeads dryRun size1 size2 store fuel Hp H1 H2 Hf)
    as (result1 & result0 & store' & E1 & E0 & L & D & I & K).
  destruct (run_at_another_time rawLeads dryRun size2 store fuel result0 store'
              Hc H2 Hf E0) as (result2 & E2 & L2 & D2 & I2 & K2).
  exists result1, result2, store'. split; [exact E1|]. split; [exact E2|].
  rewrite L2, D2, I2, L, D, I, K.
  unfold counts in K2. injection K2 as -> -> -> -> _.
  repeat split.
Qed.

End ClockFacts.

#[local] Existing Instance Examples.host.

(** C2 (as the code has it). Three rows in one chunk, the second insert
    rejected with [undefined]. The [try] block of the first row completes
    and the row is logged as imported with issues; the handler of the second
    row fails on [error.message] and the chunk-level handler runs, which
    logs every row of the chunk as failed, the third without its having been
    processed, and leaves the entry of the first row where it is. The first
    row raised no exception, the handler of its chunk ran, and the log holds
    for it the status [ImportedWithIssues] beside the status [Failed]. *)
Theorem chunk_catch_keeps_classified_entries :
  @chunkTrace _ Examples.rejectingStore Examples.host false Examples.roster (0 * 3) 0
    Examples.batch (snd (dateNow (initialState [])))
  = [Normal tt; Throw ThrownUndefined]
  /\ match @processBulkLeadImport _ Examples.rejectingStore Examples.host 4
             Examples.batch false 3 [] with
     | Some (Normal result, _) =>
         totalRows (batchSummary result) = 3
         /\ failedChunks (chunkStats (batchSummary result)) = 1
         /\ map (fun entry => (rowNumber entry, status entry)) (validationLog result)
            = [(1, ImportedWithIssues); (1, Failed); (2, Failed); (3, Failed)]
     | _ => False
     end.
Proof.
  vm_compute. repeat split.
Qed.


(* ===================================================================== *)
(** ** Instances *)
(* ===================================================================== *)


Lemma chunks_partition_the_batch_witness :
  1 <= 2
  /\ exists chunks,
       (forall fuel, (length Examples.batch < fuel)%nat ->
                     splitLoop fuel Examples.batch 2 0 [] = Some chunks)
       /\ concat chunks = Examples.batch
       /\ (forall k chunk, chunks !! k = Some chunk ->
             chunk <> []
             /\ Z.of_nat (length chunk) <= 2
             /\ ((S k < length chunks)%nat -> Z.of_nat (length chunk) = 2)
             /\ chunk = take (Z.to_nat 2) (drop (k * Z.to_nat 2) Examples.batch)).
Proof. split; [lia|apply (chunks_partition_the_batch Examples.batch 2); lia]. Defined.

Lemma no_row_is_imported_without_issues_witness :
  1 <= 2 /\ (length Examples.batch < 4)%nat
  /\ exists result store',
       @processBulkLeadImport _ Examples.pickyStore Examples.host 4 Examples.batch
         false 2 []
       = Some (Normal result, store')
       /\ imported (batchSummary result) = 0
       /\ Forall (fun entry => status entry = ImportedWithIssues \/ status entry = Failed)
            (validationLog result).
Proof.
  split; [lia|]. split; [simpl; lia|].
  apply (@no_row_is_imported_without_issues _ Examples.pickyStore Examples.host);
    [lia|simpl; lia].
Defined.

Lemma validation_log_follows_the_batch_witness :
  (true = true \/ @politeStore _ Examples.memoryStore)
  /\ 1 <= 2 /\ (length Examples.batch < 4)%nat
  /\ exists result store',
       @processBulkLeadImport _ Examples.memoryStore Examples.host 4 Examples.batch
         true 2 []
       = Some (Normal result, store')
       /\ map rowNumber (validationLog result)
          = seqZ 1 (Z.of_nat (length Examples.batch))
       /\ map originalData (validationLog result) = map spread Examples.batch.
Proof.
  split; [now left|]. split; [lia|]. split; [simpl; lia|].
  apply (@validation_log_follows_the_batch _ Examples.memoryStore Examples.host);
    [now left|lia|simpl; lia].
Defined.

Lemma field_issues_are_bounded_witness :
  1 <= 2 /\ (length Examples.batch < 4)%nat
  /\ exists result store',
       @processBulkLeadImport _ Examples.memoryStore Examples.host 4 Examples.batch
         false 2 []
       = Some (Normal result, store')
       /\ forall fieldName issue,
            fieldIssues (batchSummary result) !! fieldName = Some issue ->
            In fieldName issueFields
            /\ 1 <= count issue
            /\ Z.of_nat (length (samples issue)) = Z.min (count issue) 5.
Proof.
  split; [lia|]. split; [simpl; lia|].
  apply (@field_issues_are_bounded _ Examples.memoryStore Examples.host);
    [lia|simpl; lia].
Defined.

Lemma counters_agree_with_the_log_witness :
  1 <= 2 /\ (2 < 3)%nat
  /\ exists result store',
       @processBulkLeadImport _ Examples.rejectingStore Examples.host 3
         [Examples.lead "U1"; Examples.lead "U2"] false 2 []
       = Some (Normal result, store')
       /\ imported (batchSummary result) = countStatus Imported (validationLog result)
       /\ importedWithIssues (batchSummary result)
          = countStatus ImportedWithIssues (validationLog result)
       /\ failed (batchSummary result) = countStatus Failed (validationLog result)
       /\ imported (batchSummary result) + importedWithIssues (batchSummary result)
          + failed (batchSummary result) = Z.of_nat (length (validationLog result))
       /\ successfulChunks (chunkStats (batchSummary result))
          + failedChunks (chunkStats (batchSummary result))
          = totalChunks (chunkStats (batchSummary result))
       /\ totalRows (batchSummary result) <= Z.of_nat (length (validationLog result))
          <= 2 * totalRows (batchSummary result).
Proof.
  split; [lia|]. split; [lia|].
  apply (@counters_agree_with_the_log _ Examples.rejectingStore Examples.host);
    [lia|simpl; lia].
Defined.

Lemma normalizeEmail_result_is_normal_witness :
  @normalizeEmail unit Examples.host " Ann@Example.COM " (initialState tt)
  = (Normal (Some "ann@example.com"),
     snd (@normalizeEmail unit Examples.host " Ann@Example.COM " (initialState tt)))
  /\ "ann@example.com" = Js.trim (Js.toLowerCase " Ann@Example.COM ")
  /\ emailRegexTest "ann@example.com" = true
  /\ Js.hasWhite (Js.chars "ann@example.com") = false
  /\ @normalizeEmail unit Examples.host "ann@example.com"
       (snd (@normalizeEmail unit Examples.host " Ann@Example.COM " (initialState tt)))
     = (Normal (Some "ann@example.com"),
        snd (@normalizeEmail unit Examples.host " Ann@Example.COM " (initialState tt))).
Proof.
  split; [vm_compute; reflexivity|].
  apply (@normalizeEmail_result_is_normal unit Examples.host " Ann@Example.COM "
           (initialState tt)).
  vm_compute. reflexivity.
Defined.

Lemma normalizeCountry_result_is_stable_witness :
  let st1 := snd (@normalizeCountry unit Examples.host "usa" (initialState tt)) in
  @normalizeCountry unit Examples.host "usa" (initialState tt)
  = (Normal (CountryText "US"), st1)
  /\ ("US" = "usa" \/ exists alias, countryMap !! alias = Some "US")
  /\ exists st2,
       @normalizeCountry unit Examples.host "US" st1 = (Normal (CountryText "US"), st2)
       /\ ((exists alias, countryMap !! alias = Some "US") ->
           warnings (stLog st2)
           = warnings (stLog st1)
             ++ ["Country " +:+ dq +:+ "US" +:+ dq
                   +:+ " could not be normalized to ISO code"]).
Proof.
  intros st1. split; [vm_compute; reflexivity|].
  apply (@normalizeCountry_result_is_stable unit Examples.host "usa" (initialState tt)).
  vm_compute. reflexivity.
Defined.

Lemma normalizeIntake_defaults_to_next_year_witness :
  Js.search yearPattern (Js.chars (Js.toLowerCase "Autumn intake")) = None
  /\ 999 <= @getFullYear Examples.host (@clock Examples.host 0) < 9999
  /\ exists season st',
       @normalizeIntake unit Examples.host "Autumn intake" (initialState tt)
       = (Normal (Js.numberToString (@getFullYear Examples.host (@clock Examples.host 0) + 1)
                    +:+ "-" +:+ season), st')
       /\ season = default "Fall" (findSeason (Js.toLowerCase "Autumn intake"))
       /\ isCanonicalIntake
            (Js.numberToString (@getFullYear Examples.host (@clock Examples.host 0) + 1)
               +:+ "-" +:+ season) = true
       /\ stTicks st' = 1%nat
       /\ exists more,
            fixesApplied (stLog st')
            = [] ++ ("Added missing year "
                       +:+ Js.numberToString
                             (@getFullYear Examples.host (@clock Examples.host 0) + 1)
                       +:+ " to intake") :: more.
Proof.
  split; [vm_compute; reflexivity|]. split; [simpl; lia|].
  apply (@normalizeIntake_defaults_to_next_year unit Examples.host "Autumn intake"
           (initialState tt)).
  - vm_compute. reflexivity.
  - simpl. lia.
Defined.

Lemma counselor_assignment_follows_the_roster_witness :
  @fetchRoster _ Examples.memoryStore Examples.host (initialState [])
  = (Normal Examples.roster, initialState [])
  /\ forall hint,
       let normalized :=
         mkNormalized "U1" "Ann" "Applied" 0 None None None None None None None hint in
       let assigned :=
         counselorId (applyBusinessLogic normalized (counselors Examples.roster)
                        (defaultCounselor Examples.roster) (managerId Examples.roster)) in
       (forall id, assigned = Some id ->
          exists users u,
            @getAllUsers _ Examples.memoryStore [] = Normal users
            /\ In u users /\ userId u = id /\ userRole u = "counselor")
       /\ (hint = None -> assigned = None)
       /\ (forall text d,
             hint = Some text -> Js.trim text <> "" ->
             defaultCounselor Examples.roster = Some d ->
             assigned
             = Some (userId (default d (List.find (matchesCounselor
                                                     (Js.toLowerCase (Js.trim text)))
                                          (counselors Examples.roster))))).
Proof.
  split; [reflexivity|]. intros hint.
  apply (@counselor_assignment_follows_the_roster _ Examples.memoryStore Examples.host
           (mkNormalized "U1" "Ann" "Applied" 0 None None None None None None None hint)
           (initialState []) Examples.roster (initialState [])).
  reflexivity.
Defined.

Lemma bulkImportRoute_answers_with_the_result_witness :
  1 <= default 1000 None /\ (length Examples.batch < 4)%nat
  /\ exists result store',
       @bulkImportRoute _ Examples.failingStore Examples.host 4
         (mkBulkRequest (LeadsArray Examples.batch) (Some true) None) tt
       = Some (Json result, store')
       /\ success result = true
       /\ totalRows (batchSummary result) = Z.of_nat (length Examples.batch)
       /\ (Some true = Some true -> store' = tt).
Proof.
  split; [simpl; lia|]. split; [simpl; lia|].
  apply (@bulkImportRoute_answers_with_the_result _ Examples.failingStore Examples.host);
    [simpl; lia|simpl; lia].
Defined.

Lemma text_only_rows_never_fail_witness :
  forallb textualLead Examples.batch = true
  /\ (false = true \/ @reliableStore _ Examples.memoryStore)
  /\ 1 <= 2 /\ (length Examples.batch < 4)%nat
  /\ exists result store',
       @processBulkLeadImport _ Examples.memoryStore Examples.host 4 Examples.batch
         false 2 []
       = Some (Normal result, store')
       /\ failed (batchSummary result) = 0
       /\ importedWithIssues (batchSummary result) = Z.of_nat (length Examples.batch)
       /\ failedChunks (chunkStats (batchSummary result)) = 0
       /\ Forall (fun entry => status entry = ImportedWithIssues) (validationLog result).
Proof.
  split; [vm_compute; reflexivity|]. split; [right; exact memoryStore_reliable|].
  split; [lia|]. split; [simpl; lia|].
  apply (@text_only_rows_never_fail _ Examples.memoryStore Examples.host);
    [vm_compute; reflexivity|right; exact memoryStore_reliable|lia|simpl; lia].
Defined.

Lemma uploaded_records_are_text_witness :
  csvLines Examples.csvText = Examples.csvHeader :: Examples.csvRows
  /\ length (csvLeads (csvValues Examples.csvHeader) Examples.csvRows)
     = length Examples.csvRows
  /\ Forall
       (fun lead =>
          exists fields,
            lead = ObjectLead fields
            /\ (forall key,
                  is_Some (fields !! key)
                  <-> key <> "__proto__"
                      /\ exists header, In header (csvValues Examples.csvHeader)
                                        /\ headerKey header = key)
            /\ (forall key v,
                  fields !! key = Some v ->
                  exists text,
                    v = JsString text
                    /\ ~ In ","%char (Js.chars text)
                    /\ ~ In quote (Js.chars text)
                    /\ ~ In lineFeed (Js.chars text)))
       (csvLeads (csvValues Examples.csvHeader) Examples.csvRows).
Proof.
  split; [vm_compute; reflexivity|].
  apply (uploaded_records_are_text Examples.csvText). vm_compute. reflexivity.
Defined.

Lemma upload_fails_no_row_witness :
  readFileSync Examples.upload = Normal Examples.csvText
  /\ unlinkSync Examples.upload = Normal tt
  /\ csvLines Examples.csvText <> []
  /\ 1 <= processChunkSize (default "1000" None)
  /\ (Some "true" = Some "true" \/ @reliableStore _ Examples.failingStore)
  /\ (length (csvLines Examples.csvText) <= 3)%nat
  /\ exists result store',
       @uploadRoute _ Examples.failingStore Examples.host 3
         (mkUploadRequest (Some Examples.upload) (Some "true") None) tt
       = Some (Json result, store')
       /\ totalRows (batchSummary result)
          = Z.of_nat (length (csvLines Examples.csvText)) - 1
       /\ failed (batchSummary result) = 0
       /\ importedWithIssues (batchSummary result) = totalRows (batchSummary result)
       /\ (Some "true" = Some "true" -> store' = tt).
Proof.
  split; [reflexivity|]. split; [reflexivity|].
  split; [vm_compute; discriminate|]. split; [vm_compute; discriminate|].
  split; [now left|]. split; [vm_compute; lia|].
  apply (@upload_fails_no_row _ Examples.failingStore Examples.host Examples.upload
           Examples.csvText (Some "true") None tt 3).
  - reflexivity.
  - reflexivity.
  - vm_compute. discriminate.
  - vm_compute. discriminate.
  - now left.
  - vm_compute. lia.
Defined.

Lemma upload_chunk_size_is_not_checked_witness :
  (Js.parseInt "all" = None \/ Js.parseInt "all" = Some 0)
  /\ (forall fuel,
        @uploadRoute _ Examples.memoryStore Examples.host fuel
          (mkUploadRequest (Some Examples.upload) None (Some "all")) []
        = @uploadRoute _ Examples.memoryStore Examples.host fuel
            (mkUploadRequest (Some Examples.upload) None None) [])
  /\ Js.parseInt "-5" = Some (-5) /\ -5 < 0
  /\ readFileSync Examples.upload = Normal Examples.csvText
  /\ csvLines Examples.csvText = Examples.csvHeader :: Examples.csvRows
  /\ forall fuel,
       @uploadRoute _ Examples.memoryStore Examples.host fuel
         (mkUploadRequest (Some Examples.upload) None (Some "-5")) []
       = None.
Proof.
  split; [left; vm_compute; reflexivity|]. split.
  { apply (proj1 (@upload_chunk_size_is_not_checked _ Examples.memoryStore Examples.host
                    Examples.upload None "all" [])).
    left. vm_compute. reflexivity. }
  split; [vm_compute; reflexivity|]. split; [lia|]. split; [reflexivity|].
  split; [vm_compute; reflexivity|].
  apply (proj2 (@upload_chunk_size_is_not_checked _ Examples.memoryStore Examples.host
                  Examples.upload None "-5" [])
           (-5) Examples.csvText Examples.csvHeader "U1, Ann ,usa"
           ["U2," +:+ dq +:+ "Bob, Jr" +:+ dq +:+ ",India"]).
  - vm_compute. reflexivity.
  - lia.
  - reflexivity.
  - vm_compute. reflexivity.
Defined.

Lemma validator_returns_well_formed_records_witness :
  match @normalizeAndValidateLead unit Examples.host Examples.emptyLead
          (initialState tt) with
  | (Normal n, _) => name n = "Unknown Student" /\ wellFormed n
  | (Throw _, _) => False
  end.
Proof.
  destruct (@normalizeAndValidateLead unit Examples.host Examples.emptyLead
              (initialState tt)) as [[n|e] st'] eqn:E.
  - split.
    + vm_compute in E. injection E as <- _. reflexivity.
    + exact (@validator_returns_well_formed_records unit Examples.host _ _ _ _ E).
  - vm_compute in E. discriminate.
Defined.

Lemma empty_batch_gives_an_empty_result_witness :
  (0 < 1)%nat
  /\ exists result,
       @processBulkLeadImport _ Examples.memoryStore Examples.host 1 [] false (-3) []
       = Some (Normal result, [])
       /\ success result = true
       /\ counts (batchSummary result) = (0, 0, 0, 0, mkChunkStats 0 0 0)
       /\ fieldIssues (batchSummary result) = ∅
       /\ validationLog result = []
       /\ reportValidationLog (downloadableReports result)
          = csvRow ["Row Number"; "Status"; "Fixes Applied"; "Warnings"; "Errors"]
       /\ reportNormalizedPayload (downloadableReports result) = "".
Proof.
  split; [lia|].
  apply (@empty_batch_gives_an_empty_result _ Examples.memoryStore Examples.host). lia.
Defined.

Lemma day_first_dates_are_read_as_iso_witness :
  forallb Js.isDigit ["1"; "5"; "0"; "1"; "2"; "0"; "2"; "4"]%char = true
  /\ ("15/01/2024" = dayFirstDate "/" "1" "5" "0" "1" "2" "0" "2" "4"
      \/ "15/01/2024" = dayFirstDate "-" "1" "5" "0" "1" "2" "0" "2" "4"
      \/ "15/01/2024" = compactDateText "1" "5" "0" "1" "2" "0" "2" "4")
  /\ @parseLeadDate (list LeadInsert) Examples.host (JsString "15/01/2024")
       (initialState [])
     = (match @newDate Examples.host (JsString "15/01/2024") with
        | Some t => Normal t
        | None =>
            match @newDate Examples.host
                    (JsString (isoDateText "1" "5" "0" "1" "2" "0" "2" "4")) with
            | Some t => Normal t
            | None => Throw (ThrownError "Error" "Unparseable date format")
            end
        end, initialState []).
Proof.
  split; [reflexivity|]. split; [left; reflexivity|].
  apply (@day_first_dates_are_read_as_iso (list LeadInsert) Examples.host);
    [reflexivity|left; reflexivity].
Defined.

Lemma validation_report_lines_witness :
  let log := [mkLog 1 Failed [] ["Missing intake information"] ["boom"] NullLead NoData] in
  logLineFeeds log = 0%nat
  /\ Js.split (generateValidationLogCSV log) lineFeed
     = map csvRow (["Row Number"; "Status"; "Fixes Applied"; "Warnings"; "Errors"]
                     :: map reportCells log).
Proof.
  intros log. split; [reflexivity|].
  apply (proj2 (validation_report_lines log)). reflexivity.
Defined.


Lemma chunk_size_only_shows_in_chunk_stats_witness :
  (true = true \/ @politeStore _ Examples.memoryStore)
  /\ 1 <= 1 /\ 1 <= 2 /\ (length Examples.batch < 4)%nat
  /\ forallb readsNoClock Examples.batch = true
  /\ exists result1 result2 store',
       @processBulkLeadImport _ Examples.memoryStore Examples.host 4 Examples.batch
         true 1 []
       = Some (Normal result1, store')
       /\ @processBulkLeadImport _ Examples.memoryStore
            (withClock Examples.aMinuteLater Examples.host) 4 Examples.batch true 2 []
          = Some (Normal result2, store')
       /\ validationLog result1 = validationLog result2
       /\ downloadableReports result1 = downloadableReports result2
       /\ fieldIssues (batchSummary result1) = fieldIssues (batchSummary result2)
       /\ (totalRows (batchSummary result1), imported (batchSummary result1),
           importedWithIssues (batchSummary result1), failed (batchSummary result1))
          = (totalRows (batchSummary result2), imported (batchSummary result2),
             importedWithIssues (batchSummary result2), failed (batchSummary result2)).
Proof.
  split; [now left|]. split; [lia|]. split; [lia|]. split; [simpl; lia|].
  split; [vm_compute; reflexivity|].
  apply (@chunk_size_only_shows_in_chunk_stats _ Examples.memoryStore Examples.host
           Examples.aMinuteLater);
    [now left|lia|lia|simpl; lia|vm_compute; reflexivity].
Defined.

Lemma non_text_field_fails_the_row_witness :
  let f : gmap string JsValue :=
    {[ "leadCreatedDate" := JsOpaque; "counsellors" := JsOther true "5" ]} in
  let st0 : ImportState (list LeadInsert) := initialState [] in
  rowThrows (ObjectLead f) = true
  /\ exists message entry st',
       validatorError f message
       /\ @processRow _ Examples.memoryStore Examples.host false Examples.roster 0 0
            (ObjectLead f) st0
          = (Normal tt, st')
       /\ stValidationLog st' = stValidationLog st0 ++ [entry]
       /\ rowNumber entry = 0 + 0 + 1
       /\ status entry = Failed
       /\ (exists before, errors entry = before ++ [message])
       /\ failedCount st' = failedCount st0 + 1
       /\ importedCount st' + importedWithIssuesCount st'
          = importedCount st0 + importedWithIssuesCount st0
       /\ stStore st' = stStore st0.
Proof.
  intros f st0. split; [vm_compute; reflexivity|].
  apply (@non_text_field_fails_the_row _ Examples.memoryStore Examples.host false
           Examples.roster 0 0 f st0).
  vm_compute. reflexivity.
Defined.
